(** * RelayX-API: the RelayXClient message correlation layer (src/index.ts)

    A shallow embedding of the [RelayXClient] class: JavaScript data as an
    inductive type of values, the browser window (listeners, timers, the
    parent frame) and the class's static and per-instance fields as an
    explicit world state, and every method as a function in a state and
    exception monad over that world. *)

From Stdlib Require Import ZArith QArith Qround Lia Ascii String.
From stdpp Require Import base option list strings gmap pretty.

Local Open Scope string_scope.
Local Open Scope Z_scope.

(** ** JavaScript values

    Numbers are restricted to the integers and NaN; strings are sequences
    of code units below 256, so that [String.length] is JavaScript's
    [length].  Objects keep their properties in insertion order. *)

#[warnings="-register-all"]
Inductive JsVal : Type :=
| VUndef
| VNull
| VBool (b : bool)
| VNum (z : Z)
| VNaN
| VStr (s : string)
| VArr (xs : list JsVal)
| VObj (props : list (string * JsVal)).

(** ToBoolean *)
Definition truthy (v : JsVal) : bool :=
  match v with
  | VUndef | VNull | VNaN => false
  | VBool b => b
  | VNum z => negb (z =? 0)
  | VStr s => negb (String.eqb s "")
  | VArr _ | VObj _ => true
  end.

Inductive JsType := TUndefined | TObject | TBoolean | TNumber | TString.

Definition typeof (v : JsVal) : JsType :=
  match v with
  | VUndef => TUndefined
  | VNull | VArr _ | VObj _ => TObject
  | VBool _ => TBoolean
  | VNum _ | VNaN => TNumber
  | VStr _ => TString
  end.

Definition is_string (v : JsVal) : bool :=
  match v with VStr _ => true | _ => false end.

Definition is_object (v : JsVal) : bool :=
  match typeof v with TObject => true | _ => false end.

Definition is_boolean (v : JsVal) : bool :=
  match v with VBool _ => true | _ => false end.

Definition is_undefined (v : JsVal) : bool :=
  match v with VUndef => true | _ => false end.

Definition is_null (v : JsVal) : bool :=
  match v with VNull => true | _ => false end.

(** Array.isArray *)
Definition isArray (v : JsVal) : bool :=
  match v with VArr _ => true | _ => false end.

(** *** Plain objects as ordered property lists *)

Section Props.
Context {A : Type}.

Fixpoint assoc (k : string) (ps : list (string * A)) : option A :=
  match ps with
  | [] => None
  | (k', v) :: ps' => if String.eqb k k' then Some v else assoc k ps'
  end.

(** [o[k] = v]: an existing property keeps its place, a new one goes
    last. *)
Fixpoint assign (k : string) (v : A) (ps : list (string * A))
  : list (string * A) :=
  match ps with
  | [] => [(k, v)]
  | (k', v') :: ps' =>
      if String.eqb k k' then (k, v) :: ps' else (k', v') :: assign k v ps'
  end.

(** [delete o[k]] *)
Fixpoint remove (k : string) (ps : list (string * A)) : list (string * A) :=
  match ps with
  | [] => []
  | (k', v') :: ps' =>
      if String.eqb k k' then remove k ps' else (k', v') :: remove k ps'
  end.

(** Object.keys *)
Definition keys (ps : list (string * A)) : list string := fst <$> ps.
End Props.

(** Reading a named data property [v.k] of a value that is known not to
    be null or undefined: primitives and arrays have none of the names
    the client reads. *)
Definition get (v : JsVal) (k : string) : JsVal :=
  match v with
  | VObj ps => default VUndef (assoc k ps)
  | _ => VUndef
  end.

(** The own enumerable properties copied by an object spread [...v]. *)
Fixpoint indexed (i : nat) (xs : list JsVal) : list (string * JsVal) :=
  match xs with
  | [] => []
  | x :: xs' => (pretty i, x) :: indexed (S i) xs'
  end.

Fixpoint chars (s : string) : list JsVal :=
  match s with
  | EmptyString => []
  | String c s' => VStr (String c EmptyString) :: chars s'
  end.

Definition own_props (v : JsVal) : list (string * JsVal) :=
  match v with
  | VObj ps => ps
  | VArr xs => indexed 0 xs
  | VStr s => indexed 0 (chars s)
  | _ => []
  end.

(** [{ ...base, ...v }] *)
Definition spread (base : list (string * JsVal)) (v : JsVal)
  : list (string * JsVal) :=
  fold_left (fun acc kv => assign kv.1 kv.2 acc) (own_props v) base.

(** The property names every plain object inherits from
    [Object.prototype]; a lookup [o[k]] with such a [k] that is not an own
    property of [o] yields the inherited member, which is truthy. *)
Definition Object_prototype : list string :=
  [ "constructor"; "__proto__"; "hasOwnProperty"; "isPrototypeOf";
    "propertyIsEnumerable"; "toLocaleString"; "toString"; "valueOf";
    "__defineGetter__"; "__defineSetter__"; "__lookupGetter__";
    "__lookupSetter__" ].

Inductive Lookup (A : Type) : Type :=
| Own (a : A)
| Inherited
| Missing.
Arguments Own {A} a.
Arguments Inherited {A}.
Arguments Missing {A}.

Definition inherited (k : string) : bool :=
  existsb (String.eqb k) Object_prototype.

Definition js_lookup {A} (ps : list (string * A)) (k : string) : Lookup A :=
  match assoc k ps with
  | Some a => Own a
  | None => if inherited k then Inherited else Missing
  end.

(** ** String primitives *)

(** WhiteSpace and LineTerminator code units below 256: what [\s] matches
    and what [trim] removes. *)
Definition is_js_space (c : ascii) : bool :=
  let n := nat_of_ascii c in
  ((9 <=? n) && (n <=? 13) || (n =? 32) || (n =? 160))%nat.

Fixpoint trimStart (s : string) : string :=
  match s with
  | EmptyString => EmptyString
  | String c s' => if is_js_space c then trimStart s' else s
  end.

Fixpoint trimEnd (s : string) : string :=
  match s with
  | EmptyString => EmptyString
  | String c s' =>
      match trimEnd s' with
      | EmptyString => if is_js_space c then EmptyString
                       else String c EmptyString
      | t => String c t
      end
  end.

Definition trim (s : string) : string := trimEnd (trimStart s).

(** [!s.trim()] *)
Definition blank (s : string) : bool := String.eqb (trim s) "".

Fixpoint startsWith (s p : string) : bool :=
  match p, s with
  | EmptyString, _ => true
  | String a p', String b s' => Ascii.eqb a b && startsWith s' p'
  | String _ _, EmptyString => false
  end.

(** [s.split(sep)] for a one-character separator: the segments between
    the separators, in order. *)
Fixpoint split (sep : ascii) (s : string) : list string :=
  match s with
  | EmptyString => [EmptyString]
  | String c s' =>
      if Ascii.eqb c sep then EmptyString :: split sep s'
      else match split sep s' with
           | seg :: segs => String c seg :: segs
           | [] => [String c EmptyString]
           end
  end.

(** [s.replace(/\s/g, '')] *)
Fixpoint strip_spaces (s : string) : string :=
  match s with
  | EmptyString => EmptyString
  | String c s' =>
      if is_js_space c then strip_spaces s' else String c (strip_spaces s')
  end.

(** The match of [/=*$/]: the leftmost position from which only ['=']
    follows, hence the maximal run of ['='] that ends the string. *)
Fixpoint all_eq_sign (s : string) : bool :=
  match s with
  | EmptyString => true
  | String c s' => Ascii.eqb c "="%char && all_eq_sign s'
  end.

Fixpoint match_trailing_eq (s : string) : string :=
  match s with
  | EmptyString => EmptyString
  | String c s' => if all_eq_sign s then s else match_trailing_eq s'
  end.

(** ** The base64 size routine *)

Record ImageSize := { bytes : Z; kb : Q; mb : Q }.

(** [getBase64ImageSize]; [kb] and [mb] are the quotients before their
    [toFixed(2)] rendering, which no caller reads. *)
Definition getBase64ImageSize (base64String : string) : ImageSize :=
  let base64 :=
    match split ","%char base64String !! 1%nat with
    | Some seg => if String.eqb seg "" then base64String else seg
    | None => base64String
    end in
  let base64 := strip_spaces base64 in
  let padding := Z.of_nat (String.length (match_trailing_eq base64)) in
  let bytes := (inject_Z (Z.of_nat (String.length base64)) * 3 / 4
                - inject_Z padding)%Q in
  let kb := (bytes / 1024)%Q in
  let mb := (kb / 1024)%Q in
  {| bytes := Qfloor bytes; kb := kb; mb := mb |}.

(** ** The world: window, class statics and instances *)

(** enum ErrorCode *)
Module ErrorCode.
Definition InvalidPayload : Z := 30001.
Definition MissingCertificate : Z := 30002.
Definition InvalidCertificate : Z := 30003.
Definition methodNotFound : Z := 30004.
Definition ExceededUploadSizeLimit : Z := 30010.
Definition TimeoutError : Z := 30011.
End ErrorCode.

(** An entry of [messageCallbacks].  [resolve] and [reject] are the two
    resolving functions of one promise, named by that promise's number;
    [timeoutId] is absent until a timer is armed. *)
Record Callback := {
  resolve : nat;
  reject : nat;
  timeoutId : option Z
}.

(** The per-instance fields of a [RelayXClient].  [commandMap] is the same
    table in every instance and is given below as [commandMap]. *)
Record Instance := {
  defaultTimeout : JsVal;
  messageCallbacks : list (string * Callback)
}.

#[global] Instance Instance_inhabited : Inhabited Instance :=
  populate {| defaultTimeout := VNum 30000; messageCallbacks := [] |}.

(** A timer armed by [_sendMessage]: its callback is
    [() => this.handleTimeout(messageId, cmd)], to run after [delay]. *)
Record Timer := {
  timer_this : nat;
  timer_messageId : string;
  timer_cmd : string;
  timer_delay : JsVal
}.

Record World := {
  instanceCount : Z;             (* RelayXClient.instanceCount *)
  listenerFn : option nat;       (* RelayXClient.listenerFn: the instance
                                    messageHandler is bound to, or null *)
  listeners : list nat;          (* the window's "message" listeners, each a
                                    messageHandler bound to an instance *)
  parent : bool;                 (* window.parent is reachable *)
  posted : list JsVal;           (* messages given to parent.postMessage,
                                    oldest first *)
  nextTimer : Z;                 (* the handle the next setTimeout returns *)
  timers : gmap Z Timer;         (* the armed timers *)
  settled : list (nat * JsVal);  (* every call of a promise's resolve
                                    function, oldest first *)
  nextPromise : nat;
  uuidCount : nat;               (* identifiers generated so far *)
  instances : list Instance
}.

Definition set_statics (c : Z) (l : option nat) (w : World) : World :=
  {| instanceCount := c; listenerFn := l; listeners := listeners w;
     parent := parent w; posted := posted w; nextTimer := nextTimer w;
     timers := timers w; settled := settled w; nextPromise := nextPromise w;
     uuidCount := uuidCount w; instances := instances w |}.

Definition set_listeners (ls : list nat) (w : World) : World :=
  {| instanceCount := instanceCount w; listenerFn := listenerFn w;
     listeners := ls;
     parent := parent w; posted := posted w; nextTimer := nextTimer w;
     timers := timers w; settled := settled w; nextPromise := nextPromise w;
     uuidCount := uuidCount w; instances := instances w |}.

Definition set_posted (ms : list JsVal) (w : World) : World :=
  {| instanceCount := instanceCount w; listenerFn := listenerFn w;
     listeners := listeners w;
     parent := parent w; posted := ms; nextTimer := nextTimer w;
     timers := timers w; settled := settled w; nextPromise := nextPromise w;
     uuidCount := uuidCount w; instances := instances w |}.

Definition set_timers (n : Z) (ts : gmap Z Timer) (w : World) : World :=
  {| instanceCount := instanceCount w; listenerFn := listenerFn w;
     listeners := listeners w;
     parent := parent w; posted := posted w; nextTimer := n;
     timers := ts; settled := settled w; nextPromise := nextPromise w;
     uuidCount := uuidCount w; instances := instances w |}.

Definition set_promises (n : nat) (s : list (nat * JsVal)) (w : World)
  : World :=
  {| instanceCount := instanceCount w; listenerFn := listenerFn w;
     listeners := listeners w;
     parent := parent w; posted := posted w; nextTimer := nextTimer w;
     timers := timers w; settled := s; nextPromise := n;
     uuidCount := uuidCount w; instances := instances w |}.

Definition set_uuidCount (n : nat) (w : World) : World :=
  {| instanceCount := instanceCount w; listenerFn := listenerFn w;
     listeners := listeners w;
     parent := parent w; posted := posted w; nextTimer := nextTimer w;
     timers := timers w; settled := settled w; nextPromise := nextPromise w;
     uuidCount := n; instances := instances w |}.

Definition set_instances (insts : list Instance) (w : World) : World :=
  {| instanceCount := instanceCount w; listenerFn := listenerFn w;
     listeners := listeners w;
     parent := parent w; posted := posted w; nextTimer := nextTimer w;
     timers := timers w; settled := settled w; nextPromise := nextPromise w;
     uuidCount := uuidCount w; instances := insts |}.

(** A page that has loaded the module and constructed nothing yet; timer
    handles are positive integers. *)
Definition initial (has_parent : bool) : World :=
  {| instanceCount := 0; listenerFn := None; listeners := [];
     parent := has_parent; posted := []; nextTimer := 1; timers := ∅;
     settled := []; nextPromise := 0; uuidCount := 0; instances := [] |}.

(** ** State and exception monad *)

Inductive Res (A : Type) : Type :=
| Ok (a : A)
| Throw (e : string).
Arguments Ok {A} a.
Arguments Throw {A} e.

Definition M (A : Type) : Type := World -> Res A * World.

#[global] Instance M_ret : MRet M := fun A a w => (Ok a, w).

#[global] Instance M_bind : MBind M := fun A B k m w =>
  match m w with
  | (Ok a, w') => k a w'
  | (Throw e, w') => (Throw e, w')
  end.

Definition throw {A} (e : string) : M A := fun w => (Throw e, w).

(** [try { m } catch (error) { h error.message }] *)
Definition try_catch {A} (m : M A) (h : string -> M A) : M A := fun w =>
  match m w with
  | (Ok a, w') => (Ok a, w')
  | (Throw e, w') => h e w'
  end.

Definition gets {A} (f : World -> A) : M A := fun w => (Ok (f w), w).
Definition modify (f : World -> World) : M unit := fun w => (Ok tt, f w).

(** The world a computation leaves behind. *)
Definition exec {A} (m : M A) (w : World) : World := (m w).2.

Definition when (b : bool) (m : M unit) : M unit :=
  if b then m else mret tt.

Fixpoint forEach {A} (xs : list A) (f : A -> M unit) : M unit :=
  match xs with
  | [] => mret tt
  | x :: xs' => f x;; forEach xs' f
  end.

(** *** Window and promise primitives *)

(** [new Promise(...)]: allocates the promise whose resolving functions
    the executor receives. *)
Definition newPromise : M nat := fun w =>
  (Ok (nextPromise w), set_promises (S (nextPromise w)) (settled w) w).

(** A call [resolve(value)] of the resolving function of promise [p]. *)
Definition call_resolve (p : nat) (value : JsVal) : M unit :=
  modify (fun w => set_promises (nextPromise w) (settled w ++ [(p, value)]) w).

(** [Promise.resolve(value)] *)
Definition Promise_resolve (value : JsVal) : M nat :=
  p ← newPromise; call_resolve p value;; mret p.

(** [window.parent.postMessage(message, '*')] *)
Definition postMessage (message : JsVal) : M unit :=
  modify (fun w => set_posted (posted w ++ [message]) w).

(** [window.setTimeout(() => this.handleTimeout(messageId, cmd), delay)] *)
Definition setTimeout (this : nat) (messageId cmd : string) (delay : JsVal)
  : M Z := fun w =>
  (Ok (nextTimer w),
   set_timers (nextTimer w + 1)
     (<[nextTimer w :=
          {| timer_this := this; timer_messageId := messageId;
             timer_cmd := cmd; timer_delay := delay |}]> (timers w)) w).

(** [window.clearTimeout(id)] *)
Definition clearTimeout (id : Z) : M unit :=
  modify (fun w => set_timers (nextTimer w) (delete id (timers w)) w).

(** [this.messageCallbacks] and assignments to it. *)
Definition getCallbacks (this : nat) : M (list (string * Callback)) :=
  gets (fun w => messageCallbacks (instances w !!! this)).

Definition setCallbacks (this : nat) (cbs : list (string * Callback))
  : M unit :=
  modify (fun w =>
    set_instances
      (alter (fun i => {| defaultTimeout := defaultTimeout i;
                          messageCallbacks := cbs |}) this (instances w)) w).

(** ** The client *)

(** The [options] argument of [handleError]. *)
Record ErrorOptions := {
  opt_code : option Z;
  opt_message : option string;
  opt_data : JsVal
}.

Definition defaultMessages (code : Z) : option string :=
  if code =? ErrorCode.InvalidPayload then Some "Invalid request payload"
  else if code =? ErrorCode.MissingCertificate
       then Some "Certificate information is missing"
  else if code =? ErrorCode.InvalidCertificate
       then Some "Invalid certificate format"
  else if code =? ErrorCode.ExceededUploadSizeLimit
       then Some "File size exceeds the limit"
  else if code =? ErrorCode.TimeoutError then Some "Request timed out"
  else None.

(** [a || b] on optional strings *)
Definition or_string (a b : option string) : option string :=
  match a with
  | Some s => if String.eqb s "" then b else a
  | None => b
  end.

(** [handleError]: [errorMessage] is computed and then left out of the
    object that is returned. *)
Definition handleError (cmd : string) (messageId : JsVal)
    (options : ErrorOptions) : JsVal :=
  let code := default ErrorCode.InvalidPayload (opt_code options) in
  let message := opt_message options in
  let data := opt_data options in
  let errorMessage :=
    default "An error occurred" (or_string message (defaultMessages code)) in
  let errorResponse := [("code", VNum code); ("messageId", messageId)] in
  VObj (if truthy data then assign "data" data errorResponse
        else errorResponse).

Inductive SigCheck :=
| SigValid
| SigInvalid (errorCode : Z) (errorMessage : string).

(** [validateSigInfo] *)
Definition validateSigInfo (sigInfo : JsVal) (cmd : string)
    (messageId : JsVal) : SigCheck :=
  if negb (truthy sigInfo) then
    SigInvalid ErrorCode.MissingCertificate "Missing certificate information"
  else
    match get sigInfo "content", get sigInfo "signature" with
    | VStr content, VStr signature =>
        if blank content || blank signature
        then SigInvalid ErrorCode.InvalidCertificate
               "Invalid certificate format"
        else SigValid
    | _, _ =>
        SigInvalid ErrorCode.InvalidCertificate "Invalid certificate format"
    end.

(** [v.k] where [v] may be null or undefined *)
Definition member (v : JsVal) (k : string) : M JsVal :=
  if is_null v || is_undefined v
  then throw "Cannot read properties of null or undefined"
  else mret (get v k).

(** [k in v], for a truthy [v] and a name that is neither an index nor
    ["length"] *)
Definition has_in (k : string) (v : JsVal) : M bool :=
  match v with
  | VObj ps => mret (bool_decide (is_Some (assoc k ps)) || inherited k)
  | VArr _ => mret false
  | _ => throw "Cannot use 'in' operator to search for a key in a primitive"
  end.

(** type CommandParamType *)
Inductive CommandParamType :=
| callbackOnly
| payloadOnly      (* "payload" *)
| signOnly
| payloadAndSign.

(** interface CommandConfig; a handler takes its arguments as JavaScript
    does, missing ones being undefined. *)
Record CommandConfig := {
  type : CommandParamType;
  handler : list JsVal -> M nat
}.

Definition arg (n : nat) (args : list JsVal) : JsVal :=
  default VUndef (args !! n).

Definition setTimeoutId (id : Z) (cb : Callback) : Callback :=
  {| resolve := resolve cb; reject := reject cb; timeoutId := Some id |}.

(** [o[k].timeoutId = id] for a present entry *)
Fixpoint assign_timeoutId (k : string) (id : Z)
    (ps : list (string * Callback)) : list (string * Callback) :=
  match ps with
  | [] => []
  | (k', cb) :: ps' =>
      if String.eqb k k' then (k', setTimeoutId id cb) :: ps'
      else (k', cb) :: assign_timeoutId k id ps'
  end.

Section RelayXClient.
(** [randomUUID n] is the [n]-th identifier that [crypto.randomUUID], or
    the [Math.random] fallback, hands out. *)
Variable randomUUID : nat -> string.

Definition generateUniqueMessageId : M string := fun w =>
  (Ok (randomUUID (uuidCount w)), set_uuidCount (S (uuidCount w)) w).

(** [if (callback.timeoutId) window.clearTimeout(callback.timeoutId)] *)
Definition clearCallbackTimeout (callback : Callback) : M unit :=
  match timeoutId callback with
  | Some id => when (truthy (VNum id)) (clearTimeout id)
  | None => mret tt
  end.

Definition cleanupCallback (this : nat) (messageId : string) : M unit :=
  cbs ← getCallbacks this;
  if String.eqb messageId "" then mret tt
  else match js_lookup cbs messageId with
       | Missing => mret tt
       | Inherited =>
           (* an inherited member has no timeoutId, and delete finds no
              own property *)
           mret tt
       | Own callback =>
           clearCallbackTimeout callback;;
           setCallbacks this (remove messageId cbs)
       end.

Definition handleTimeout (this : nat) (messageId cmd : string) : M unit :=
  cbs ← getCallbacks this;
  match js_lookup cbs messageId with
  | Own callback =>
      call_resolve (resolve callback)
        (handleError cmd (VStr messageId)
           {| opt_code := Some ErrorCode.TimeoutError;
              opt_message := Some "Request timed out";
              opt_data := VUndef |});;
      cleanupCallback this messageId
  | Inherited => throw "callback.resolve is not a function"
  | Missing => mret tt
  end.

Definition is_fire_and_forget (cmd : string) : bool :=
  String.eqb cmd "openURL" || String.eqb cmd "scanQRCode".

(** [_sendMessage]; [timeoutMs] is [None] when the argument is left out.
    The entry whose [timeoutId] is set is the one assigned two lines
    before. *)
Definition _sendMessage (this : nat) (cmd : string) (payload : JsVal)
    (timeoutMs : option JsVal) : M nat :=
  timeoutMs ← match timeoutMs with
              | Some t => mret t
              | None => gets (fun w => defaultTimeout (instances w !!! this))
              end;
  p ← newPromise;
  messageId ← generateUniqueMessageId;
  let message :=
    VObj (spread [("cmd", VStr cmd); ("messageId", VStr messageId)]
                 payload) in
  hasParent ← gets parent;
  (if (hasParent : bool) then
     postMessage message;;
     cbs ← getCallbacks this;
     setCallbacks this
       (assign messageId
          {| resolve := p; reject := p; timeoutId := None |} cbs);;
     when (negb (is_fire_and_forget cmd))
       (timeoutId ← setTimeout this messageId cmd timeoutMs;
        cbs ← getCallbacks this;
        setCallbacks this (assign_timeoutId messageId timeoutId cbs))
   else
     cleanupCallback this messageId;;
     call_resolve p
       (handleError cmd (VStr messageId)
          {| opt_code := None;
             opt_message :=
               Some ("Unable to send message to parent window. "
                     +:+ "Parent window not found.");
             opt_data := VUndef |}));;
  mret p.

(** [payload?.messageId || this.generateUniqueMessageId()] *)
Definition messageId_of (payload : JsVal) : M JsVal :=
  let supplied := get payload "messageId" in
  if truthy supplied then mret supplied
  else id ← generateUniqueMessageId; mret (VStr id).

Definition reject_with (cmd : string) (messageId : JsVal) (code : Z)
    (message : string) : M nat :=
  Promise_resolve
    (handleError cmd messageId
       {| opt_code := Some code; opt_message := Some message;
          opt_data := VUndef |}).

Definition invalid (cmd : string) (messageId : JsVal) (message : string)
  : M nat :=
  reject_with cmd messageId ErrorCode.InvalidPayload message.

(** *** Command handlers *)

Definition connectCocoPay (this : nat) (payload : JsVal) : M nat :=
  messageId ← messageId_of payload;
  if negb (truthy payload)
     || negb (isArray (get payload "chainList"))
     || (negb (is_undefined (get payload "walletSupports"))
         && negb (isArray (get payload "walletSupports")))
  then invalid "connectCocoPay" messageId "Invalid payload for connectCocoPay"
  else _sendMessage this "connectCocoPay" (VObj [("data", payload)]) None.

Definition getSafeAreaInsets (this : nat) : M nat :=
  _sendMessage this "getSafeAreaInsets" (VObj [("data", VObj [])]) None.

Definition getLanguage (this : nat) : M nat :=
  _sendMessage this "getLanguage" (VObj [("data", VObj [])]) None.

Definition valid_url (url : JsVal) : bool :=
  match url with
  | VStr u => startsWith u "https://"
              && (String.length u <=? 200)%nat
              && negb (blank u)
  | _ => false
  end.

Definition openURL (this : nat) (payload : JsVal) : M nat :=
  messageId ← messageId_of payload;
  if negb (truthy payload)
     || negb (valid_url (get payload "url"))
     || (negb (is_undefined (get payload "useSystemOpen"))
         && negb (is_boolean (get payload "useSystemOpen")))
  then invalid "openURL" messageId "Invalid URL provided"
  else _sendMessage this "openURL" (VObj [("data", payload)]) None.

Definition scanQRCode (this : nat) : M nat :=
  _sendMessage this "scanQRCode" (VObj [("data", VObj [])]) None.

(** [typeof v !== 'string' || !v.trim()] *)
Definition not_text (v : JsVal) : bool :=
  match v with
  | VStr s => blank s
  | _ => true
  end.

Definition copyToClipboard (this : nat) (payload : JsVal) : M nat :=
  messageId ← messageId_of payload;
  if negb (truthy payload) || not_text (get payload "text")
  then invalid "copyToClipboard" messageId "Invalid text for clipboard"
  else _sendMessage this "copyToClipboard" (VObj [("data", payload)]) None.

Definition maxSizeInBytes : Z := 1 * 1024 * 1024.

(** [saveImage]; the [try] block either returns a rejection or falls
    through to the send. *)
Definition saveImage (this : nat) (payload : JsVal) : M nat :=
  messageId ← messageId_of payload;
  match get payload "image" with
  | VStr image =>
      if negb (truthy payload) || blank image
         || negb (startsWith image "data:image/")
      then invalid "saveImage" messageId "Invalid image data"
      else
        early ← try_catch
          (let imageSize := getBase64ImageSize image in
           if maxSizeInBytes <? bytes imageSize
           then p ← reject_with "saveImage" messageId
                      ErrorCode.ExceededUploadSizeLimit
                      "Image size exceeds limit";
                mret (Some p)
           else mret None)
          (fun e =>
             p ← invalid "saveImage" messageId
                   "Failed to process image data";
             mret (Some p));
        match early : option nat with
        | Some p => mret p
        | None => _sendMessage this "saveImage" (VObj [("data", payload)])
                    None
        end
  | _ => invalid "saveImage" messageId "Invalid image data"
  end.

Definition getAccount (this : nat) (payload : JsVal) : M nat :=
  messageId ← messageId_of payload;
  bad ← (if truthy payload then
           has_type ← has_in "type" payload;
           mret ((has_type : bool)
                 && match get payload "type" with
                    | VStr t => negb (String.eqb t "1")
                    | _ => true
                    end)
         else mret false);
  if (bad : bool)
  then invalid "getAccount" messageId "Invalid account type"
  else _sendMessage this "getAccount"
         (VObj [("data", if truthy payload then payload else VObj [])])
         None.

Definition setExtendedData (this : nat) (payload : JsVal) : M nat :=
  messageId ← messageId_of payload;
  bad ← (if negb (truthy payload) then mret true
         else
           has_extend ← has_in "extend" payload;
           let extend := get payload "extend" in
           mret (negb (has_extend : bool)
                 || is_null extend
                 || isArray extend
                 || (negb (is_object extend) && negb (is_string extend))));
  if (bad : bool)
  then invalid "setExtendedData" messageId "Invalid extended data format"
  else _sendMessage this "setExtendedData" (VObj [("data", payload)]) None.

Definition getExtendedData (this : nat) : M nat :=
  _sendMessage this "getExtendedData" (VObj [("data", VObj [])]) None.

Definition generateSignature (this : nat) (payload : JsVal) : M nat :=
  messageId ← messageId_of payload;
  if negb (truthy payload) || not_text (get payload "message")
  then invalid "generateSignature" messageId "Invalid message for signature"
  else _sendMessage this "generateSignature" (VObj [("data", payload)]) None.

Definition verifySignature (this : nat) (payload : JsVal) : M nat :=
  messageId ← messageId_of payload;
  if negb (truthy payload)
     || negb (is_string (get payload "message"))
     || negb (is_string (get payload "signature"))
     || not_text (get payload "message")
     || not_text (get payload "signature")
  then invalid "verifySignature" messageId "Invalid signature data"
  else _sendMessage this "verifySignature" (VObj [("data", payload)]) None.

Definition encrypt (this : nat) (payload : JsVal) : M nat :=
  messageId ← messageId_of payload;
  if negb (truthy payload) || not_text (get payload "message")
  then invalid "encrypt" messageId "Invalid message for encryption"
  else _sendMessage this "encrypt" (VObj [("data", payload)]) None.

Definition decrypt (this : nat) (payload : JsVal) : M nat :=
  messageId ← messageId_of payload;
  if negb (truthy payload) || not_text (get payload "content")
  then invalid "decrypt" messageId "Invalid content for decryption"
  else _sendMessage this "decrypt" (VObj [("data", payload)]) None.

(** The part the three signed commands share: check the certificate,
    then send. *)
Definition send_signed (this : nat) (cmd : string) (messageId : JsVal)
    (data sigInfo : JsVal) : M nat :=
  match validateSigInfo sigInfo cmd messageId with
  | SigInvalid errorCode errorMessage =>
      reject_with cmd messageId errorCode
        (default "Invalid signature info"
           (or_string (Some errorMessage) None))
  | SigValid =>
      _sendMessage this cmd (VObj [("data", data); ("sign", sigInfo)]) None
  end.

Definition registerService (this : nat) (payload sigInfo : JsVal) : M nat :=
  messageId ← messageId_of payload;
  if negb (truthy payload) || not_text (get payload "serviceKey")
  then invalid "registerService" messageId "Invalid service key"
  else send_signed this "registerService" messageId payload sigInfo.

Definition checkServiceStatus (this : nat) (sigInfo : JsVal) : M nat :=
  messageId ← messageId_of sigInfo;
  send_signed this "checkServiceStatus" messageId (VObj []) sigInfo.

Definition valid_service_type (t : JsVal) : bool :=
  match t with
  | VStr s => negb (String.eqb (trim s) "") && String.eqb s "HTTP"
  | _ => false
  end.

Definition sendServiceMessage (this : nat) (payload sigInfo : JsVal)
  : M nat :=
  messageId ← messageId_of payload;
  if negb (truthy payload)
     || negb (is_object (get payload "content"))
     || isArray (get payload "content")
     || negb (valid_service_type (get payload "type"))
  then invalid "sendServiceMessage" messageId "Invalid service message format"
  else send_signed this "sendServiceMessage" messageId payload sigInfo.

(** *** Dispatch *)

(** [this.commandMap], built by the constructor with every handler bound
    to [this]. *)
Definition commandMap (this : nat) : list (string * CommandConfig) :=
  let on0 (h : nat -> M nat) : list JsVal -> M nat := fun _ => h this in
  let on1 (h : nat -> JsVal -> M nat) : list JsVal -> M nat :=
    fun args => h this (arg 0 args) in
  let on2 (h : nat -> JsVal -> JsVal -> M nat) : list JsVal -> M nat :=
    fun args => h this (arg 0 args) (arg 1 args) in
  [ ("connectCocoPay",
      {| type := payloadOnly; handler := on1 connectCocoPay |});
    ("getSafeAreaInsets",
      {| type := callbackOnly; handler := on0 getSafeAreaInsets |});
    ("getLanguage", {| type := callbackOnly; handler := on0 getLanguage |});
    ("openURL", {| type := payloadOnly; handler := on1 openURL |});
    ("scanQRCode", {| type := callbackOnly; handler := on0 scanQRCode |});
    ("copyToClipboard",
      {| type := payloadOnly; handler := on1 copyToClipboard |});
    ("saveImage", {| type := payloadOnly; handler := on1 saveImage |});
    ("getAccount", {| type := payloadOnly; handler := on1 getAccount |});
    ("setExtendedData",
      {| type := payloadOnly; handler := on1 setExtendedData |});
    ("getExtendedData",
      {| type := callbackOnly; handler := on0 getExtendedData |});
    ("generateSignature",
      {| type := payloadOnly; handler := on1 generateSignature |});
    ("verifySignature",
      {| type := payloadOnly; handler := on1 verifySignature |});
    ("encrypt", {| type := payloadOnly; handler := on1 encrypt |});
    ("decrypt", {| type := payloadOnly; handler := on1 decrypt |});
    ("registerService",
      {| type := payloadAndSign; handler := on2 registerService |});
    ("checkServiceStatus",
      {| type := signOnly; handler := on1 checkServiceStatus |});
    ("sendServiceMessage",
      {| type := payloadAndSign; handler := on2 sendServiceMessage |}) ].

(** [sendMessage]; an omitted payload is [VUndef].  Every entry of the
    table has one of the four valid types, so the [validTypes] guard and
    the [default] case only serve a [commandHandler] inherited from
    [Object.prototype], whose [type] is undefined. *)
Definition sendMessage (this : nat) (cmd : string) (payload : JsVal)
  : M nat :=
  let payload := if is_undefined payload then VObj [] else payload in
  match js_lookup (commandMap this) cmd with
  | Missing => _sendMessage this cmd payload None
  | Inherited =>
      messageId ← messageId_of payload;
      _sendMessage this cmd payload None
  | Own commandHandler =>
      messageId ← messageId_of payload;
      try_catch
        (match type commandHandler with
         | callbackOnly => handler commandHandler []
         | payloadOnly => handler commandHandler [payload]
         | payloadAndSign =>
             data ← member payload "data";
             sign ← member payload "sign";
             handler commandHandler [data; sign]
         | signOnly =>
             sign ← member payload "sign";
             handler commandHandler [sign]
         end)
        (fun error =>
           Promise_resolve
             (handleError cmd messageId
                {| opt_code := Some ErrorCode.methodNotFound;
                   opt_message := Some error;
                   opt_data := VUndef |}))
  end.

(** *** Inbound replies and teardown *)

(** [messageHandler], given [event.data] *)
Definition messageHandler (this : nat) (result : JsVal) : M unit :=
  if truthy result && is_object result then
    match get result "messageId" with
    | VStr messageId =>
        cbs ← getCallbacks this;
        match js_lookup cbs messageId with
        | Own callback =>
            cleanupCallback this messageId;;
            call_resolve (resolve callback) result
        | Inherited =>
            cleanupCallback this messageId;;
            throw "callback.resolve is not a function"
        | Missing => mret tt
        end
    | _ => mret tt
    end
  else mret tt.

(** [window.addEventListener("message", fn)] and its inverse, for the
    handler bound to instance [fn]. *)
Definition addEventListener (fn : nat) : M unit :=
  modify (fun w => set_listeners (listeners w ++ [fn]) w).

Definition removeEventListener (fn : nat) : M unit :=
  modify (fun w =>
    set_listeners (filter (fun l => l ≠ fn) (listeners w)) w).

(** [new RelayXClient(config)]; an omitted [config] is [VUndef].  The
    result is the new instance. *)
Definition constructor (config : JsVal) : M nat :=
  let config := if is_undefined config then VObj [] else config in
  timeout ← member config "timeout";
  this ← gets (fun w => length (instances w));
  modify (fun w =>
    set_instances
      (instances w ++
         [{| defaultTimeout :=
               if truthy timeout then timeout else VNum 30000;
             messageCallbacks := [] |}]) w);;
  modify (fun w => set_statics (instanceCount w + 1) (listenerFn w) w);;
  fn ← gets listenerFn;
  match fn : option nat with
  | None =>
      modify (fun w => set_statics (instanceCount w) (Some this) w);;
      addEventListener this
  | Some _ => mret tt
  end;;
  mret this.

Definition destroy (this : nat) : M unit :=
  modify (fun w => set_statics (instanceCount w - 1) (listenerFn w) w);;
  count ← gets instanceCount;
  fn ← gets listenerFn;
  match fn : option nat with
  | Some fn =>
      when (count =? 0)
        (removeEventListener fn;;
         modify (fun w => set_statics (instanceCount w) None w))
  | None => mret tt
  end;;
  cbs ← getCallbacks this;
  forEach (keys cbs) (fun messageId =>
    cbs ← getCallbacks this;
    match js_lookup cbs messageId with
    | Own callback =>
        call_resolve (resolve callback)
          (handleError "" (VStr messageId)
             {| opt_code := Some ErrorCode.TimeoutError;
                opt_message := Some "Connection destroyed";
                opt_data := VUndef |});;
        clearCallbackTimeout callback
    | Inherited => throw "callback.resolve is not a function"
    | Missing => mret tt
    end);;
  setCallbacks this [].

(** ** The page as an event loop *)

Inductive Event :=
| New (config : JsVal)                       (* new RelayXClient(config) *)
| Send (this : nat) (cmd : string) (payload : JsVal)
                                             (* this.sendMessage(...) *)
| Destroy (this : nat)                       (* this.destroy() *)
| Message (data : JsVal)                     (* a "message" event *)
| Fire (id : Z).                             (* timer [id] expires *)

(** A "message" event runs every installed listener; an exception in one
    is reported and does not stop the others. *)
Definition dispatchMessage (data : JsVal) (w : World) : World :=
  fold_left (fun w fn => exec (messageHandler fn data) w) (listeners w) w.

(** An expiring timer leaves the timer table and runs its callback. *)
Definition fireTimer (id : Z) (w : World) : World :=
  match timers w !! id with
  | Some t =>
      exec (handleTimeout (timer_this t) (timer_messageId t) (timer_cmd t))
        (set_timers (nextTimer w) (delete id (timers w)) w)
  | None => w
  end.

(** Method calls on an instance that was never constructed do not
    occur. *)
Definition step (w : World) (e : Event) : World :=
  match e with
  | New config => exec (constructor config) w
  | Send this cmd payload =>
      if bool_decide (this < length (instances w))%nat
      then exec (sendMessage this cmd payload) w else w
  | Destroy this =>
      if bool_decide (this < length (instances w))%nat
      then exec (destroy this) w else w
  | Message data => dispatchMessage data w
  | Fire id => fireTimer id w
  end.

Definition run (w : World) (es : list Event) : World := fold_left step es w.

End RelayXClient.


(** * Reference notions *)

(** ** Base64 as the size routine is meant to measure it *)

Definition base64_alphabet : string :=
  "ABCDEFGHIJKLMNOPQRSTUVWXYZabcdefghijklmnopqrstuvwxyz0123456789+/".

Definition sextet (n : nat) : ascii :=
  default "A"%char (String.get (n mod 64) base64_alphabet).

(** RFC 4648 encoding of a sequence of raw bytes, with padding. *)
Fixpoint base64_encode (raw : list ascii) : string :=
  match raw with
  | [] => EmptyString
  | [a] =>
      let a := nat_of_ascii a in
      String (sextet (a / 4)) (String (sextet (a mod 4 * 16)) "==")
  | [a; b] =>
      let a := nat_of_ascii a in
      let b := nat_of_ascii b in
      String (sextet (a / 4))
        (String (sextet (a mod 4 * 16 + b / 16))
           (String (sextet (b mod 16 * 4)) "="))
  | a :: b :: c :: rest =>
      let a := nat_of_ascii a in
      let b := nat_of_ascii b in
      let c := nat_of_ascii c in
      String (sextet (a / 4))
        (String (sextet (a mod 4 * 16 + b / 16))
           (String (sextet (b mod 16 * 4 + c / 64))
              (String (sextet (c mod 64)) (base64_encode rest))))
  end%nat.

(** What follows the first comma of [s], if there is a comma. *)
Fixpoint after_first_comma (s : string) : option string :=
  match s with
  | EmptyString => None
  | String c s' => if Ascii.eqb c ","%char then Some s'
                   else after_first_comma s'
  end.

(** [s] without a data-URI prefix up to and including the first comma. *)
Definition strip_data_uri_prefix (s : string) : string :=
  default s (after_first_comma s).

Fixpoint count_commas (s : string) : nat :=
  match s with
  | EmptyString => 0
  | String c s' =>
      ((if Ascii.eqb c ","%char then 1 else 0) + count_commas s')%nat
  end.

(** The number of ['='] characters that end [s]. *)
Fixpoint leading_eq_signs (cs : list ascii) : nat :=
  match cs with
  | c :: cs' => if Ascii.eqb c "="%char then S (leading_eq_signs cs') else 0
  | [] => 0
  end.

Definition trailingPaddingCharCount (s : string) : nat :=
  leading_eq_signs (rev (list_ascii_of_string s)).

(** The size as the specification words it:
    floor(len(stripped) * 3/4 - trailingPaddingCharCount). *)
Definition spec_base64_size (s : string) : Z :=
  let stripped := strip_spaces (strip_data_uri_prefix s) in
  Qfloor (inject_Z (Z.of_nat (String.length stripped)) * 3 / 4
          - inject_Z (Z.of_nat (trailingPaddingCharCount stripped))).

(** ** A concrete identifier source

    Pairwise distinct identifiers in UUID layout, to run the model on. *)
Definition uuid (n : nat) : string := "00000000-0000-4000-8000-" +:+ pretty n.

(** ** Shapes of responses *)

(** The object [handleError] returns when it is given no [data]. *)
Definition errorResponse (code : Z) (messageId : JsVal) : JsVal :=
  VObj [("code", VNum code); ("messageId", messageId)].

(** ** Views of the world *)

(** [this.messageCallbacks] in world [w]. *)
Definition registry (w : World) (this : nat) : list (string * Callback) :=
  messageCallbacks (instances w !!! this).

(** The worlds the window and promise primitives lead to. *)
Definition set_registry (this : nat) (cbs : list (string * Callback))
    (w : World) : World := exec (setCallbacks this cbs) w.
Definition promised (w : World) : World := exec newPromise w.
Definition resolved (p : nat) (value : JsVal) (w : World) : World :=
  exec (call_resolve p value) w.
Definition posting (message : JsVal) (w : World) : World :=
  exec (postMessage message) w.
Definition armed (this : nat) (messageId cmd : string) (delay : JsVal)
    (w : World) : World := exec (setTimeout this messageId cmd delay) w.
Definition cleared (id : Z) (w : World) : World := exec (clearTimeout id) w.
Definition minted (w : World) : World :=
  set_uuidCount (S (uuidCount w)) w.

(** The world after [if (callback.timeoutId) clearTimeout(...)]. *)
Definition uncalled (callback : Callback) (w : World) : World :=
  exec (clearCallbackTimeout callback) w.

(** An identifier that can key the registry like any data property: not
    empty and not the name of an inherited member. *)
Definition valid_id (k : string) : bool :=
  negb (String.eqb k "") && negb (inherited k).

(** How often the resolve function of promise [p] has been called. *)
Definition calls (p : nat) (w : World) : nat :=
  length (filter (λ s, s.1 = p) (settled w)).

(** The invariant of the worlds the page can reach. *)
Record wf (w : World) : Prop := {
  wf_nextTimer : 0 < nextTimer w;
  wf_settled : ∀ p, p ∈ (fst <$> settled w) → (p < nextPromise w)%nat;
  wf_once : NoDup (fst <$> settled w);
  wf_keys : ∀ i, NoDup (keys (registry w i));
  wf_entry : ∀ i k cb,
    assoc k (registry w i) = Some cb →
    valid_id k = true
    ∧ (resolve cb < nextPromise w)%nat
    ∧ (resolve cb ∉ fst <$> settled w)
    ∧ (∀ id, timeoutId cb = Some id → 0 < id);
  wf_distinct : ∀ i j k k' cb cb',
    assoc k (registry w i) = Some cb →
    assoc k' (registry w j) = Some cb' →
    resolve cb = resolve cb' → i = j ∧ k = k'
}.

(** The registry of instance [this] in a list of instances. *)
Definition reg (insts : list Instance) (this : nat)
  : list (string * Callback) := messageCallbacks (insts !!! this).

(** The world after [cleanupCallback]. *)
Definition cleaned (this : nat) (messageId : string) (w : World) : World :=
  exec (cleanupCallback this messageId) w.

(** The response every call pending at teardown is settled with. *)
Definition destroyedResponse (messageId : string) : JsVal :=
  errorResponse ErrorCode.TimeoutError (VStr messageId).

(** The world after the loop of [destroy] has gone through [cbs]. *)
Fixpoint torn_down (cbs : list (string * Callback)) (w : World) : World :=
  match cbs with
  | [] => w
  | (k, cb) :: cbs' =>
      torn_down cbs' (uncalled cb (resolved (resolve cb) (destroyedResponse k) w))
  end.

(** The world after the first part of [destroy]: one instance fewer, and
    the listener removed when the count reaches zero. *)
Definition released (w : World) : World :=
  let count := instanceCount w - 1 in
  match listenerFn w with
  | Some fn =>
      if count =? 0
      then set_statics count None
             (set_listeners (filter (λ l, l ≠ fn) (listeners w)) w)
      else set_statics count (Some fn) w
  | None => set_statics count None w
  end.

(** The world after [destroy]. *)
Definition destroyed (this : nat) (w : World) : World :=
  exec (destroy this) w.

(** The message [_sendMessage] builds. *)
Definition outgoing (cmd messageId : string) (payload : JsVal) : JsVal :=
  VObj (spread [("cmd", VStr cmd); ("messageId", VStr messageId)] payload).

(** The response of [_sendMessage] when there is no parent window. *)
Definition unreachableResponse (messageId : string) : JsVal :=
  errorResponse ErrorCode.InvalidPayload (VStr messageId).

(** The entry [_sendMessage] registers for promise [p]. *)
Definition pendingCall (p : nat) (timeoutId : option Z) : Callback :=
  {| resolve := p; reject := p; timeoutId := timeoutId |}.

(** ** What a dispatch can come to *)

(** What the handlers pass to [_sendMessage]: the validated input under
    [data], with the certificate under [sign] for the signed commands. *)
Definition envelope (data : JsVal) (sign : option JsVal) : JsVal :=
  VObj (("data", data) ::
        match sign with Some s => [("sign", s)] | None => [] end).

Definition enveloped (payload : JsVal) : Prop :=
  ∃ data sign, payload = envelope data sign.

(** The result of a handler started in [w]: having at most generated
    identifiers, it answers at once with an error response, throws, or
    hands a payload that satisfies [P] to [_sendMessage]. *)
Inductive Outcome (randomUUID : nat → string) (P : JsVal → Prop)
    (this : nat) (cmd : string) (w : World) : Res nat * World → Prop :=
| Answered n code messageId :
    (uuidCount w ≤ n)%nat →
    Outcome randomUUID P this cmd w
      (Promise_resolve (errorResponse code messageId) (set_uuidCount n w))
| Thrown n e :
    (uuidCount w ≤ n)%nat →
    Outcome randomUUID P this cmd w (Throw e, set_uuidCount n w)
| Forwarded n payload :
    (uuidCount w ≤ n)%nat →
    P payload →
    Outcome randomUUID P this cmd w
      (_sendMessage randomUUID this cmd payload None (set_uuidCount n w)).

(** The [catch] clause of [sendMessage]. *)
Definition caught (cmd : string) (messageId : JsVal) (error : string)
  : M nat :=
  Promise_resolve
    (handleError cmd messageId
       {| opt_code := Some ErrorCode.methodNotFound;
          opt_message := Some error;
          opt_data := VUndef |}).

(** The payload [sendMessage] works on: an omitted one is [{}]. *)
Definition given (payload : JsVal) : JsVal :=
  if is_undefined payload then VObj [] else payload.

(** A call that returns a promise. *)
Definition returns (r : Res nat * World) : Prop := ∃ p w', r = (Ok p, w').

(** One world follows another in the life of a page: the invariant holds
    and no call of a resolve function is forgotten. *)
Definition evolves (w w' : World) : Prop :=
  wf w' ∧ settled w `prefix_of` settled w'.

(** ** Settlement *)

(** The three ways the call registered under [messageId] in instance
    [this] can be settled: a reply carrying the identifier reaches the
    instance's handler, its timer expires, or the instance is destroyed. *)
Inductive settlement (this : nat) (messageId : string) (w : World)
  : World → Prop :=
| by_reply reply :
    get reply "messageId" = VStr messageId →
    settlement this messageId w (exec (messageHandler this reply) w)
| by_timeout cmd :
    settlement this messageId w (exec (handleTimeout this messageId cmd) w)
| by_teardown :
    settlement this messageId w (exec (destroy this) w).

(** ** Instances and the shared listener *)

(** How many instances have been constructed, and which of them have not
    been destroyed. *)
Record Census := { constructed : nat; live : list nat }.

(** A constructor call with a null configuration throws before anything
    is counted. *)
Definition census_step (c : Census) (e : Event) : Census :=
  match e with
  | New config =>
      if is_null config then c
      else {| constructed := S (constructed c);
              live := live c ++ [constructed c] |}
  | Destroy this =>
      {| constructed := constructed c;
         live := filter (λ i, i ≠ this) (live c) |}
  | _ => c
  end.

Definition census_from (c : Census) (es : list Event) : Census :=
  fold_left census_step es c.

Definition census (es : list Event) : Census :=
  census_from {| constructed := 0; live := [] |} es.

(** [destroy] is only called on an instance that is live. *)
Fixpoint disciplined_from (c : Census) (es : list Event) : bool :=
  match es with
  | [] => true
  | e :: es' =>
      match e with
      | Destroy this => bool_decide (this ∈ live c)
      | _ => true
      end && disciplined_from (census_step c e) es'
  end.

Definition disciplined (es : list Event) : bool :=
  disciplined_from {| constructed := 0; live := [] |} es.

(** Constructor calls that succeed, and [destroy] calls. *)
Fixpoint constructions (es : list Event) : nat :=
  match es with
  | [] => 0
  | New config :: es' =>
      ((if is_null config then 0 else 1) + constructions es')%nat
  | _ :: es' => constructions es'
  end.

Fixpoint destructions (es : list Event) : nat :=
  match es with
  | [] => 0
  | Destroy _ :: es' => S (destructions es')
  | _ :: es' => destructions es'
  end.

(** The window has a "message" listener of the class. *)
Definition installed (w : World) : Prop := listeners w ≠ [].

(** Nothing of the instance bookkeeping or configuration has changed. *)
Definition same_page (w w' : World) : Prop :=
  instanceCount w' = instanceCount w
  ∧ listenerFn w' = listenerFn w
  ∧ listeners w' = listeners w
  ∧ length (instances w') = length (instances w)
  ∧ parent w' = parent w
  ∧ ∀ i, defaultTimeout (instances w' !!! i)
         = defaultTimeout (instances w !!! i).

(** The bookkeeping of the class agrees with a census of its instances:
    the counter is the number of live instances, and the window holds
    exactly the handler in [listenerFn], which is set as long as an
    instance is live. *)
Definition counted (w : World) (c : Census) : Prop :=
  length (instances w) = constructed c
  ∧ instanceCount w = Z.of_nat (length (live c))
  ∧ NoDup (live c)
  ∧ (∀ i, i ∈ live c → (i < constructed c)%nat)
  ∧ listeners w = match listenerFn w with Some fn => [fn] | None => [] end
  ∧ (listenerFn w = None ↔ live c = []).

(** ** What a page can add

    From [w] to [w'] identifiers and promises are only added; a timer of
    [w'] is a timer of [w] or carries an identifier generated since, and
    an entry of [w'] continues an entry of [w] or waits on a promise
    created since. *)
Definition grows (randomUUID : nat → string) (w w' : World) : Prop :=
  (uuidCount w ≤ uuidCount w')%nat
  ∧ (nextPromise w ≤ nextPromise w')%nat
  ∧ (∀ id t, timers w' !! id = Some t →
       timers w !! id = Some t
       ∨ ∃ n, (uuidCount w ≤ n < uuidCount w')%nat
              ∧ timer_messageId t = randomUUID n)
  ∧ (∀ i k cb, assoc k (registry w' i) = Some cb →
       (∃ cb0, assoc k (registry w i) = Some cb0
               ∧ resolve cb0 = resolve cb)
       ∨ (nextPromise w ≤ resolve cb)%nat).

(** The instances of [w] are instances of [w'] with the configuration they
    were constructed with, and the parent window is what it was. *)
Definition keeps (w w' : World) : Prop :=
  parent w' = parent w
  ∧ (length (instances w) ≤ length (instances w'))%nat
  ∧ ∀ i, (i < length (instances w))%nat →
         defaultTimeout (instances w' !!! i)
         = defaultTimeout (instances w !!! i).

(** The timeout a configuration asks for: [config.timeout || 30000]. *)
Definition configuredTimeout (config : JsVal) : JsVal :=
  if truthy (get (given config) "timeout")
  then get (given config) "timeout" else VNum 30000.

(** The timer [_sendMessage] arms. *)
Definition timeoutTimer (this : nat) (messageId cmd : string) (delay : JsVal)
  : Timer :=
  {| timer_this := this; timer_messageId := messageId; timer_cmd := cmd;
     timer_delay := delay |}.

(** ** Further notions *)

(** The window holds exactly the handler the class remembers. *)
Definition paired (w : World) : Prop :=
  listeners w = match listenerFn w with Some fn => [fn] | None => [] end.

(** A page that has nothing pending: no entry, no timer, no message
    posted. *)
Definition idle (w : World) : Prop :=
  (∀ i, registry w i = []) ∧ timers w = ∅ ∧ posted w = [].

(** The protocol fields and the envelope as they go on the wire. *)
Definition wireMessage (cmd messageId : string) (data : JsVal)
    (sign : option JsVal) : JsVal :=
  VObj (("cmd", VStr cmd) :: ("messageId", VStr messageId) ::
        ("data", data) ::
        match sign with Some s => [("sign", s)] | None => [] end).

(** The pending calls of a registry as [destroy] answers them. *)
Definition teardownResponses (cbs : list (string * Callback))
  : list (nat * JsVal) :=
  (λ kc, (resolve kc.2, destroyedResponse kc.1)) <$> cbs.

(** ** What the host receives

    The input a command of the table lets through: [data] is what goes
    under [data] in the posted message and [sign] what goes under
    [sign]. *)

(** A string with something other than white space in it. *)
Definition text (v : JsVal) : Prop := ∃ s, v = VStr s ∧ blank s = false.

Definition certificate (sign : JsVal) : Prop :=
  text (get sign "content") ∧ text (get sign "signature").

Inductive Accepted : string → JsVal → option JsVal → Prop :=
| accept_connectCocoPay data :
    truthy data = true →
    isArray (get data "chainList") = true →
    is_undefined (get data "walletSupports")
    || isArray (get data "walletSupports") = true →
    Accepted "connectCocoPay" data None
| accept_getSafeAreaInsets : Accepted "getSafeAreaInsets" (VObj []) None
| accept_getLanguage : Accepted "getLanguage" (VObj []) None
| accept_openURL data url :
    get data "url" = VStr url →
    startsWith url "https://" = true →
    (String.length url ≤ 200)%nat →
    is_undefined (get data "useSystemOpen")
    || is_boolean (get data "useSystemOpen") = true →
    Accepted "openURL" data None
| accept_scanQRCode : Accepted "scanQRCode" (VObj []) None
| accept_copyToClipboard data :
    text (get data "text") → Accepted "copyToClipboard" data None
| accept_saveImage data image :
    get data "image" = VStr image →
    startsWith image "data:image/" = true →
    bytes (getBase64ImageSize image) ≤ 1048576 →
    Accepted "saveImage" data None
| accept_getAccount props :
    assoc "type" props = None ∨ assoc "type" props = Some (VStr "1") →
    Accepted "getAccount" (VObj props) None
| accept_getAccount_array items : Accepted "getAccount" (VArr items) None
| accept_setExtendedData data :
    is_string (get data "extend") = true
    ∨ (is_object (get data "extend") = true
       ∧ is_null (get data "extend") = false
       ∧ isArray (get data "extend") = false) →
    Accepted "setExtendedData" data None
| accept_getExtendedData : Accepted "getExtendedData" (VObj []) None
| accept_generateSignature data :
    text (get data "message") → Accepted "generateSignature" data None
| accept_verifySignature data :
    text (get data "message") → text (get data "signature") →
    Accepted "verifySignature" data None
| accept_encrypt data :
    text (get data "message") → Accepted "encrypt" data None
| accept_decrypt data :
    text (get data "content") → Accepted "decrypt" data None
| accept_registerService data sign :
    text (get data "serviceKey") → certificate sign →
    Accepted "registerService" data (Some sign)
| accept_checkServiceStatus sign :
    certificate sign → Accepted "checkServiceStatus" (VObj []) (Some sign)
| accept_sendServiceMessage data sign :
    is_object (get data "content") = true →
    isArray (get data "content") = false →
    get data "type" = VStr "HTTP" →
    certificate sign →
    Accepted "sendServiceMessage" data (Some sign).

(** The commands whose handler takes a certificate. *)
Definition signedCommands : list string :=
  ["registerService"; "checkServiceStatus"; "sendServiceMessage"].

(** A payload handed to [_sendMessage] for [cmd] after validation. *)
Definition validated (cmd : string) (payload : JsVal) : Prop :=
  ∃ data sign, payload = envelope data sign ∧ Accepted cmd data sign.

(** What the caller passes to [sendMessage] to have [data] and [sign]
    reach a handler: the input itself, or for the signed commands an
    object that holds both. *)
Definition request (data : JsVal) (sign : option JsVal) : JsVal :=
  match sign with
  | None => data
  | Some s => VObj [("data", data); ("sign", s)]
  end.

(** A call that hands [payload] to [_sendMessage], having at most
    generated identifiers before. *)
Definition forwards (randomUUID : nat → string) (this : nat) (cmd : string)
    (payload : JsVal) (w : World) (r : Res nat * World) : Prop :=
  ∃ n, (uuidCount w ≤ n)%nat
       ∧ r = _sendMessage randomUUID this cmd payload None
               (set_uuidCount n w).

(** * Properties *)

(** ** The size routine *)

Example size_plain : bytes (getBase64ImageSize "aGVsbG8=") = 5.
Proof. reflexivity. Qed.

Example size_data_uri :
  bytes (getBase64ImageSize "data:image/png;base64,aGVs bG8h") = 6.
Proof. reflexivity. Qed.

Example encode_hello :
  base64_encode (list_ascii_of_string "hello") = "aGVsbG8=".
Proof. reflexivity. Qed.

Lemma Qfloor_three_quarters (len padding : Z) :
  Qfloor (inject_Z len * 3 / 4 - inject_Z padding) = (3 * len - 4 * padding) / 4.
Proof.
  assert (E : (inject_Z len * 3 / 4 - inject_Z padding ==
               (3 * len - 4 * padding) # 4)%Q).
  { unfold Qeq, Qminus, Qdiv, Qmult, Qplus, Qopp, Qinv, inject_Z. simpl. lia. }
  rewrite (Qfloor_comp _ _ E). reflexivity.
Qed.

(** *** Splitting at commas *)

Lemma split_cons sep s : ∃ seg segs, split sep s = seg :: segs.
Proof.
  destruct s as [|c s]; simpl; [eauto|].
  destruct (Ascii.eqb c sep); [eauto|].
  destruct (split sep s); eauto.
Qed.

Lemma split_no_comma s :
  after_first_comma s = None → split ","%char s = [s].
Proof.
  induction s as [|c s IH]; simpl; [done|].
  destruct (Ascii.eqb c ","%char); [done|].
  intros H. by rewrite (IH H).
Qed.

Lemma split_after_comma s r :
  after_first_comma s = Some r →
  ∃ p, split ","%char s = p :: split ","%char r.
Proof.
  revert r. induction s as [|c s IH]; simpl; intros r; [done|].
  destruct (Ascii.eqb c ","%char).
  - intros [= <-]. eauto.
  - intros H. destruct (IH _ H) as [p ->]. eauto.
Qed.

Lemma count_commas_after s r :
  after_first_comma s = Some r → count_commas s = S (count_commas r).
Proof.
  revert r. induction s as [|c s IH]; simpl; intros r; [done|].
  destruct (Ascii.eqb c ","%char).
  - by intros [= <-].
  - intros H. by rewrite (IH _ H).
Qed.

Lemma no_comma_after s : count_commas s = 0%nat → after_first_comma s = None.
Proof.
  induction s as [|c s IH]; simpl; [done|].
  destruct (Ascii.eqb c ","%char); [done | exact IH].
Qed.

(** *** The padding match *)

Lemma all_eq_sign_leading s :
  all_eq_sign s = true →
  leading_eq_signs (list_ascii_of_string s) = String.length s.
Proof.
  induction s as [|c s IH]; simpl; [done|].
  destruct (Ascii.eqb c "="%char); simpl; [|done].
  intros H. by rewrite IH.
Qed.

Lemma leading_eq_signs_app xs ys :
  leading_eq_signs (xs ++ ys) =
  if bool_decide (leading_eq_signs xs = length xs)
  then (length xs + leading_eq_signs ys)%nat
  else leading_eq_signs xs.
Proof.
  induction xs as [|x xs IH]; simpl; [done|].
  destruct (Ascii.eqb x "="%char); [|done].
  rewrite IH. repeat case_bool_decide; lia.
Qed.

Lemma leading_eq_signs_le xs : (leading_eq_signs xs ≤ length xs)%nat.
Proof.
  induction xs as [|x xs IH]; simpl; [lia|].
  destruct (Ascii.eqb x "="%char); lia.
Qed.

Lemma all_eq_sign_rev s :
  all_eq_sign s = true ↔
  leading_eq_signs (rev (list_ascii_of_string s)) = String.length s.
Proof.
  induction s as [|c s IH]; simpl; [done|].
  rewrite leading_eq_signs_app. simpl.
  pose proof (leading_eq_signs_le (rev (list_ascii_of_string s))) as Hle.
  rewrite length_rev in *.
  assert (Hlen : length (list_ascii_of_string s) = String.length s).
  { clear. induction s; simpl; congruence. }
  rewrite Hlen in *.
  destruct (Ascii.eqb c "="%char); simpl.
  - rewrite IH. case_bool_decide; lia.
  - split; [done|]. case_bool_decide; lia.
Qed.

Lemma match_trailing_eq_count s :
  String.length (match_trailing_eq s) = trailingPaddingCharCount s.
Proof.
  unfold trailingPaddingCharCount.
  induction s as [|c s IH]; [done|].
  change (match_trailing_eq (String c s))
    with (if all_eq_sign (String c s) then String c s
          else match_trailing_eq s).
  destruct (all_eq_sign (String c s)) eqn:E.
  - symmetry. by apply all_eq_sign_rev.
  - rewrite IH. simpl list_ascii_of_string. simpl rev.
    rewrite leading_eq_signs_app.
    case_bool_decide as Hall; [|done].
    rewrite length_rev in Hall.
    assert (Hlen : length (list_ascii_of_string s) = String.length s).
    { clear. induction s; simpl; congruence. }
    rewrite Hlen in Hall. pose proof Hall as Hrev.
    apply all_eq_sign_rev in Hall.
    simpl in E. rewrite Hall, andb_true_r in E. simpl. rewrite E.
    rewrite length_rev, Hlen. lia.
Qed.

(** The routine computes the specification's formula on every input with
    at most one comma that does not end at that comma. *)
Lemma getBase64ImageSize_spec s :
  (count_commas s ≤ 1)%nat →
  after_first_comma s ≠ Some EmptyString →
  bytes (getBase64ImageSize s) = spec_base64_size s.
Proof.
  intros Hcount Hne.
  unfold getBase64ImageSize, spec_base64_size, strip_data_uri_prefix. simpl.
  rewrite <- match_trailing_eq_count.
  destruct (after_first_comma s) as [r|] eqn:Hr; simpl.
  - destruct (split_after_comma _ _ Hr) as [p ->].
    rewrite (count_commas_after _ _ Hr) in Hcount.
    rewrite (split_no_comma r) by (apply no_comma_after; lia). simpl.
    destruct (String.eqb_spec r ""); [by subst|done].
  - by rewrite (split_no_comma _ Hr).
Qed.

(** *** Base64 text *)

Lemma sextet_plain n :
  Ascii.eqb (sextet n) "="%char = false
  ∧ Ascii.eqb (sextet n) ","%char = false
  ∧ is_js_space (sextet n) = false.
Proof.
  unfold sextet.
  assert (H : (n mod 64 < 64)%nat) by (apply Nat.mod_upper_bound; lia).
  revert H. generalize (n mod 64)%nat. intros m Hm.
  do 64 (destruct m as [|m]; [by vm_compute|]). lia.
Qed.

Lemma list_ind3 {A} (P : list A → Prop) :
  P [] → (∀ a, P [a]) → (∀ a b, P [a; b]) →
  (∀ a b c l, P l → P (a :: b :: c :: l)) →
  ∀ l, P l.
Proof.
  intros H0 H1 H2 H3.
  fix IH 1.
  intros [|a [|b [|c l]]]; [apply H0 | apply H1 | apply H2 | apply H3, IH].
Qed.

Ltac sextets :=
  repeat match goal with
    | |- context [Ascii.eqb (sextet ?n) "="%char] =>
        rewrite (proj1 (sextet_plain n))
    | |- context [Ascii.eqb (sextet ?n) ","%char] =>
        rewrite (proj1 (proj2 (sextet_plain n)))
    | |- context [is_js_space (sextet ?n)] =>
        rewrite (proj2 (proj2 (sextet_plain n)))
    end.

Lemma base64_encode_no_comma raw :
  after_first_comma (base64_encode raw) = None.
Proof.
  induction raw as [|a|a b|a b c raw IH] using list_ind3;
    cbn [base64_encode after_first_comma]; sextets; done.
Qed.

Lemma base64_encode_no_space raw :
  strip_spaces (base64_encode raw) = base64_encode raw.
Proof.
  induction raw as [|a|a b|a b c raw IH] using list_ind3;
    cbn [base64_encode strip_spaces]; sextets; [done..|].
  by rewrite IH.
Qed.

Lemma base64_encode_measure raw :
  3 * Z.of_nat (String.length (base64_encode raw))
  - 4 * Z.of_nat (String.length (match_trailing_eq (base64_encode raw)))
  = 4 * Z.of_nat (length raw).
Proof.
  induction raw as [|a|a b|a b c raw IH] using list_ind3;
    cbn [base64_encode match_trailing_eq all_eq_sign]; sextets;
    cbn [andb]; [done..|].
  cbn [String.length length]. lia.
Qed.

(** The routine returns the number of encoded bytes on every well-formed
    base64 text. *)
Lemma getBase64ImageSize_encode raw :
  bytes (getBase64ImageSize (base64_encode raw)) = Z.of_nat (length raw).
Proof.
  unfold getBase64ImageSize. cbn [bytes].
  rewrite (split_no_comma _ (base64_encode_no_comma raw)).
  change ([base64_encode raw] !! 1%nat) with (@None string). cbv beta iota.
  rewrite base64_encode_no_space.
  rewrite Qfloor_three_quarters.
  pose proof (base64_encode_measure raw) as H.
  replace (3 * Z.of_nat (String.length (base64_encode raw))
           - 4 * Z.of_nat (String.length (match_trailing_eq (base64_encode raw))))
    with (Z.of_nat (length raw) * 4) by lia.
  apply Z.div_mul. lia.
Qed.

Lemma split_prefix p r :
  count_commas p = 0%nat →
  split ","%char (p +:+ String ","%char r) = p :: split ","%char r.
Proof.
  induction p as [|c p IH]; [done|].
  change (String c p +:+ String ","%char r)
    with (String c (p +:+ String ","%char r)).
  cbn [count_commas split].
  destruct (Ascii.eqb c ","%char); [done|]. intros H.
  by rewrite (IH H).
Qed.

Lemma base64_encode_nonempty raw : raw ≠ [] → base64_encode raw ≠ EmptyString.
Proof. by destruct raw as [|a [|b [|c rest]]]. Qed.

(** A data URI: a prefix without a comma, a comma, and the encoding of at
    least one byte. *)
Lemma getBase64ImageSize_data_uri prefix raw :
  count_commas prefix = 0%nat → raw ≠ [] →
  bytes (getBase64ImageSize (prefix +:+ "," +:+ base64_encode raw))
  = Z.of_nat (length raw).
Proof.
  intros Hprefix Hraw. unfold getBase64ImageSize. cbn [bytes].
  change ("," +:+ base64_encode raw)
    with (String ","%char (base64_encode raw)).
  rewrite (split_prefix _ _ Hprefix).
  rewrite (split_no_comma _ (base64_encode_no_comma raw)).
  change ([prefix; base64_encode raw] !! 1%nat)
    with (Some (base64_encode raw)). cbv beta iota.
  destruct (String.eqb_spec (base64_encode raw) "") as [He|_];
    [by destruct (base64_encode_nonempty raw Hraw)|].
  rewrite base64_encode_no_space.
  rewrite Qfloor_three_quarters.
  pose proof (base64_encode_measure raw) as H.
  replace (3 * Z.of_nat (String.length (base64_encode raw))
           - 4 * Z.of_nat (String.length (match_trailing_eq (base64_encode raw))))
    with (Z.of_nat (length raw) * 4) by lia.
  apply Z.div_mul. lia.
Qed.

(** Whatever follows a second comma is not measured. *)
Lemma getBase64ImageSize_second_comma prefix seg rest :
  count_commas prefix = 0%nat → count_commas seg = 0%nat →
  seg ≠ EmptyString →
  getBase64ImageSize (prefix +:+ "," +:+ seg +:+ "," +:+ rest)
  = getBase64ImageSize seg.
Proof.
  intros Hprefix Hseg Hne. unfold getBase64ImageSize.
  change ("," +:+ seg +:+ "," +:+ rest)
    with (String ","%char (seg +:+ String ","%char rest)).
  rewrite (split_prefix _ _ Hprefix), (split_prefix _ _ Hseg).
  rewrite (split_no_comma _ (no_comma_after _ Hseg)).
  change ((prefix :: seg :: split ","%char rest) !! 1%nat) with (Some seg).
  change ([seg] !! 1%nat) with (@None string). cbv beta iota.
  by destruct (String.eqb_spec seg "").
Qed.

(** X24: on every input with at most one comma and some text after it,
    the routine strips the prefix up to and including that comma, strips
    all whitespace, and returns
    floor(len(stripped) * 3/4 - trailingPaddingCharCount); on the base64
    encoding of N raw bytes it returns exactly N. *)
Theorem getBase64ImageSize_decoded_length (s : string) (raw : list ascii) :
  (count_commas s ≤ 1)%nat →
  after_first_comma s ≠ Some EmptyString →
  bytes (getBase64ImageSize s) = spec_base64_size s
  ∧ bytes (getBase64ImageSize (base64_encode raw)) = Z.of_nat (length raw).
Proof.
  intros Hcount Hne. split.
  - by apply getBase64ImageSize_spec.
  - apply getBase64ImageSize_encode.
Qed.

Lemma getBase64ImageSize_decoded_length_witness :
  bytes (getBase64ImageSize "data:image/png;base64,aGVs bG8=")
  = spec_base64_size "data:image/png;base64,aGVs bG8="
  ∧ bytes (getBase64ImageSize (base64_encode (list_ascii_of_string "hello")))
    = 5.
Proof.
  apply (getBase64ImageSize_decoded_length
           "data:image/png;base64,aGVs bG8=" (list_ascii_of_string "hello")).
  - simpl. lia.
  - simpl. discriminate.
Defined.

(** ** Running monadic code *)

Ltac monad_unfold :=
  unfold mbind, mret, M_bind, M_ret, gets, modify, throw, try_catch, exec.

Ltac monad_simpl := monad_unfold; cbn.

(** ** Construction *)

Lemma constructor_run (props : list (string * JsVal)) (w : World) :
  let timeout := get (VObj props) "timeout" in
  let this := length (instances w) in
  let inst := {| defaultTimeout :=
                   if truthy timeout then timeout else VNum 30000;
                 messageCallbacks := [] |} in
  constructor (VObj props) w =
    (Ok this,
     match listenerFn w with
     | None =>
         set_listeners (listeners w ++ [this])
           (set_statics (instanceCount w + 1) (Some this)
              (set_instances (instances w ++ [inst]) w))
     | Some fn =>
         set_statics (instanceCount w + 1) (Some fn)
           (set_instances (instances w ++ [inst]) w)
     end).
Proof.
  unfold constructor, member, addEventListener. monad_simpl.
  destruct (listenerFn w); reflexivity.
Qed.

Lemma default_timeout_nonzero (timeout : JsVal) :
  (if truthy timeout then timeout else VNum 30000) ≠ VNum 0.
Proof.
  destruct timeout as [| |[]|z| |s|xs|ps]; cbn; try done.
  - destruct (Z.eqb_spec z 0); cbn; congruence.
  - destruct (String.eqb s ""); done.
Qed.

(** C10: a configuration whose [timeout] is 0, or any other falsy value,
    yields an instance whose default timeout is 30000 ms; and whatever the
    configuration, the default timeout of the new instance is never 0. *)
Theorem constructor_falsy_timeout
    (props : list (string * JsVal)) (w : World) :
  truthy (get (VObj props) "timeout") = false →
  ∃ this w',
    constructor (VObj props) w = (Ok this, w')
    ∧ defaultTimeout <$> instances w' !! this = Some (VNum 30000)
    ∧ ∀ props' w0 this0 w0',
        constructor (VObj props') w0 = (Ok this0, w0') →
        defaultTimeout <$> instances w0' !! this0 ≠ Some (VNum 0).
Proof.
  intros Hfalsy. eexists _, _. split; [apply constructor_run|]. split.
  - rewrite Hfalsy.
    destruct (listenerFn w); cbn; by rewrite lookup_app_r, Nat.sub_diag.
  - intros props' w0 this0 w0'. rewrite constructor_run. cbv zeta.
    generalize (get (VObj props') "timeout"). intros t [= <- <-].
    assert (E : ∀ inst : Instance,
               (instances w0 ++ [inst])%list !! length (instances w0)
               = Some inst).
    { intros inst. by rewrite lookup_app_r, Nat.sub_diag. }
    pose proof (default_timeout_nonzero t).
    destruct (listenerFn w0); cbn; rewrite E; cbn; congruence.
Qed.

Lemma constructor_falsy_timeout_witness :
  ∃ this w',
    constructor (VObj [("timeout", VNum 0)]) (initial true) = (Ok this, w')
    ∧ defaultTimeout <$> instances w' !! this = Some (VNum 30000)
    ∧ ∀ props' w0 this0 w0',
        constructor (VObj props') w0 = (Ok this0, w0') →
        defaultTimeout <$> instances w0' !! this0 ≠ Some (VNum 0).
Proof.
  apply (constructor_falsy_timeout [("timeout", VNum 0)] (initial true)).
  reflexivity.
Defined.

(** ** Validation *)

Lemma handleError_plain cmd messageId code message :
  handleError cmd messageId
    {| opt_code := code; opt_message := message; opt_data := VUndef |}
  = errorResponse (default ErrorCode.InvalidPayload code) messageId.
Proof. reflexivity. Qed.

Lemma trimEnd_nonspace c s :
  is_js_space c = false → trimEnd (String c s) ≠ EmptyString.
Proof. intros H. simpl. destruct (trimEnd s); rewrite ?H; done. Qed.

Lemma not_blank c s : is_js_space c = false → blank (String c s) = false.
Proof.
  intros H. unfold blank, trim. simpl trimStart. rewrite H.
  pose proof (trimEnd_nonspace c s H).
  destruct (String.eqb_spec (trimEnd (String c s)) ""); done.
Qed.

Lemma data_image_not_blank image :
  startsWith image "data:image/" = true → blank image = false.
Proof.
  destruct image as [|c image]; [done|]. cbn [startsWith].
  destruct (Ascii.eqb_spec "d"%char c) as [<-|]; [|discriminate].
  intros _. by apply not_blank.
Qed.

Lemma startsWith_app s r p :
  startsWith s p = true → startsWith (s +:+ r) p = true.
Proof.
  revert s. induction p as [|a p IH]; intros [|b s]; try done.
  { intros _. change ("" +:+ r) with r. by destruct r. }
  change (String b s +:+ r) with (String b (s +:+ r)). cbn [startsWith].
  intros [-> H]%andb_true_iff. by rewrite (IH _ H).
Qed.

Section Validation.
Variable randomUUID : nat → string.

Lemma messageId_of_run payload w :
  messageId_of randomUUID payload w =
    if truthy (get payload "messageId")
    then (Ok (get payload "messageId"), w)
    else (Ok (VStr (randomUUID (uuidCount w))),
          set_uuidCount (S (uuidCount w)) w).
Proof.
  unfold messageId_of. by destruct (truthy (get payload "messageId")).
Qed.

Lemma saveImage_prefixed this payload image messageId w w0 :
  get payload "image" = VStr image →
  startsWith image "data:image/" = true →
  messageId_of randomUUID payload w = (Ok messageId, w0) →
  saveImage randomUUID this payload w
  = (if bytes (getBase64ImageSize image) <=? 1048576
     then _sendMessage randomUUID this "saveImage"
            (VObj [("data", payload)]) None w0
     else Promise_resolve
            (errorResponse ErrorCode.ExceededUploadSizeLimit messageId) w0).
Proof.
  intros Himage Hprefix Hid.
  assert (Hobj : truthy payload = true) by by destruct payload.
  unfold saveImage. monad_unfold. rewrite Hid, Himage.
  rewrite Hobj, (data_image_not_blank _ Hprefix), Hprefix.
  cbn [negb orb]. unfold maxSizeInBytes.
  destruct (Z.ltb_spec (1 * 1024 * 1024) (bytes (getBase64ImageSize image)));
    destruct (Z.leb_spec (bytes (getBase64ImageSize image)) 1048576);
    try lia; [|done].
  unfold reject_with, Promise_resolve. monad_unfold.
  by rewrite handleError_plain.
Qed.

Lemma saveImage_unprefixed this payload other messageId w w0 :
  get payload "image" = VStr other →
  startsWith other "data:image/" = false →
  messageId_of randomUUID payload w = (Ok messageId, w0) →
  saveImage randomUUID this payload w
  = Promise_resolve (errorResponse ErrorCode.InvalidPayload messageId) w0.
Proof.
  intros Hother Hno Hid. unfold saveImage. monad_unfold.
  rewrite Hid, Hother, Hno, orb_true_r.
  unfold invalid, reject_with, Promise_resolve. monad_unfold.
  by rewrite handleError_plain.
Qed.

(** C8: [saveImage] given a data URI, that is a prefix without a comma
    that starts with [data:image/], a comma, and the base64 encoding of
    [raw], measures exactly the length of [raw]; up to and including
    1048576 bytes the payload is sent on, and from 1048577 bytes on the
    call is answered with the exceeded-upload-size kind 30010.  On every
    input with the [data:image/] prefix the check is the same one on the
    size the routine computes.  An image without the prefix is answered
    with the invalid-payload kind 30001, a different kind. *)
Theorem saveImage_size_boundary (this : nat) (payload : JsVal)
    (prefix : string) (raw : list ascii) (messageId : JsVal)
    (w w0 : World) :
  let image := prefix +:+ "," +:+ base64_encode raw in
  get payload "image" = VStr image →
  startsWith prefix "data:image/" = true →
  count_commas prefix = 0%nat →
  raw ≠ [] →
  messageId_of randomUUID payload w = (Ok messageId, w0) →
  bytes (getBase64ImageSize image) = Z.of_nat (length raw)
  ∧ saveImage randomUUID this payload w
    = (if Z.of_nat (length raw) <=? 1048576
       then _sendMessage randomUUID this "saveImage"
              (VObj [("data", payload)]) None w0
       else Promise_resolve
              (errorResponse ErrorCode.ExceededUploadSizeLimit messageId) w0)
  ∧ (∀ payload' image' messageId' w0',
       get payload' "image" = VStr image' →
       startsWith image' "data:image/" = true →
       messageId_of randomUUID payload' w = (Ok messageId', w0') →
       saveImage randomUUID this payload' w
       = (if bytes (getBase64ImageSize image') <=? 1048576
          then _sendMessage randomUUID this "saveImage"
                 (VObj [("data", payload')]) None w0'
          else Promise_resolve
                 (errorResponse ErrorCode.ExceededUploadSizeLimit messageId')
                 w0'))
  ∧ (∀ payload' other messageId' w0',
       get payload' "image" = VStr other →
       startsWith other "data:image/" = false →
       messageId_of randomUUID payload' w = (Ok messageId', w0') →
       saveImage randomUUID this payload' w
       = Promise_resolve
           (errorResponse ErrorCode.InvalidPayload messageId') w0')
  ∧ ErrorCode.ExceededUploadSizeLimit ≠ ErrorCode.InvalidPayload.
Proof.
  intros image Himage Hprefix Hcommas Hraw Hid.
  assert (Hsize : bytes (getBase64ImageSize image) = Z.of_nat (length raw))
    by by apply getBase64ImageSize_data_uri.
  split_and!.
  - exact Hsize.
  - rewrite <- Hsize. apply saveImage_prefixed; [done| |done].
    by apply startsWith_app.
  - intros. by apply saveImage_prefixed.
  - intros payload' other messageId' w0' Hother Hno Hid'.
    by apply (saveImage_unprefixed _ _ other).
  - done.
Qed.
End Validation.

Lemma replicate_nonempty (n : Z) (c : ascii) :
  0 < n → replicate (Z.to_nat n) c ≠ [].
Proof.
  intros Hn H. apply (f_equal length) in H.
  rewrite length_replicate in H. cbn [length] in H. lia.
Qed.

Lemma saveImage_size_boundary_witness :
  saveImage uuid 0
    (VObj [("image",
            VStr ("data:image/png;base64" +:+ ","
                  +:+ base64_encode
                        (replicate (Z.to_nat 1048576) "a"%char)))])
    (initial true)
  = _sendMessage uuid 0 "saveImage"
      (VObj [("data",
              VObj [("image",
                     VStr ("data:image/png;base64" +:+ ","
                           +:+ base64_encode
                                 (replicate (Z.to_nat 1048576) "a"%char)))])])
      None (minted (initial true))
  ∧ saveImage uuid 0
      (VObj [("image",
              VStr ("data:image/png;base64" +:+ ","
                    +:+ base64_encode
                          (replicate (Z.to_nat 1048577) "a"%char)))])
      (initial true)
    = Promise_resolve (errorResponse 30010 (VStr (uuid 0)))
        (minted (initial true)).
Proof.
  split.
  - destruct (saveImage_size_boundary uuid 0
                (VObj [("image",
                        VStr ("data:image/png;base64" +:+ ","
                              +:+ base64_encode
                                    (replicate (Z.to_nat 1048576)
                                       "a"%char)))])
                "data:image/png;base64"
                (replicate (Z.to_nat 1048576) "a"%char)
                (VStr (uuid 0)) (initial true) (minted (initial true)))
      as (_ & H & _).
    + reflexivity.
    + reflexivity.
    + reflexivity.
    + apply replicate_nonempty. lia.
    + reflexivity.
    + rewrite H, length_replicate, Z2Nat.id by lia. reflexivity.
  - destruct (saveImage_size_boundary uuid 0
                (VObj [("image",
                        VStr ("data:image/png;base64" +:+ ","
                              +:+ base64_encode
                                    (replicate (Z.to_nat 1048577)
                                       "a"%char)))])
                "data:image/png;base64"
                (replicate (Z.to_nat 1048577) "a"%char)
                (VStr (uuid 0)) (initial true) (minted (initial true)))
      as (_ & H & _).
    + reflexivity.
    + reflexivity.
    + reflexivity.
    + apply replicate_nonempty. lia.
    + reflexivity.
    + rewrite H, length_replicate, Z2Nat.id by lia. reflexivity.
Defined.

(** C9, evaluated: the routine takes [split(',')[1] || base64String], not
    what follows the first comma.  For the data URI of an image of no
    bytes, whose part after the comma is empty and therefore falsy, it
    measures the whole input, prefix included: 16 bytes, where the
    formula and the decoded length give 0.  And whatever follows a second
    comma is left out: after [AAAA,] any text at all still measures 3
    bytes, where the formula counts all of it, so that [saveImage] sends
    such an image on whatever its length. *)
Theorem getBase64ImageSize_misses_prefix :
  "data:image/png;base64," = "data:image/png;base64" +:+ "," +:+ base64_encode []
  ∧ bytes (getBase64ImageSize "data:image/png;base64,") = 16
  ∧ spec_base64_size "data:image/png;base64," = 0
  ∧ (∀ rest,
       bytes (getBase64ImageSize ("data:image/png;base64,AAAA," +:+ rest)) = 3)
  ∧ spec_base64_size "data:image/png;base64,AAAA,BBBB" = 6
  ∧ (∀ randomUUID this payload rest messageId w w0,
       get payload "image" = VStr ("data:image/png;base64,AAAA," +:+ rest) →
       messageId_of randomUUID payload w = (Ok messageId, w0) →
       saveImage randomUUID this payload w
       = _sendMessage randomUUID this "saveImage"
           (VObj [("data", payload)]) None w0).
Proof.
  assert (Hrest : ∀ rest,
            bytes (getBase64ImageSize
                     ("data:image/png;base64,AAAA," +:+ rest)) = 3).
  { intros rest.
    change ("data:image/png;base64,AAAA," +:+ rest)
      with ("data:image/png;base64" +:+ "," +:+ "AAAA" +:+ "," +:+ rest).
    by rewrite getBase64ImageSize_second_comma. }
  split_and!; [reflexivity | reflexivity | reflexivity | exact Hrest
              | reflexivity | ].
  intros randomUUID this payload rest messageId w w0 Himage Hid.
  rewrite (saveImage_prefixed randomUUID this payload _ messageId w w0
             Himage eq_refl Hid).
  by rewrite Hrest.
Qed.

(** ** Property lists *)

Section Assoc.
Context {A : Type}.
Implicit Types (ps : list (string * A)) (k : string).

Lemma assoc_assign k' k v ps :
  assoc k' (assign k v ps) = if String.eqb k' k then Some v else assoc k' ps.
Proof.
  induction ps as [|[k0 v0] ps IH]; simpl.
  - by destruct (String.eqb k' k).
  - destruct (String.eqb_spec k k0) as [->|Hne]; simpl.
    + by destruct (String.eqb k' k0).
    + destruct (String.eqb_spec k' k0) as [->|]; [|done].
      by destruct (String.eqb_spec k0 k) as [->|].
Qed.

Lemma assoc_remove k' k ps :
  assoc k' (remove k ps) = if String.eqb k' k then None else assoc k' ps.
Proof.
  induction ps as [|[k0 v0] ps IH]; simpl.
  - by destruct (String.eqb k' k).
  - destruct (String.eqb_spec k k0) as [->|Hne]; simpl.
    + rewrite IH. by destruct (String.eqb k' k0).
    + destruct (String.eqb_spec k' k0) as [->|]; [|done].
      by destruct (String.eqb_spec k0 k) as [->|].
Qed.

Lemma assoc_None k ps : assoc k ps = None ↔ k ∉ keys ps.
Proof.
  unfold keys. induction ps as [|[k0 v0] ps IH]; simpl.
  - split; [intros _; apply not_elem_of_nil | done].
  - rewrite not_elem_of_cons.
    destruct (String.eqb_spec k k0) as [->|]; [split; [done | tauto]|].
    rewrite IH. tauto.
Qed.

Lemma assoc_Some_elem k v ps : assoc k ps = Some v → (k, v) ∈ ps.
Proof.
  induction ps as [|[k0 v0] ps IH]; simpl; [done|].
  destruct (String.eqb_spec k k0) as [->|].
  - intros [= ->]. apply elem_of_cons. by left.
  - intros H. apply elem_of_cons. right. by apply IH.
Qed.

Lemma elem_assoc_NoDup k v ps :
  NoDup (keys ps) → (k, v) ∈ ps → assoc k ps = Some v.
Proof.
  unfold keys. induction ps as [|[k0 v0] ps IH]; simpl.
  - intros _ H. by apply elem_of_nil in H.
  - intros Hnd H. apply NoDup_cons in Hnd as [Hnotin Hnd].
    apply elem_of_cons in H as [[= -> ->]|H].
    + by rewrite String.eqb_refl.
    + destruct (String.eqb_spec k k0) as [->|]; [|by apply IH].
      exfalso. apply Hnotin. apply list_elem_of_fmap. by exists (k0, v).
Qed.

Lemma keys_assign k v ps :
  keys (assign k v ps) =
  if bool_decide (k ∈ keys ps) then keys ps else (keys ps ++ [k])%list.
Proof.
  unfold keys. induction ps as [|[k0 v0] ps IH].
  - cbn [assign fmap list_fmap fst app].
    rewrite bool_decide_eq_false_2; [done | apply not_elem_of_nil].
  - cbn [assign]. destruct (String.eqb_spec k k0) as [->|Hne];
      cbn [fmap list_fmap fst].
    + rewrite bool_decide_eq_true_2; [done | apply elem_of_cons; by left].
    + fold (fmap (M:=list) (@fst string A)). rewrite IH.
      case_bool_decide as H1; case_bool_decide as H2; try done; exfalso.
      * apply H2. apply elem_of_cons. by right.
      * apply elem_of_cons in H2 as [|]; done.
Qed.

Lemma NoDup_keys_assign k v ps :
  NoDup (keys ps) → NoDup (keys (assign k v ps)).
Proof.
  intros H. rewrite keys_assign. case_bool_decide as Hin; [done|].
  apply NoDup_app. split_and!; [done| |apply NoDup_singleton].
  intros x Hx Hx'%list_elem_of_singleton. by subst.
Qed.

Lemma keys_remove k ps : keys (remove k ps) = filter (λ x, x ≠ k) (keys ps).
Proof.
  unfold keys. induction ps as [|[k0 v0] ps IH]; [done|].
  cbn [remove]. rewrite fmap_cons. cbn [fst].
  destruct (String.eqb_spec k k0) as [->|Hne].
  - rewrite IH, filter_cons_False; [done | by intros ?].
  - rewrite fmap_cons, IH, filter_cons_True; [done | by intros ->].
Qed.

Lemma NoDup_keys_remove k ps :
  NoDup (keys ps) → NoDup (keys (remove k ps)).
Proof. intros H. rewrite keys_remove. by apply NoDup_filter. Qed.
End Assoc.

Lemma assoc_assign_timeoutId k' k id (ps : list (string * Callback)) :
  assoc k' (assign_timeoutId k id ps) =
  if String.eqb k' k then setTimeoutId id <$> assoc k ps else assoc k' ps.
Proof.
  induction ps as [|[k0 v0] ps IH]; simpl.
  - by destruct (String.eqb k' k).
  - destruct (String.eqb_spec k k0) as [->|Hne]; simpl.
    + by destruct (String.eqb k' k0).
    + destruct (String.eqb_spec k' k0) as [->|]; [|done].
      by destruct (String.eqb_spec k0 k) as [->|].
Qed.

Lemma keys_assign_timeoutId k id (ps : list (string * Callback)) :
  keys (assign_timeoutId k id ps) = keys ps.
Proof.
  unfold keys. induction ps as [|[k0 v0] ps IH]; [done|].
  cbn [assign_timeoutId].
  destruct (String.eqb k k0); rewrite !fmap_cons; [done | by rewrite IH].
Qed.

Lemma valid_id_spec k :
  valid_id k = true → k ≠ EmptyString ∧ inherited k = false.
Proof.
  unfold valid_id. intros [H1 H2]%andb_true_iff.
  apply negb_true_iff in H1, H2. split; [|done].
  intros ->. done.
Qed.

Lemma js_lookup_own {A} (ps : list (string * A)) k a :
  assoc k ps = Some a → js_lookup ps k = Own a.
Proof. unfold js_lookup. by intros ->. Qed.

Lemma js_lookup_missing {A} (ps : list (string * A)) k :
  assoc k ps = None → inherited k = false → js_lookup ps k = Missing.
Proof. unfold js_lookup. by intros -> ->. Qed.

(** ** Registries and the primitives *)

Lemma registry_reg w this : registry w this = reg (instances w) this.
Proof. reflexivity. Qed.

Lemma reg_beyond insts this : (length insts ≤ this)%nat → reg insts this = [].
Proof.
  intros H. unfold reg. rewrite list_lookup_total_alt.
  by rewrite lookup_ge_None_2.
Qed.

Lemma reg_alter cbs this insts i :
  reg (alter (λ x, {| defaultTimeout := defaultTimeout x;
                      messageCallbacks := cbs |}) this insts) i
  = if bool_decide (i = this ∧ (this < length insts)%nat) then cbs
    else reg insts i.
Proof.
  unfold reg. rewrite !list_lookup_total_alt.
  case_bool_decide as H.
  - destruct H as [-> Hlt]. rewrite list_lookup_alter_eq.
    destruct (lookup_lt_is_Some_2 insts this Hlt) as [x Hx].
    rewrite Hx. reflexivity.
  - destruct (decide (i = this)) as [->|Hne].
    + rewrite list_lookup_alter_eq.
      rewrite (lookup_ge_None_2 insts this) by lia. done.
    + by rewrite list_lookup_alter_ne.
Qed.

Lemma reg_snoc insts inst i :
  messageCallbacks inst = [] → reg (insts ++ [inst]) i = reg insts i.
Proof.
  intros Hempty. destruct (decide (i < length insts)%nat) as [Hlt|Hge].
  - unfold reg. rewrite !list_lookup_total_alt. by rewrite lookup_app_l.
  - rewrite (reg_beyond insts) by lia.
    unfold reg. rewrite list_lookup_total_alt.
    destruct (decide (i = length insts)) as [->|Hne].
    + by rewrite lookup_app_r, Nat.sub_diag.
    + rewrite lookup_ge_None_2; [done|]. rewrite length_app. simpl. lia.
Qed.

Lemma registry_set_registry this cbs w i :
  registry (set_registry this cbs w) i
  = if bool_decide (i = this ∧ (this < length (instances w))%nat) then cbs
    else registry w i.
Proof. apply reg_alter. Qed.

Lemma getCallbacks_run this w :
  getCallbacks this w = (Ok (registry w this), w).
Proof. reflexivity. Qed.

Lemma setCallbacks_run this cbs w :
  setCallbacks this cbs w = (Ok tt, set_registry this cbs w).
Proof. reflexivity. Qed.

Lemma call_resolve_run p value w :
  call_resolve p value w = (Ok tt, resolved p value w).
Proof. reflexivity. Qed.

Lemma clearCallbackTimeout_run callback w :
  clearCallbackTimeout callback w = (Ok tt, uncalled callback w).
Proof.
  unfold uncalled, clearCallbackTimeout, exec.
  destruct (timeoutId callback) as [id|]; [|done].
  by destruct (truthy (VNum id)).
Qed.

(** [cleanupCallback] never throws, and is a no-op unless the identifier
    names an own entry. *)
Lemma cleanupCallback_run this messageId w :
  cleanupCallback this messageId w = (Ok tt, cleaned this messageId w).
Proof.
  unfold cleaned, exec, cleanupCallback. monad_unfold.
  rewrite getCallbacks_run.
  destruct (String.eqb messageId ""); [done|].
  destruct (js_lookup (registry w this) messageId); try done.
  by rewrite clearCallbackTimeout_run, setCallbacks_run.
Qed.

Lemma cleaned_own this k cb w :
  k ≠ EmptyString → assoc k (registry w this) = Some cb →
  cleaned this k w
  = set_registry this (remove k (registry w this)) (uncalled cb w).
Proof.
  intros Hk Hcb. unfold cleaned, exec, cleanupCallback. monad_unfold.
  rewrite getCallbacks_run.
  destruct (String.eqb_spec k ""); [done|].
  rewrite (js_lookup_own _ _ _ Hcb).
  by rewrite clearCallbackTimeout_run, setCallbacks_run.
Qed.

Lemma cleaned_absent this k w :
  assoc k (registry w this) = None → cleaned this k w = w.
Proof.
  intros Hcb. unfold cleaned, exec, cleanupCallback. monad_unfold.
  rewrite getCallbacks_run.
  destruct (String.eqb k ""); [done|].
  unfold js_lookup. rewrite Hcb. by destruct (inherited k).
Qed.

Lemma uncalled_timers cb w id :
  timeoutId cb = Some id → id ≠ 0 →
  timers (uncalled cb w) = delete id (timers w).
Proof.
  intros Hid Hne. unfold uncalled, exec, clearCallbackTimeout.
  rewrite Hid. simpl. destruct (Z.eqb_spec id 0); done.
Qed.

(** ** Keeping the invariant *)

Lemma wf_initial has_parent : wf (initial has_parent).
Proof.
  split; cbn; try done; try lia.
  - intros p H. by apply elem_of_nil in H.
  - apply NoDup_nil_2.
  - intros i. apply NoDup_nil_2.
Qed.

(** Changes that leave the settled calls and every registry alone. *)
Lemma wf_frame w w' :
  wf w →
  0 < nextTimer w' →
  settled w' = settled w →
  (nextPromise w ≤ nextPromise w')%nat →
  (∀ i, registry w' i = registry w i) →
  wf w'.
Proof.
  intros [Ht Hs Ho Hk He Hd] Ht' Hs' Hp' Hr'. split.
  - done.
  - rewrite Hs'. intros p Hp. specialize (Hs p Hp). lia.
  - by rewrite Hs'.
  - intros i. by rewrite Hr'.
  - intros i k cb. rewrite Hr', Hs'. intros H.
    destruct (He _ _ _ H) as (? & ? & ? & ?). split_and!; try done. lia.
  - intros i j k k' cb cb'. rewrite !Hr'. apply Hd.
Qed.

Lemma wf_resolved p value w :
  wf w →
  (p < nextPromise w)%nat →
  p ∉ fst <$> settled w →
  (∀ i k cb, assoc k (registry w i) = Some cb → resolve cb ≠ p) →
  wf (resolved p value w).
Proof.
  intros [Ht Hs Ho Hk He Hd] Hp Hnew Hfree. split; cbn.
  - done.
  - intros q. rewrite fmap_app. intros [Hq|Hq]%elem_of_app; [by apply Hs|].
    cbn in Hq. apply list_elem_of_singleton in Hq as ->. done.
  - rewrite fmap_app. apply NoDup_app. split_and!; [done| |].
    + intros q Hq Hq'. cbn in Hq'.
      apply list_elem_of_singleton in Hq' as ->. done.
    + cbn. apply NoDup_singleton.
  - exact Hk.
  - intros i k cb H. destruct (He _ _ _ H) as (? & ? & ? & ?).
    split_and!; try done.
    rewrite fmap_app. intros [Hq|Hq]%elem_of_app; [done|].
    cbn in Hq. apply list_elem_of_singleton in Hq. by eapply Hfree.
  - exact Hd.
Qed.

(** Replacing a registry by part of itself. *)
Lemma wf_set_registry_sub this cbs w :
  wf w →
  NoDup (keys cbs) →
  (∀ k cb, assoc k cbs = Some cb → assoc k (registry w this) = Some cb) →
  wf (set_registry this cbs w).
Proof.
  intros [Ht Hs Ho Hk He Hd] Hnd Hsub.
  assert (Hin : ∀ i k cb,
            assoc k (registry (set_registry this cbs w) i) = Some cb →
            assoc k (registry w i) = Some cb).
  { intros i k cb. rewrite registry_set_registry.
    case_bool_decide as Hi; [|done]. destruct Hi as [-> _]. apply Hsub. }
  split.
  - done.
  - exact Hs.
  - exact Ho.
  - intros i. rewrite registry_set_registry. by case_bool_decide.
  - intros i k cb H%Hin. by apply He in H.
  - intros i j k k' cb cb' H%Hin H'%Hin. by apply Hd.
Qed.

Lemma wf_remove this k w :
  wf w → wf (set_registry this (remove k (registry w this)) w).
Proof.
  intros Hwf. apply wf_set_registry_sub; [done| |].
  - apply NoDup_keys_remove, Hwf.
  - intros k' cb. rewrite assoc_remove. by destruct (String.eqb k' k).
Qed.

Lemma wf_assign this k cb w :
  wf w →
  valid_id k = true →
  (resolve cb < nextPromise w)%nat →
  resolve cb ∉ fst <$> settled w →
  (∀ id, timeoutId cb = Some id → 0 < id) →
  (∀ i k' cb', assoc k' (registry w i) = Some cb' →
               resolve cb' ≠ resolve cb) →
  wf (set_registry this (assign k cb (registry w this)) w).
Proof.
  intros [Ht Hs Ho Hk He Hd] Hvalid Hp Hnew Hid Hfree.
  assert (Hin : ∀ i k' cb',
            assoc k' (registry (set_registry this
                                  (assign k cb (registry w this)) w) i)
            = Some cb' →
            (i = this ∧ k' = k ∧ cb' = cb)
            ∨ assoc k' (registry w i) = Some cb').
  { intros i k' cb'. rewrite registry_set_registry.
    case_bool_decide as Hi; [|by right]. destruct Hi as [-> _].
    rewrite assoc_assign. destruct (String.eqb_spec k' k) as [->|].
    - intros [= <-]. by left.
    - by right. }
  split.
  - done.
  - exact Hs.
  - exact Ho.
  - intros i. rewrite registry_set_registry.
    case_bool_decide; [by apply NoDup_keys_assign | done].
  - intros i k' cb' [(-> & -> & ->)|H]%Hin; [done|]. by apply He in H.
  - intros i j k1 k2 cb1 cb2
      [(-> & -> & ->)|H1]%Hin [(-> & -> & ->)|H2]%Hin Heq.
    + done.
    + exfalso. by eapply Hfree.
    + exfalso. by eapply Hfree.
    + by eapply Hd.
Qed.

Lemma wf_assign_timeoutId this k id w :
  wf w → 0 < id →
  wf (set_registry this (assign_timeoutId k id (registry w this)) w).
Proof.
  intros [Ht Hs Ho Hk He Hd] Hid.
  assert (Hin : ∀ i k' cb',
            assoc k' (registry (set_registry this
                        (assign_timeoutId k id (registry w this)) w) i)
            = Some cb' →
            ∃ cb0, assoc k' (registry w i) = Some cb0
                   ∧ resolve cb' = resolve cb0
                   ∧ (timeoutId cb' = timeoutId cb0
                      ∨ timeoutId cb' = Some id)).
  { intros i k' cb'. rewrite registry_set_registry.
    case_bool_decide as Hi; [|by eauto]. destruct Hi as [-> _].
    rewrite assoc_assign_timeoutId.
    destruct (String.eqb_spec k' k) as [->|]; [|by eauto].
    destruct (assoc k (registry w this)) as [cb0|]; [|done].
    intros [= <-]. exists cb0. split_and!; [done..|by right]. }
  split.
  - done.
  - exact Hs.
  - exact Ho.
  - intros i. rewrite registry_set_registry.
    case_bool_decide; [by rewrite keys_assign_timeoutId | done].
  - intros i k' cb' (cb0 & H0 & Hres & Htid)%Hin.
    destruct (He _ _ _ H0) as (? & ? & ? & Hpos).
    rewrite Hres. split_and!; try done.
    intros id' Hid'. destruct Htid as [Htid|Htid]; rewrite Htid in Hid'.
    + by apply Hpos.
    + by injection Hid' as <-.
  - intros i j k1 k2 cb1 cb2 (c1 & H1 & R1 & _)%Hin (c2 & H2 & R2 & _)%Hin.
    rewrite R1, R2. by eapply Hd.
Qed.

(** ** Settling one call *)

Lemma registered_instance w this k cb :
  assoc k (registry w this) = Some cb → (this < length (instances w))%nat.
Proof.
  intros H. destruct (decide (this < length (instances w))%nat); [done|].
  rewrite registry_reg, reg_beyond in H by lia. done.
Qed.

(** What cancelling an entry's timer leaves alone. *)
Lemma uncalled_frame cb w :
  settled (uncalled cb w) = settled w
  ∧ nextPromise (uncalled cb w) = nextPromise w
  ∧ nextTimer (uncalled cb w) = nextTimer w
  ∧ instances (uncalled cb w) = instances w
  ∧ instanceCount (uncalled cb w) = instanceCount w
  ∧ listenerFn (uncalled cb w) = listenerFn w
  ∧ listeners (uncalled cb w) = listeners w
  ∧ uuidCount (uncalled cb w) = uuidCount w.
Proof.
  unfold uncalled, exec, clearCallbackTimeout.
  destruct (timeoutId cb) as [id|]; [destruct (truthy (VNum id))|]; done.
Qed.

Lemma wf_uncalled cb w : wf w → wf (uncalled cb w).
Proof.
  intros Hwf. destruct (uncalled_frame cb w) as (Hs & Hp & Ht & Hi & _).
  apply (wf_frame w); try done.
  - rewrite Ht. apply Hwf.
  - by rewrite Hp.
  - intros i. by rewrite !registry_reg, Hi.
Qed.

Lemma wf_cleaned this k w : wf w → wf (cleaned this k w).
Proof.
  intros Hwf. unfold cleaned, exec, cleanupCallback. monad_unfold.
  rewrite getCallbacks_run.
  destruct (String.eqb k ""); [done|].
  destruct (js_lookup (registry w this) k) as [cb| |]; try done.
  rewrite clearCallbackTimeout_run, setCallbacks_run. cbn [snd].
  replace (registry w this) with (registry (uncalled cb w) this).
  - apply wf_remove. by apply wf_uncalled.
  - destruct (uncalled_frame cb w) as (_ & _ & _ & Hi & _).
    by rewrite !registry_reg, Hi.
Qed.

Lemma cleaned_frame this k w :
  settled (cleaned this k w) = settled w
  ∧ nextPromise (cleaned this k w) = nextPromise w
  ∧ nextTimer (cleaned this k w) = nextTimer w
  ∧ length (instances (cleaned this k w)) = length (instances w)
  ∧ instanceCount (cleaned this k w) = instanceCount w
  ∧ listenerFn (cleaned this k w) = listenerFn w
  ∧ listeners (cleaned this k w) = listeners w
  ∧ uuidCount (cleaned this k w) = uuidCount w.
Proof.
  unfold cleaned, exec, cleanupCallback. monad_unfold.
  rewrite getCallbacks_run.
  destruct (String.eqb k ""); [done|].
  destruct (js_lookup (registry w this) k) as [cb| |]; try done.
  rewrite clearCallbackTimeout_run, setCallbacks_run. cbn.
  rewrite length_alter.
  destruct (uncalled_frame cb w) as (-> & -> & -> & -> & -> & -> & -> & ->).
  done.
Qed.

Lemma cleaned_sub this k w i k' cb :
  assoc k' (registry (cleaned this k w) i) = Some cb →
  assoc k' (registry w i) = Some cb.
Proof.
  unfold cleaned, exec, cleanupCallback. monad_unfold.
  rewrite getCallbacks_run.
  destruct (String.eqb k ""); [done|].
  destruct (js_lookup (registry w this) k) as [cb0| |]; try done.
  rewrite clearCallbackTimeout_run, setCallbacks_run. cbn [snd].
  rewrite registry_set_registry.
  assert (Hr : ∀ j, registry (uncalled cb0 w) j = registry w j).
  { intros j. destruct (uncalled_frame cb0 w) as (_ & _ & _ & Hi & _).
    by rewrite !registry_reg, Hi. }
  rewrite Hr. case_bool_decide as Hi.
  - destruct Hi as [-> _]. rewrite assoc_remove.
    by destruct (String.eqb k' k).
  - done.
Qed.

Lemma cleaned_other this k w i :
  i ≠ this → registry (cleaned this k w) i = registry w i.
Proof.
  intros Hne. unfold cleaned, exec, cleanupCallback. monad_unfold.
  rewrite getCallbacks_run.
  destruct (String.eqb k ""); [done|].
  destruct (js_lookup (registry w this) k) as [cb0| |]; try done.
  rewrite clearCallbackTimeout_run, setCallbacks_run. cbn [snd].
  rewrite registry_set_registry.
  rewrite bool_decide_eq_false_2 by (intros [? _]; done).
  destruct (uncalled_frame cb0 w) as (_ & _ & _ & Hi & _).
  by rewrite !registry_reg, Hi.
Qed.

Lemma cleaned_removed this k cb w :
  k ≠ EmptyString → assoc k (registry w this) = Some cb →
  assoc k (registry (cleaned this k w) this) = None
  ∧ ∀ id, timeoutId cb = Some id → id ≠ 0 →
          timers (cleaned this k w) !! id = None.
Proof.
  intros Hk Hcb. rewrite (cleaned_own _ _ _ _ Hk Hcb). split.
  - rewrite registry_set_registry.
    assert (Hr : registry (uncalled cb w) this = registry w this).
    { destruct (uncalled_frame cb w) as (_ & _ & _ & Hi & _).
      by rewrite !registry_reg, Hi. }
    destruct (uncalled_frame cb w) as (_ & _ & _ & Hi & _).
    rewrite Hi. rewrite bool_decide_eq_true_2.
    + by rewrite assoc_remove, String.eqb_refl.
    + split; [done|]. by eapply registered_instance.
  - intros id Hid Hne.
    change (timers (set_registry this (remove k (registry w this))
                      (uncalled cb w)))
      with (timers (uncalled cb w)).
    rewrite (uncalled_timers _ _ _ Hid Hne). apply lookup_delete_eq.
Qed.

Lemma cleaned_resolved this k p value w :
  cleaned this k (resolved p value w) = resolved p value (cleaned this k w).
Proof.
  unfold cleaned, exec, cleanupCallback. monad_unfold.
  rewrite !getCallbacks_run.
  change (registry (resolved p value w) this) with (registry w this).
  destruct (String.eqb k ""); [done|].
  destruct (js_lookup (registry w this) k) as [cb| |]; try done.
  rewrite !clearCallbackTimeout_run, !setCallbacks_run. cbn [snd].
  unfold uncalled, exec, clearCallbackTimeout.
  destruct (timeoutId cb) as [id|]; [destruct (truthy (VNum id))|]; done.
Qed.

(** *** The three paths *)

Lemma handleTimeout_own this k cmd cb w :
  assoc k (registry w this) = Some cb →
  handleTimeout this k cmd w
  = (Ok tt, resolved (resolve cb)
              (errorResponse ErrorCode.TimeoutError (VStr k))
              (cleaned this k w)).
Proof.
  intros Hcb. unfold handleTimeout. monad_unfold.
  rewrite getCallbacks_run, (js_lookup_own _ _ _ Hcb).
  rewrite call_resolve_run, cleanupCallback_run, handleError_plain.
  by rewrite cleaned_resolved.
Qed.

Lemma handleTimeout_missing this k cmd w :
  assoc k (registry w this) = None → inherited k = false →
  handleTimeout this k cmd w = (Ok tt, w).
Proof.
  intros Hcb Hk. unfold handleTimeout. monad_unfold.
  by rewrite getCallbacks_run, (js_lookup_missing _ _ Hcb Hk).
Qed.

Lemma messageHandler_own this reply k cb w :
  get reply "messageId" = VStr k →
  assoc k (registry w this) = Some cb →
  messageHandler this reply w
  = (Ok tt, resolved (resolve cb) reply (cleaned this k w)).
Proof.
  intros Hk Hcb. unfold messageHandler. monad_unfold.
  assert (Hobj : truthy reply && is_object reply = true)
    by (by destruct reply).
  rewrite Hobj, Hk, getCallbacks_run, (js_lookup_own _ _ _ Hcb).
  by rewrite cleanupCallback_run, call_resolve_run.
Qed.

Lemma messageHandler_missing this reply k w :
  get reply "messageId" = VStr k →
  assoc k (registry w this) = None → inherited k = false →
  messageHandler this reply w = (Ok tt, w).
Proof.
  intros Hk Hcb Hin. unfold messageHandler. monad_unfold.
  destruct (truthy reply && is_object reply); [|done].
  by rewrite Hk, getCallbacks_run, (js_lookup_missing _ _ Hcb Hin).
Qed.

(** ** Teardown *)

Arguments getCallbacks : simpl never.
Arguments setCallbacks : simpl never.
Arguments call_resolve : simpl never.
Arguments clearCallbackTimeout : simpl never.
Arguments cleanupCallback : simpl never.
Arguments registry : simpl never.

Lemma torn_down_frame cbs w :
  settled (torn_down cbs w)
  = (settled w ++ ((λ kc, (resolve kc.2, destroyedResponse kc.1)) <$> cbs))%list
  ∧ nextPromise (torn_down cbs w) = nextPromise w
  ∧ nextTimer (torn_down cbs w) = nextTimer w
  ∧ instances (torn_down cbs w) = instances w
  ∧ instanceCount (torn_down cbs w) = instanceCount w
  ∧ listenerFn (torn_down cbs w) = listenerFn w
  ∧ listeners (torn_down cbs w) = listeners w
  ∧ uuidCount (torn_down cbs w) = uuidCount w.
Proof.
  revert w. induction cbs as [|[k cb] cbs IH]; intros w; cbn [torn_down].
  - rewrite app_nil_r. done.
  - destruct (IH (uncalled cb (resolved (resolve cb) (destroyedResponse k) w)))
      as (-> & -> & -> & -> & -> & -> & -> & ->).
    destruct (uncalled_frame cb (resolved (resolve cb) (destroyedResponse k) w))
      as (-> & -> & -> & -> & -> & -> & -> & ->).
    unfold resolved, exec, call_resolve, modify. cbn.
    rewrite <- app_assoc. done.
Qed.

Lemma torn_down_timers_sub cbs w id t :
  timers (torn_down cbs w) !! id = Some t → timers w !! id = Some t.
Proof.
  revert w. induction cbs as [|[k cb] cbs IH]; intros w; cbn [torn_down];
    [done|].
  intros H%IH. revert H. unfold uncalled, exec, clearCallbackTimeout.
  destruct (timeoutId cb) as [id'|]; [|done].
  destruct (truthy (VNum id')); [|done]. cbn.
  intros H. apply lookup_delete_Some in H. tauto.
Qed.

Lemma torn_down_cancelled cbs w k cb id :
  (k, cb) ∈ cbs → timeoutId cb = Some id → id ≠ 0 →
  timers (torn_down cbs w) !! id = None.
Proof.
  revert w. induction cbs as [|[k0 cb0] cbs IH]; intros w Hin Hid Hne.
  - by apply elem_of_nil in Hin.
  - cbn [torn_down]. apply elem_of_cons in Hin as [[= <- <-]|Hin].
    + destruct (timers (torn_down cbs _) !! id) as [t|] eqn:E; [|done].
      apply torn_down_timers_sub in E.
      rewrite (uncalled_timers _ _ _ Hid Hne), lookup_delete_eq in E. done.
    + by eapply IH.
Qed.

Lemma destroy_loop this cbs w :
  (∀ k cb, (k, cb) ∈ cbs → assoc k (registry w this) = Some cb) →
  forEach (keys cbs) (λ messageId,
    cbs ← getCallbacks this;
    match js_lookup cbs messageId with
    | Own callback =>
        call_resolve (resolve callback)
          (handleError "" (VStr messageId)
             {| opt_code := Some ErrorCode.TimeoutError;
                opt_message := Some "Connection destroyed";
                opt_data := VUndef |});;
        clearCallbackTimeout callback
    | Inherited => throw "callback.resolve is not a function"
    | Missing => mret tt
    end) w
  = (Ok tt, torn_down cbs w).
Proof.
  revert w. induction cbs as [|[k cb] cbs IH]; intros w Hall; [done|].
  cbn [keys fmap list_fmap fst forEach torn_down]. monad_unfold.
  rewrite getCallbacks_run.
  rewrite (js_lookup_own _ _ _ (Hall k cb ltac:(apply elem_of_cons; by left))).
  rewrite call_resolve_run, clearCallbackTimeout_run, handleError_plain.
  apply IH. intros k' cb' Hin.
  destruct (uncalled_frame cb
              (resolved (resolve cb) (destroyedResponse k) w))
    as (_ & _ & _ & Hi & _).
  rewrite registry_reg, Hi. apply Hall. apply elem_of_cons. by right.
Qed.

Lemma destroy_run this w :
  NoDup (keys (registry w this)) →
  destroy this w
  = (Ok tt, set_registry this [] (torn_down (registry w this) (released w))).
Proof.
  intros Hnd. unfold destroy, removeEventListener. monad_unfold.
  assert (Hloop : ∀ w0, registry w0 this = registry w this →
    forEach (keys (registry w this)) (λ messageId,
      cbs ← getCallbacks this;
      match js_lookup cbs messageId with
      | Own callback =>
          call_resolve (resolve callback)
            (handleError "" (VStr messageId)
               {| opt_code := Some ErrorCode.TimeoutError;
                  opt_message := Some "Connection destroyed";
                  opt_data := VUndef |});;
          clearCallbackTimeout callback
      | Inherited => throw "callback.resolve is not a function"
      | Missing => mret tt
      end) w0 = (Ok tt, torn_down (registry w this) w0)).
  { intros w0 Hr. apply destroy_loop. intros k cb Hin. rewrite Hr.
    by apply elem_assoc_NoDup. }
  unfold released. cbn.
  destruct (listenerFn w) as [fn|]; cbn.
  - unfold when. destruct (instanceCount w - 1 =? 0); cbn;
      rewrite getCallbacks_run; cbn [registry instances set_statics
        set_listeners]; monad_unfold;
      (rewrite Hloop by reflexivity); by rewrite setCallbacks_run.
  - rewrite getCallbacks_run. cbn [registry instances set_statics].
    monad_unfold. rewrite Hloop by reflexivity. by rewrite setCallbacks_run.
Qed.

Lemma released_frame w :
  settled (released w) = settled w
  ∧ nextPromise (released w) = nextPromise w
  ∧ nextTimer (released w) = nextTimer w
  ∧ timers (released w) = timers w
  ∧ instances (released w) = instances w
  ∧ uuidCount (released w) = uuidCount w.
Proof.
  unfold released. destruct (listenerFn w); [|done].
  by destruct (instanceCount w - 1 =? 0).
Qed.

Lemma destroyed_views this w :
  NoDup (keys (registry w this)) →
  settled (destroyed this w)
  = (settled w ++ ((λ kc, (resolve kc.2, destroyedResponse kc.1))
                     <$> registry w this))%list
  ∧ nextPromise (destroyed this w) = nextPromise w
  ∧ nextTimer (destroyed this w) = nextTimer w
  ∧ (∀ i, registry (destroyed this w) i
          = if bool_decide (i = this) then [] else registry w i)
  ∧ (∀ k cb id, (k, cb) ∈ registry w this → timeoutId cb = Some id →
                id ≠ 0 → timers (destroyed this w) !! id = None).
Proof.
  intros Hnd. unfold destroyed, exec. rewrite (destroy_run _ _ Hnd). cbn [snd].
  destruct (released_frame w) as (Hs & Hp & Ht & Htm & Hi & _).
  destruct (torn_down_frame (registry w this) (released w))
    as (Hs' & Hp' & Ht' & Hi' & _).
  split_and!.
  - change (settled (set_registry this [] ?W)) with (settled W).
    by rewrite Hs', Hs.
  - change (nextPromise (set_registry this [] ?W)) with (nextPromise W).
    by rewrite Hp', Hp.
  - change (nextTimer (set_registry this [] ?W)) with (nextTimer W).
    by rewrite Ht', Ht.
  - intros i. rewrite registry_set_registry.
    assert (Hreg : registry (torn_down (registry w this) (released w)) i
                   = registry w i).
    { unfold registry at 1 3. by rewrite Hi', Hi. }
    rewrite Hreg, Hi', Hi.
    case_bool_decide as H1; case_bool_decide as H2; try done.
    + by destruct H1.
    + subst i. rewrite registry_reg, reg_beyond; [done|].
      destruct (decide (this < length (instances w))%nat); [|lia].
      exfalso. by apply H1.
  - intros k cb id Hin Hid Hne.
    change (timers (set_registry this [] ?W)) with (timers W).
    by eapply torn_down_cancelled.
Qed.

Lemma wf_destroyed this w : wf w → wf (destroyed this w).
Proof.
  intros Hwf.
  destruct (destroyed_views this w (wf_keys _ Hwf this))
    as (Hs & Hp & Ht & Hr & _).
  destruct Hwf as [Ht0 Hs0 Ho Hk He Hd].
  assert (Hnew : ∀ p,
    p ∈ fst <$> ((λ kc : string * Callback,
                    (resolve kc.2, destroyedResponse kc.1))
                 <$> registry w this) →
    ∃ k cb, assoc k (registry w this) = Some cb ∧ resolve cb = p).
  { intros p ((q & v) & -> & ((k & cb) & [= -> ->] & Hin)%list_elem_of_fmap)
      %list_elem_of_fmap.
    exists k, cb. split; [|done]. by apply elem_assoc_NoDup. }
  split.
  - by rewrite Ht.
  - rewrite Hs, Hp, fmap_app. intros p [H|H]%elem_of_app; [by apply Hs0|].
    destruct (Hnew p H) as (k & cb & Hcb & <-).
    by destruct (He _ _ _ Hcb) as (? & ? & ? & ?).
  - rewrite Hs, fmap_app. apply NoDup_app. split_and!; [done| |].
    + intros p Hp0 H. destruct (Hnew p H) as (k & cb & Hcb & <-).
      by destruct (He _ _ _ Hcb) as (? & ? & ? & ?).
    + rewrite <- list_fmap_compose. apply NoDup_fmap_2_strong.
      * intros [k1 c1] [k2 c2] H1 H2 Heq. cbn in Heq.
        apply (elem_assoc_NoDup _ _ _ (Hk this)) in H1, H2.
        destruct (Hd _ _ _ _ _ _ H1 H2 Heq) as [_ ->]. congruence.
      * eapply NoDup_fmap_1, Hk.
  - intros i. rewrite Hr. case_bool_decide; [apply NoDup_nil_2 | done].
  - intros i k cb. rewrite Hr, Hs, Hp.
    case_bool_decide as Hi; [done|]. intros Hcb.
    destruct (He _ _ _ Hcb) as (? & ? & ? & ?). split_and!; try done.
    rewrite fmap_app. intros [H'|H']%elem_of_app; [done|].
    destruct (Hnew _ H') as (k' & cb' & Hcb' & Heq).
    destruct (Hd _ _ _ _ _ _ Hcb' Hcb Heq) as [<- _]. done.
  - intros i j k k' cb cb'. rewrite !Hr.
    repeat case_bool_decide; try done. apply Hd.
Qed.

(** ** One settlement keeps the invariant *)

Lemma wf_settle this k cb value w :
  wf w → assoc k (registry w this) = Some cb →
  wf (resolved (resolve cb) value (cleaned this k w)).
Proof.
  intros Hwf Hcb.
  destruct (wf_entry _ Hwf _ _ _ Hcb) as (Hvalid & Hlt & Hnew & _).
  destruct (valid_id_spec _ Hvalid) as [Hne _].
  destruct (cleaned_frame this k w) as (Hs & Hp & _).
  apply wf_resolved.
  - by apply wf_cleaned.
  - by rewrite Hp.
  - by rewrite Hs.
  - intros i k' cb' Hcb' Heq.
    destruct (cleaned_removed _ _ _ _ Hne Hcb) as [Hgone _].
    pose proof (cleaned_sub _ _ _ _ _ _ Hcb') as Hold.
    destruct (wf_distinct _ Hwf _ _ _ _ _ _ Hold Hcb Heq) as [-> ->].
    congruence.
Qed.

Lemma wf_handleTimeout this k cmd w :
  wf w → wf (exec (handleTimeout this k cmd) w).
Proof.
  intros Hwf. destruct (assoc k (registry w this)) as [cb|] eqn:Hcb.
  - unfold exec. rewrite (handleTimeout_own _ _ _ _ _ Hcb). by apply wf_settle.
  - unfold exec, handleTimeout. monad_unfold. rewrite getCallbacks_run.
    unfold js_lookup. rewrite Hcb. by destruct (inherited k).
Qed.

Lemma wf_messageHandler this reply w :
  wf w → wf (exec (messageHandler this reply) w).
Proof.
  intros Hwf. unfold exec, messageHandler. monad_unfold.
  destruct (truthy reply && is_object reply); [|done].
  destruct (get reply "messageId") as [| | | | |k| |] eqn:Hk; try done.
  rewrite getCallbacks_run.
  destruct (assoc k (registry w this)) as [cb|] eqn:Hcb.
  - rewrite (js_lookup_own _ _ _ Hcb).
    rewrite cleanupCallback_run, call_resolve_run. by apply wf_settle.
  - unfold js_lookup. rewrite Hcb. destruct (inherited k); [|done].
    rewrite cleanupCallback_run. by apply wf_cleaned.
Qed.

Lemma calls_resolved p q value w :
  calls p (resolved q value w)
  = (calls p w + if bool_decide (q = p) then 1 else 0)%nat.
Proof.
  unfold calls, resolved, exec, call_resolve, modify. cbn.
  rewrite filter_app, length_app. f_equal.
  rewrite filter_cons, filter_nil. cbn.
  destruct (decide (q = p)); by case_bool_decide.
Qed.

Lemma count_absent (l : list (nat * JsVal)) p :
  p ∉ fst <$> l → length (filter (λ s, s.1 = p) l) = 0%nat.
Proof.
  induction l as [|[q v] l IH]; [done|].
  rewrite fmap_cons, not_elem_of_cons. intros [Hne Hl]. cbn [fst] in Hne.
  rewrite filter_cons_False by (cbn; congruence). by apply IH.
Qed.

Lemma count_once (l : list (nat * JsVal)) p :
  NoDup (fst <$> l) → p ∈ fst <$> l →
  length (filter (λ s, s.1 = p) l) = 1%nat.
Proof.
  induction l as [|[q v] l IH]; rewrite ?fmap_cons.
  - intros _ H. by apply elem_of_nil in H.
  - cbn [fst]. intros [Hq Hnd]%NoDup_cons [->|Hin]%elem_of_cons.
    + rewrite filter_cons_True by done.
      cbn [length]. by rewrite count_absent.
    + rewrite filter_cons_False; [by apply IH|].
      cbn. intros ->. done.
Qed.

Lemma calls_absent p w : p ∉ fst <$> settled w → calls p w = 0%nat.
Proof. apply count_absent. Qed.

Lemma calls_once p w : wf w → p ∈ fst <$> settled w → calls p w = 1%nat.
Proof. intros Hwf. apply count_once, Hwf. Qed.

(** ** Sending *)

Ltac world_unfold :=
  unfold set_registry, promised, resolved, posting, armed, cleared, minted,
    exec, setCallbacks, newPromise, call_resolve, postMessage, setTimeout,
    clearTimeout, modify, gets in *;
  cbn in *.

Section Sending.
Variable randomUUID : nat → string.
Hypothesis randomUUID_valid : ∀ n, valid_id (randomUUID n) = true.

Lemma generateUniqueMessageId_run w :
  generateUniqueMessageId randomUUID w
  = (Ok (randomUUID (uuidCount w)), minted w).
Proof. reflexivity. Qed.

(** With a parent window: post, register, and arm a timer unless the
    command is fire-and-forget. *)
Lemma _sendMessage_parent this cmd payload w :
  parent w = true →
  let p := nextPromise w in
  let tok := randomUUID (uuidCount w) in
  let w1 := set_registry this
              (assign tok (pendingCall p None) (registry w this))
              (posting (outgoing cmd tok payload) (minted (promised w))) in
  _sendMessage randomUUID this cmd payload None w
  = (Ok p,
     if is_fire_and_forget cmd then w1
     else set_registry this
            (assign_timeoutId tok (nextTimer w) (registry w1 this))
            (armed this tok cmd (defaultTimeout (instances w !!! this)) w1)).
Proof.
  intros Hparent p tok w1. unfold _sendMessage, when. monad_unfold.
  cbn. rewrite Hparent. cbn.
  destruct (is_fire_and_forget cmd); reflexivity.
Qed.

(** Without one: answer at once, registering nothing. *)
Lemma _sendMessage_orphan this cmd payload w :
  parent w = false →
  let p := nextPromise w in
  let tok := randomUUID (uuidCount w) in
  _sendMessage randomUUID this cmd payload None w
  = (Ok p, resolved p (unreachableResponse tok)
             (cleaned this tok (minted (promised w)))).
Proof.
  intros Hparent p tok. unfold _sendMessage. monad_unfold.
  cbn. rewrite Hparent. cbn. rewrite cleanupCallback_run. reflexivity.
Qed.

Lemma wf_promised w : wf w → wf (promised w).
Proof. intros Hwf. apply (wf_frame w); try done; [apply Hwf | cbn; lia]. Qed.

Lemma wf__sendMessage this cmd payload w :
  wf w → wf (exec (_sendMessage randomUUID this cmd payload None) w).
Proof.
  intros Hwf. unfold exec.
  assert (Hfresh : ∀ i k cb, assoc k (registry w i) = Some cb →
                             resolve cb ≠ nextPromise w).
  { intros i k cb Hcb. destruct (wf_entry _ Hwf _ _ _ Hcb) as (_ & ? & _).
    lia. }
  assert (Hunsettled : nextPromise w ∉ fst <$> settled w).
  { intros H. apply (wf_settled _ Hwf) in H. lia. }
  destruct (parent w) eqn:Hparent.
  - rewrite (_sendMessage_parent _ _ _ _ Hparent). cbn [snd].
    set (w0 := posting _ (minted (promised w))).
    assert (Hw0 : wf w0).
    { apply (wf_frame w); try done; [apply Hwf | cbn; lia]. }
    assert (Hw1 : wf (set_registry this
              (assign (randomUUID (uuidCount w))
                 (pendingCall (nextPromise w) None) (registry w this)) w0)).
    { change (registry w this) with (registry w0 this).
      apply wf_assign; try done.
      all: try (cbn; lia).
      all: try (intros i k cb; apply Hfresh). }
    destruct (is_fire_and_forget cmd); [done|].
    set (w1 := set_registry this _ w0) in *.
    set (w2 := armed _ _ _ _ w1).
    change (registry w1 this) with (registry w2 this).
    apply wf_assign_timeoutId; [|apply Hwf].
    apply (wf_frame w1); try done.
    pose proof (wf_nextTimer _ Hwf).
    subst w2 w1 w0. world_unfold. lia.
  - rewrite (_sendMessage_orphan _ _ _ _ Hparent). cbn [snd].
    set (w0 := minted (promised w)).
    assert (Hw0 : wf w0).
    { apply (wf_frame w); try done; [apply Hwf | cbn; lia]. }
    destruct (cleaned_frame this (randomUUID (uuidCount w)) w0)
      as (Hs & Hp & _).
    apply wf_resolved.
    + by apply wf_cleaned.
    + rewrite Hp. cbn. lia.
    + by rewrite Hs.
    + intros i k cb Hcb%cleaned_sub. by eapply Hfresh.
Qed.

Lemma wf_Promise_resolve value w :
  wf w → wf (exec (Promise_resolve value) w).
Proof.
  intros Hwf. unfold exec, Promise_resolve, newPromise. monad_unfold.
  rewrite call_resolve_run. cbn [snd].
  apply wf_resolved.
  - by apply wf_promised.
  - cbn. lia.
  - intros H. apply (wf_settled _ Hwf) in H. lia.
  - intros i k cb Hcb. destruct (wf_entry _ Hwf _ _ _ Hcb) as (_ & ? & _).
    cbn in *. lia.
Qed.
End Sending.

(** ** Dispatch *)

Lemma set_uuidCount_here w : set_uuidCount (uuidCount w) w = w.
Proof. by destruct w. Qed.

Section Dispatch.
Variable randomUUID : nat → string.

Abbreviation Outcome := (Outcome randomUUID).

Lemma outcome_rebase P this cmd w n r :
  (uuidCount w ≤ n)%nat →
  Outcome P this cmd (set_uuidCount n w) r → Outcome P this cmd w r.
Proof.
  intros Hn [m code messageId Hm|m e Hm|m payload Hm HP];
    change (set_uuidCount m (set_uuidCount n w)) with (set_uuidCount m w);
    cbn in Hm.
  - apply Answered. lia.
  - apply Thrown. lia.
  - apply Forwarded; [lia | done].
Qed.

Lemma outcome_answer P this cmd w code messageId :
  Outcome P this cmd w (Promise_resolve (errorResponse code messageId) w).
Proof.
  rewrite <- (set_uuidCount_here w) at 2. by apply Answered.
Qed.

Lemma outcome_forward (P : JsVal → Prop) this cmd w payload :
  P payload →
  Outcome P this cmd w (_sendMessage randomUUID this cmd payload None w).
Proof.
  intros HP. rewrite <- (set_uuidCount_here w) at 2. by apply Forwarded.
Qed.

Lemma outcome_throw P this cmd w e : Outcome P this cmd w (Throw e, w).
Proof. rewrite <- (set_uuidCount_here w) at 2. by apply Thrown. Qed.

Lemma outcome_messageId P this cmd payload (k : JsVal → M nat) w :
  (∀ messageId w', Outcome P this cmd w' (k messageId w')) →
  Outcome P this cmd w ((messageId_of randomUUID payload ≫= k) w).
Proof.
  intros Hk. monad_unfold. rewrite messageId_of_run.
  destruct (truthy (get payload "messageId")); [apply Hk|].
  apply (outcome_rebase _ _ _ _ (S (uuidCount w))); [lia | apply Hk].
Qed.

Lemma outcome_invalid P this cmd w messageId message :
  Outcome P this cmd w (invalid cmd messageId message w).
Proof. apply outcome_answer. Qed.

Lemma outcome_reject_with P this cmd w messageId code message :
  Outcome P this cmd w (reject_with cmd messageId code message w).
Proof. apply outcome_answer. Qed.

Lemma envelope_data data : enveloped (VObj [("data", data)]).
Proof. by exists data, None. Qed.

Lemma envelope_sign data sign :
  enveloped (VObj [("data", data); ("sign", sign)]).
Proof. by exists data, (Some sign). Qed.

Lemma outcome_send_signed this cmd messageId data sigInfo w :
  Outcome enveloped this cmd w
    (send_signed randomUUID this cmd messageId data sigInfo w).
Proof.
  unfold send_signed.
  destruct (validateSigInfo sigInfo cmd messageId).
  - apply outcome_forward, envelope_sign.
  - apply outcome_reject_with.
Qed.

Ltac outcome_leaf :=
  first [ apply outcome_invalid
        | apply outcome_reject_with
        | apply outcome_send_signed
        | apply outcome_forward; first [apply envelope_data
                                       | apply envelope_sign]
        | apply outcome_throw ].

Ltac outcome_handler :=
  intros; apply outcome_messageId; intros;
  repeat match goal with
    | |- context [if ?b then _ else _] => destruct b
    end;
  outcome_leaf.

Lemma outcome_connectCocoPay this payload w :
  Outcome enveloped this "connectCocoPay" w
    (connectCocoPay randomUUID this payload w).
Proof. unfold connectCocoPay. outcome_handler. Qed.

Lemma outcome_openURL this payload w :
  Outcome enveloped this "openURL" w (openURL randomUUID this payload w).
Proof. unfold openURL. outcome_handler. Qed.

Lemma outcome_copyToClipboard this payload w :
  Outcome enveloped this "copyToClipboard" w
    (copyToClipboard randomUUID this payload w).
Proof. unfold copyToClipboard. outcome_handler. Qed.

Lemma outcome_generateSignature this payload w :
  Outcome enveloped this "generateSignature" w
    (generateSignature randomUUID this payload w).
Proof. unfold generateSignature. outcome_handler. Qed.

Lemma outcome_verifySignature this payload w :
  Outcome enveloped this "verifySignature" w
    (verifySignature randomUUID this payload w).
Proof. unfold verifySignature. outcome_handler. Qed.

Lemma outcome_encrypt this payload w :
  Outcome enveloped this "encrypt" w (encrypt randomUUID this payload w).
Proof. unfold encrypt. outcome_handler. Qed.

Lemma outcome_decrypt this payload w :
  Outcome enveloped this "decrypt" w (decrypt randomUUID this payload w).
Proof. unfold decrypt. outcome_handler. Qed.

Lemma outcome_registerService this payload sigInfo w :
  Outcome enveloped this "registerService" w
    (registerService randomUUID this payload sigInfo w).
Proof. unfold registerService. outcome_handler. Qed.

Lemma outcome_checkServiceStatus this sigInfo w :
  Outcome enveloped this "checkServiceStatus" w
    (checkServiceStatus randomUUID this sigInfo w).
Proof. unfold checkServiceStatus. outcome_handler. Qed.

Lemma outcome_sendServiceMessage this payload sigInfo w :
  Outcome enveloped this "sendServiceMessage" w
    (sendServiceMessage randomUUID this payload sigInfo w).
Proof. unfold sendServiceMessage. outcome_handler. Qed.

Lemma outcome_getSafeAreaInsets this w :
  Outcome enveloped this "getSafeAreaInsets" w
    (getSafeAreaInsets randomUUID this w).
Proof. apply outcome_forward, envelope_data. Qed.

Lemma outcome_getLanguage this w :
  Outcome enveloped this "getLanguage" w (getLanguage randomUUID this w).
Proof. apply outcome_forward, envelope_data. Qed.

Lemma outcome_scanQRCode this w :
  Outcome enveloped this "scanQRCode" w (scanQRCode randomUUID this w).
Proof. apply outcome_forward, envelope_data. Qed.

Lemma outcome_getExtendedData this w :
  Outcome enveloped this "getExtendedData" w
    (getExtendedData randomUUID this w).
Proof. apply outcome_forward, envelope_data. Qed.

Lemma outcome_saveImage this payload w :
  Outcome enveloped this "saveImage" w (saveImage randomUUID this payload w).
Proof.
  unfold saveImage. apply outcome_messageId. intros messageId w'.
  destruct (get payload "image"); try apply outcome_invalid.
  destruct (_ || _); [apply outcome_invalid|].
  monad_unfold.
  destruct (maxSizeInBytes <? bytes (getBase64ImageSize s)).
  - apply outcome_reject_with.
  - apply outcome_forward, envelope_data.
Qed.

Lemma outcome_getAccount this payload w :
  Outcome enveloped this "getAccount" w
    (getAccount randomUUID this payload w).
Proof.
  unfold getAccount. apply outcome_messageId. intros messageId w'.
  unfold has_in. monad_unfold.
  destruct (truthy payload).
  - destruct payload; cbv beta iota; try apply outcome_throw;
      repeat match goal with
        | |- context [if ?b then _ else _] => destruct b
        end; outcome_leaf.
  - cbv beta iota. apply outcome_forward, envelope_data.
Qed.

Lemma outcome_setExtendedData this payload w :
  Outcome enveloped this "setExtendedData" w
    (setExtendedData randomUUID this payload w).
Proof.
  unfold setExtendedData. apply outcome_messageId. intros messageId w'.
  unfold has_in. monad_unfold.
  destruct (truthy payload); cbv beta iota; [|apply outcome_invalid].
  destruct payload; cbv beta iota; try apply outcome_throw;
    repeat match goal with
      | |- context [if ?b then _ else _] => destruct b
      end; outcome_leaf.
Qed.

(** [_sendMessage] returns its promise; it never throws. *)
Lemma _sendMessage_returns this cmd payload w :
  ∃ w', _sendMessage randomUUID this cmd payload None w
        = (Ok (nextPromise w), w').
Proof.
  destruct (parent w) eqn:Hparent.
  - rewrite (_sendMessage_parent _ _ _ _ _ Hparent). eauto.
  - rewrite (_sendMessage_orphan _ _ _ _ _ Hparent). eauto.
Qed.

Lemma outcome_try_catch P this cmd messageId (m : M nat) w :
  Outcome P this cmd w (m w) →
  Outcome P this cmd w (try_catch m (caught cmd messageId) w)
  ∧ ∃ p w', try_catch m (caught cmd messageId) w = (Ok p, w').
Proof.
  unfold try_catch. intros H.
  inversion H as [n code mid Hn Hr|n e Hn Hr|n pl Hn HP Hr].
  - cbn. split; [by apply Answered | eauto].
  - split; [by apply Answered | unfold caught, Promise_resolve; cbn; eauto].
  - destruct (_sendMessage_returns this cmd pl (set_uuidCount n w))
      as [w' Hw']. rewrite Hw'. split; [|eauto].
    rewrite <- Hw'. by apply Forwarded.
Qed.
End Dispatch.

Section SendMessage.
Variable randomUUID : nat → string.

Abbreviation Outcome := (Outcome randomUUID).

Lemma outcome_weaken (P Q : JsVal → Prop) this cmd w r :
  (∀ payload, P payload → Q payload) →
  Outcome P this cmd w r → Outcome Q this cmd w r.
Proof.
  intros HPQ [n code messageId Hn|n e Hn|n payload Hn HP].
  - by apply Answered.
  - by apply Thrown.
  - apply Forwarded; [done | by apply HPQ].
Qed.

Lemma outcome_member P this cmd v key (k : JsVal → M nat) w :
  (∀ x, Outcome P this cmd w (k x w)) →
  Outcome P this cmd w ((member v key ≫= k) w).
Proof.
  intros Hk. unfold member. monad_unfold.
  destruct (is_null v || is_undefined v); [apply outcome_throw | apply Hk].
Qed.

(** The guarded part of [sendMessage]: whatever the handler does, the
    caller gets a promise. *)
Lemma dispatch_caught P this cmd payload (m : M nat) w :
  (∀ w', Outcome P this cmd w' (m w')) →
  let r := (messageId_of randomUUID payload
              ≫= λ messageId, try_catch m (caught cmd messageId)) w in
  Outcome P this cmd w r ∧ returns r.
Proof.
  intros Hm r. subst r. monad_unfold. rewrite messageId_of_run.
  destruct (truthy (get payload "messageId")).
  - apply (outcome_try_catch randomUUID), Hm.
  - destruct (outcome_try_catch randomUUID P this cmd
                (VStr (randomUUID (uuidCount w))) m
                (set_uuidCount (S (uuidCount w)) w) (Hm _)) as [H1 H2].
    split; [|done]. eapply outcome_rebase; [|exact H1]. lia.
Qed.

Ltac known_command :=
  intros [= <-]; cbn [type handler];
  apply dispatch_caught; intros;
  repeat (apply outcome_member; intros);
  first [ apply outcome_connectCocoPay | apply outcome_getSafeAreaInsets
        | apply outcome_getLanguage | apply outcome_openURL
        | apply outcome_scanQRCode | apply outcome_copyToClipboard
        | apply outcome_saveImage | apply outcome_getAccount
        | apply outcome_setExtendedData | apply outcome_getExtendedData
        | apply outcome_generateSignature | apply outcome_verifySignature
        | apply outcome_encrypt | apply outcome_decrypt
        | apply outcome_registerService | apply outcome_checkServiceStatus
        | apply outcome_sendServiceMessage ].

(** A command of the table reaches the window only through its handler,
    so what is sent is an envelope; and the caller always gets a
    promise. *)
Lemma sendMessage_known this cmd payload c w :
  js_lookup (commandMap randomUUID this) cmd = Own c →
  Outcome enveloped this cmd w (sendMessage randomUUID this cmd payload w)
  ∧ returns (sendMessage randomUUID this cmd payload w).
Proof.
  unfold sendMessage. fold (given payload). intros Hc. rewrite Hc.
  revert Hc. unfold js_lookup, commandMap. cbn [assoc].
  repeat match goal with
    | |- context [String.eqb cmd ?s] =>
        destruct (String.eqb_spec cmd s) as [->|?]
    end.
  all: try known_command.
  by destruct (inherited cmd).
Qed.

(** Any other command name is passed through with the caller's payload
    as it is. *)
Lemma sendMessage_unknown this cmd payload w :
  (∀ c, js_lookup (commandMap randomUUID this) cmd ≠ Own c) →
  Outcome (λ sent, sent = given payload) this cmd w
    (sendMessage randomUUID this cmd payload w)
  ∧ returns (sendMessage randomUUID this cmd payload w).
Proof.
  unfold sendMessage. fold (given payload). intros Hc.
  destruct (js_lookup (commandMap randomUUID this) cmd) as [c| |].
  - by destruct (Hc c).
  - monad_unfold. rewrite messageId_of_run.
    destruct (truthy (get (given payload) "messageId")).
    + split; [by apply outcome_forward|].
      destruct (_sendMessage_returns randomUUID this cmd (given payload) w)
        as [w' ->]. by eexists _, _.
    + split; [apply (Forwarded _ _ _ _ _ (S (uuidCount w))); [lia|done]|].
      destruct (_sendMessage_returns randomUUID this cmd (given payload)
                  (set_uuidCount (S (uuidCount w)) w)) as [w' ->].
      by eexists _, _.
  - split; [by apply outcome_forward|].
    destruct (_sendMessage_returns randomUUID this cmd (given payload) w)
      as [w' ->]. by eexists _, _.
Qed.

(** [sendMessage] never throws. *)
Lemma sendMessage_returns this cmd payload w :
  returns (sendMessage randomUUID this cmd payload w).
Proof.
  destruct (js_lookup (commandMap randomUUID this) cmd) as [c| |] eqn:Hc.
  - by apply (sendMessage_known _ _ _ c).
  - apply sendMessage_unknown. intros c. by rewrite Hc.
  - apply sendMessage_unknown. intros c. by rewrite Hc.
Qed.

Lemma outcome_sendMessage this cmd payload w :
  Outcome (λ sent, enveloped sent ∨ sent = given payload) this cmd w
    (sendMessage randomUUID this cmd payload w).
Proof.
  destruct (js_lookup (commandMap randomUUID this) cmd) as [c| |] eqn:Hc.
  - eapply outcome_weaken; [|by apply (sendMessage_known _ _ _ c)].
    by left.
  - eapply outcome_weaken; [|apply sendMessage_unknown].
    + by right.
    + intros c. by rewrite Hc.
  - eapply outcome_weaken; [|apply sendMessage_unknown].
    + by right.
    + intros c. by rewrite Hc.
Qed.
End SendMessage.

(** ** The event loop keeps the invariant *)

Lemma evolves_refl w : wf w → evolves w w.
Proof. by split. Qed.

Lemma evolves_trans w1 w2 w3 : evolves w1 w2 → evolves w2 w3 → evolves w1 w3.
Proof. intros [_ H1] [Hwf H2]. split; [done | by etrans]. Qed.

Lemma evolves_same w w' : wf w' → settled w' = settled w → evolves w w'.
Proof. intros Hwf Hs. split; [done | by rewrite Hs]. Qed.

Lemma constructor_effect config w :
  if is_null config then exec (constructor config) w = w
  else
    ∃ inst,
      messageCallbacks inst = []
      ∧ defaultTimeout inst
        = (if truthy (get (given config) "timeout")
           then get (given config) "timeout" else VNum 30000)
      ∧ instances (exec (constructor config) w) = (instances w ++ [inst])%list
      ∧ settled (exec (constructor config) w) = settled w
      ∧ nextPromise (exec (constructor config) w) = nextPromise w
      ∧ nextTimer (exec (constructor config) w) = nextTimer w
      ∧ timers (exec (constructor config) w) = timers w
      ∧ instanceCount (exec (constructor config) w) = instanceCount w + 1
      ∧ listenerFn (exec (constructor config) w)
        = Some (default (length (instances w)) (listenerFn w))
      ∧ listeners (exec (constructor config) w)
        = match listenerFn w with
          | Some _ => listeners w
          | None => (listeners w ++ [length (instances w)])%list
          end.
Proof.
  unfold exec, constructor, member, addEventListener. fold (given config).
  monad_unfold.
  destruct config; cbn; try done;
    (eexists {| defaultTimeout := _; messageCallbacks := [] |};
     destruct (listenerFn w); cbn; split_and!; done).
Qed.

Lemma evolves_constructor config w :
  wf w → evolves w (exec (constructor config) w).
Proof.
  intros Hwf. pose proof (constructor_effect config w) as H.
  destruct (is_null config).
  - rewrite H. by apply evolves_refl.
  - destruct H as (inst & Hempty & _ & Hi & Hs & Hp & Ht & _).
    apply evolves_same; [|done]. apply (wf_frame w); try done.
    + rewrite Ht. apply Hwf.
    + by rewrite Hp.
    + intros i. rewrite !registry_reg, Hi. by apply reg_snoc.
Qed.

Lemma evolves_resolved p value w : wf (resolved p value w) →
  evolves w (resolved p value w).
Proof. intros Hwf. split; [done|]. by apply prefix_app_r. Qed.

Lemma evolves_handleTimeout this k cmd w :
  wf w → evolves w (exec (handleTimeout this k cmd) w).
Proof.
  intros Hwf. split; [by apply wf_handleTimeout|].
  destruct (assoc k (registry w this)) as [cb|] eqn:Hcb.
  - unfold exec. rewrite (handleTimeout_own _ _ _ _ _ Hcb). cbn [snd].
    destruct (cleaned_frame this k w) as (Hs & _).
    change (settled (resolved ?p ?v ?W)) with (settled W ++ [(p, v)])%list.
    rewrite Hs. by apply prefix_app_r.
  - unfold exec, handleTimeout. monad_unfold. rewrite getCallbacks_run.
    unfold js_lookup. rewrite Hcb. by destruct (inherited k).
Qed.

Lemma evolves_messageHandler this reply w :
  wf w → evolves w (exec (messageHandler this reply) w).
Proof.
  intros Hwf. split; [by apply wf_messageHandler|].
  unfold exec, messageHandler. monad_unfold.
  destruct (truthy reply && is_object reply); [|done].
  destruct (get reply "messageId") as [| | | | |k| |] eqn:Hk; try done.
  rewrite getCallbacks_run.
  destruct (cleaned_frame this k w) as (Hs & _).
  destruct (js_lookup (registry w this) k) as [cb| |]; [| |done].
  - rewrite cleanupCallback_run, call_resolve_run. cbn [snd].
    change (settled (resolved ?p ?v ?W)) with (settled W ++ [(p, v)])%list.
    rewrite Hs. by apply prefix_app_r.
  - rewrite cleanupCallback_run. cbn [snd]. by rewrite Hs.
Qed.

Lemma evolves_destroyed this w : wf w → evolves w (destroyed this w).
Proof.
  intros Hwf. split; [by apply wf_destroyed|].
  destruct (destroyed_views this w (wf_keys _ Hwf this)) as (-> & _).
  by apply prefix_app_r.
Qed.

Section Loop.
Variable randomUUID : nat → string.
Hypothesis randomUUID_valid : ∀ n, valid_id (randomUUID n) = true.

Lemma wf_set_uuidCount n w : wf w → wf (set_uuidCount n w).
Proof. intros Hwf. apply (wf_frame w); try done. apply Hwf. Qed.

Lemma evolves__sendMessage this cmd payload w :
  wf w → evolves w (exec (_sendMessage randomUUID this cmd payload None) w).
Proof.
  intros Hwf. split; [by apply wf__sendMessage|].
  unfold exec. destruct (parent w) eqn:Hparent.
  - rewrite (_sendMessage_parent _ _ _ _ _ Hparent). cbn [snd].
    by destruct (is_fire_and_forget cmd).
  - rewrite (_sendMessage_orphan _ _ _ _ _ Hparent). cbn [snd].
    destruct (cleaned_frame this (randomUUID (uuidCount w))
                (minted (promised w))) as (Hs & _).
    change (settled (resolved ?p ?v ?W)) with (settled W ++ [(p, v)])%list.
    rewrite Hs. by apply prefix_app_r.
Qed.

Lemma evolves_sendMessage this cmd payload w :
  wf w → evolves w (exec (sendMessage randomUUID this cmd payload) w).
Proof.
  intros Hwf. unfold exec.
  destruct (outcome_sendMessage randomUUID this cmd payload w)
    as [n code messageId Hn|n e Hn|n sent Hn _].
  - split.
    + by apply wf_Promise_resolve, wf_set_uuidCount.
    + by apply prefix_app_r.
  - by apply evolves_same; [apply wf_set_uuidCount|].
  - apply (evolves_trans _ (set_uuidCount n w)).
    + by apply evolves_same; [apply wf_set_uuidCount|].
    + by apply evolves__sendMessage, wf_set_uuidCount.
Qed.

Lemma evolves_dispatchMessage data w :
  wf w → evolves w (dispatchMessage data w).
Proof.
  unfold dispatchMessage. generalize (listeners w). intros fns.
  revert w. induction fns as [|fn fns IH]; intros w Hwf; cbn.
  - by apply evolves_refl.
  - pose proof (evolves_messageHandler fn data w Hwf) as H.
    eapply evolves_trans; [exact H|]. apply IH, H.
Qed.

Lemma evolves_fireTimer id w : wf w → evolves w (fireTimer id w).
Proof.
  intros Hwf. unfold fireTimer. destruct (timers w !! id) as [t|];
    [|by apply evolves_refl].
  set (w0 := set_timers _ _ w).
  assert (Hw0 : wf w0) by (apply (wf_frame w); try done; apply Hwf).
  apply (evolves_trans _ w0); [by apply evolves_same|].
  by apply evolves_handleTimeout.
Qed.

Lemma evolves_step w e : wf w → evolves w (step randomUUID w e).
Proof.
  intros Hwf. destruct e as [config|this cmd payload|this|data|id]; cbn.
  - by apply evolves_constructor.
  - case_bool_decide; [by apply evolves_sendMessage | by apply evolves_refl].
  - case_bool_decide; [by apply evolves_destroyed | by apply evolves_refl].
  - by apply evolves_dispatchMessage.
  - by apply evolves_fireTimer.
Qed.

Lemma evolves_run w es : wf w → evolves w (run randomUUID w es).
Proof.
  revert w. induction es as [|e es IH]; intros w Hwf; cbn.
  - by apply evolves_refl.
  - pose proof (evolves_step w e Hwf) as H.
    eapply evolves_trans; [exact H|]. apply IH, H.
Qed.

(** Every world the page reaches satisfies the invariant. *)
Lemma wf_run has_parent es : wf (run randomUUID (initial has_parent) es).
Proof. apply evolves_run, wf_initial. Qed.
End Loop.

(** ** Exactly-once settlement *)

Section ExactlyOnce.
Variable randomUUID : nat → string.
Hypothesis randomUUID_valid : ∀ n, valid_id (randomUUID n) = true.

Lemma settlement_effect this k cb w w' :
  wf w → assoc k (registry w this) = Some cb →
  settlement this k w w' →
  wf w'
  ∧ resolve cb ∈ fst <$> settled w'
  ∧ assoc k (registry w' this) = None
  ∧ ∀ id, timeoutId cb = Some id → timers w' !! id = None.
Proof.
  intros Hwf Hcb Hsettle.
  destruct (wf_entry _ Hwf _ _ _ Hcb) as (Hvalid & Hlt & Hnew & Hid).
  destruct (valid_id_spec _ Hvalid) as [Hne Hninh].
  assert (Hpath : ∀ value,
    let w1 := resolved (resolve cb) value (cleaned this k w) in
    wf w1 ∧ resolve cb ∈ fst <$> settled w1
    ∧ assoc k (registry w1 this) = None
    ∧ ∀ id, timeoutId cb = Some id → timers w1 !! id = None).
  { intros value w1. subst w1.
    destruct (cleaned_removed _ _ _ _ Hne Hcb) as [Hgone Htimer].
    split_and!.
    - by apply wf_settle.
    - change (settled (resolved ?p ?v ?W))
        with (settled W ++ [(p, v)])%list.
      rewrite fmap_app. apply elem_of_app. right. cbn.
      apply list_elem_of_singleton. done.
    - exact Hgone.
    - intros id Hsome. apply Htimer; [done|].
      specialize (Hid _ Hsome). lia. }
  destruct Hsettle as [reply Hk|cmd|].
  - unfold exec. rewrite (messageHandler_own _ _ _ _ _ Hk Hcb). apply Hpath.
  - unfold exec. rewrite (handleTimeout_own _ _ _ _ _ Hcb). apply Hpath.
  - fold (destroyed this w).
    destruct (destroyed_views this w (wf_keys _ Hwf this))
      as (Hs & _ & _ & Hr & Ht).
    split_and!.
    + by apply wf_destroyed.
    + rewrite Hs, fmap_app. apply elem_of_app. right.
      rewrite <- list_fmap_compose. apply list_elem_of_fmap.
      exists (k, cb). split; [done|]. by apply assoc_Some_elem.
    + rewrite Hr. by rewrite bool_decide_eq_true_2.
    + intros id Hsome. apply (Ht k cb); [by apply assoc_Some_elem|done|].
      specialize (Hid _ Hsome). lia.
Qed.

(** C1: once a pending call has been settled, by a reply, by its timer
    or by the teardown of its instance, its identifier is absent from
    the registry, its timer is cancelled, and its continuation has been
    invoked exactly once; a late reply and a late timer expiry change
    nothing at all, and whatever the page does afterwards the
    continuation is never invoked a second time. *)
Theorem settled_exactly_once (has_parent : bool) (es : list Event)
    (this : nat) (messageId : string) (callback : Callback) (w' : World) :
  let w := run randomUUID (initial has_parent) es in
  assoc messageId (registry w this) = Some callback →
  settlement this messageId w w' →
  js_lookup (registry w' this) messageId = Missing
  ∧ (∀ id, timeoutId callback = Some id → timers w' !! id = None)
  ∧ calls (resolve callback) w = 0%nat
  ∧ calls (resolve callback) w' = 1%nat
  ∧ (∀ reply, get reply "messageId" = VStr messageId →
              messageHandler this reply w' = (Ok tt, w'))
  ∧ (∀ cmd, handleTimeout this messageId cmd w' = (Ok tt, w'))
  ∧ (∀ es', calls (resolve callback) (run randomUUID w' es') = 1%nat).
Proof.
  intros w Hcb Hsettle.
  assert (Hwf : wf w) by by apply wf_run.
  destruct (wf_entry _ Hwf _ _ _ Hcb) as (Hvalid & _ & Hnew & _).
  destruct (valid_id_spec _ Hvalid) as [_ Hninh].
  destruct (settlement_effect _ _ _ _ _ Hwf Hcb Hsettle)
    as (Hwf' & Hin & Hgone & Htimer).
  split_and!.
  - by apply js_lookup_missing.
  - exact Htimer.
  - by apply calls_absent.
  - by apply calls_once.
  - intros reply Hk. by apply (messageHandler_missing _ _ messageId).
  - intros cmd. by apply handleTimeout_missing.
  - intros es'.
    destruct (evolves_run randomUUID randomUUID_valid w' es' Hwf')
      as [Hwf'' [more Hmore]].
    apply calls_once; [done|].
    rewrite Hmore, fmap_app. apply elem_of_app. by left.
Qed.
End ExactlyOnce.

Lemma uuid_valid n : valid_id (uuid n) = true.
Proof. reflexivity. Qed.

Lemma settled_exactly_once_witness :
  let w := run uuid (initial true) [New VUndef; Send 0 "getLanguage" VUndef] in
  let reply := VObj [("messageId", VStr (uuid 1)); ("code", VNum 200)] in
  let w' := exec (messageHandler 0 reply) w in
  assoc (uuid 1) (registry w 0) = Some (pendingCall 0 (Some 1))
  ∧ calls 0 w' = 1%nat
  ∧ timers w' !! 1 = None.
Proof.
  intros w reply w'.
  assert (Hcb : assoc (uuid 1) (registry w 0) = Some (pendingCall 0 (Some 1)))
    by reflexivity.
  destruct (settled_exactly_once uuid uuid_valid true
              [New VUndef; Send 0%nat "getLanguage" VUndef]
              0%nat (uuid 1) (pendingCall 0 (Some 1)) w' Hcb
              (by_reply 0 (uuid 1) w reply eq_refl))
    as (_ & Htimer & _ & Hcalls & _).
  split_and!; [exact Hcb | exact Hcalls | by apply Htimer].
Defined.

(** ** The code at particular inputs *)

(** C2, evaluated: with two instances, the one listener is the first
    instance's handler.  A reply to a call of the second instance leaves
    that call registered and unsettled; the same reply given to the second
    instance's own handler would settle it. *)
Lemma reply_to_second_instance_ignored :
  let w := run uuid (initial true)
             [New VUndef; New VUndef; Send 1 "getLanguage" VUndef] in
  let reply := VObj [("messageId", VStr (uuid 1)); ("code", VNum 200);
                     ("cmd", VStr "getLanguage")] in
  let w' := step uuid w (Message reply) in
  listeners w = [0%nat]
  ∧ listenerFn w = Some 0%nat
  ∧ assoc (uuid 1) (registry w 1) = Some (pendingCall 0 (Some 1))
  ∧ assoc (uuid 1) (registry w' 1) = Some (pendingCall 0 (Some 1))
  ∧ settled w' = []
  ∧ settled (exec (messageHandler 1 reply) w) = [(0%nat, reply)].
Proof. cbv zeta. split_and!; by vm_compute. Qed.

(** C3, evaluated: a command that is not in the table is sent with the
    caller's payload spread over the protocol fields, so a payload with
    its own [cmd] and [messageId] replaces both, while the call is
    registered under the identifier that was generated. *)
Lemma passthrough_payload_overwrites_reserved_fields :
  let payload := VObj [("messageId", VStr "mine"); ("cmd", VStr "other")] in
  let w := run uuid (initial true) [New VUndef; Send 0 "custom" payload] in
  posted w = [VObj [("cmd", VStr "other"); ("messageId", VStr "mine")]]
  ∧ keys (registry w 0) = [uuid 0]
  ∧ outgoing "custom" (uuid 0) payload
    ≠ VObj [("cmd", VStr "custom"); ("messageId", VStr (uuid 0))].
Proof. cbv zeta. split_and!; by vm_compute. Qed.

(** C4, evaluated: [destroy] settles the pending call with code 30011,
    cancels its timer and empties the registry; the response has no
    [message] property. *)
Lemma destroy_response_without_message :
  let w := run uuid (initial true)
             [New VUndef; New VUndef; Send 0 "getLanguage" VUndef] in
  let w' := step uuid w (Destroy 0) in
  keys (registry w 0) = [uuid 1]
  ∧ settled w'
    = [(0%nat, VObj [("code", VNum 30011); ("messageId", VStr (uuid 1))])]
  ∧ registry w' 0 = []
  ∧ timers w' !! 1 = None
  ∧ get (VObj [("code", VNum 30011); ("messageId", VStr (uuid 1))]) "message"
    = VUndef.
Proof. cbv zeta. split_and!; by vm_compute. Qed.

(** C6, evaluated: without a parent window the call is answered at once
    with code 30001 and nothing is registered or posted; the response has
    no [message] property. *)
Lemma unreachable_response_without_message :
  let payload := VObj [("url", VStr "https://example.com")] in
  let w := run uuid (initial false) [New VUndef; Send 0 "openURL" payload] in
  settled w
  = [(0%nat, VObj [("code", VNum 30001); ("messageId", VStr (uuid 2))])]
  ∧ registry w 0 = []
  ∧ posted w = []
  ∧ get (VObj [("code", VNum 30001); ("messageId", VStr (uuid 2))]) "message"
    = VUndef.
Proof. cbv zeta. split_and!; by vm_compute. Qed.

(** C7, counterexample: an override of 0 given at construction is not the
    delay of the timer; the timer is armed at 30000. *)
Lemma zero_override_not_armed :
  let w := run uuid (initial true)
             [New (VObj [("timeout", VNum 0)]); Send 0 "getLanguage" VUndef] in
  timer_delay <$> timers w !! 1 = Some (VNum 30000)
  ∧ timer_delay <$> timers w !! 1 ≠ Some (VNum 0).
Proof. cbv zeta. split_and!; by vm_compute. Qed.

(** ** The shared listener *)

Lemma same_page_refl w : same_page w w.
Proof. by repeat split. Qed.

Lemma same_page_trans w1 w2 w3 :
  same_page w1 w2 → same_page w2 w3 → same_page w1 w3.
Proof.
  intros (H1 & H2 & H3 & H4 & H5 & H6) (H1' & H2' & H3' & H4' & H5' & H6').
  unfold same_page.
  split_and!; first [congruence | intros i; by rewrite H6', H6].
Qed.

Lemma defaultTimeout_alter cbs (this : nat) (insts : list Instance) (i : nat) :
  defaultTimeout
    (alter (λ x, {| defaultTimeout := defaultTimeout x;
                    messageCallbacks := cbs |}) this insts !!! i)
  = defaultTimeout (insts !!! i).
Proof.
  rewrite !list_lookup_total_alt.
  destruct (decide (i = this)) as [->|Hne].
  - rewrite list_lookup_alter_eq. by destruct (insts !! this).
  - by rewrite list_lookup_alter_ne.
Qed.

Lemma same_page_set_registry this cbs w : same_page w (set_registry this cbs w).
Proof.
  unfold same_page, set_registry, exec, setCallbacks, modify. cbn.
  split_and!; try done.
  - apply length_alter.
  - intros i. apply defaultTimeout_alter.
Qed.

Lemma same_page_uncalled cb w : same_page w (uncalled cb w).
Proof.
  unfold uncalled, exec, clearCallbackTimeout.
  destruct (timeoutId cb) as [id|]; [destruct (truthy (VNum id))|];
    by repeat split.
Qed.

Lemma same_page_cleaned this k w : same_page w (cleaned this k w).
Proof.
  unfold cleaned, exec, cleanupCallback. monad_unfold.
  rewrite getCallbacks_run.
  destruct (String.eqb k ""); [by repeat split|].
  destruct (js_lookup (registry w this) k) as [cb| |];
    try by repeat split.
  rewrite clearCallbackTimeout_run, setCallbacks_run. cbn [snd].
  eapply same_page_trans; [apply (same_page_uncalled cb)|].
  apply same_page_set_registry.
Qed.

Lemma same_page_settle this k p value w :
  same_page w (resolved p value (cleaned this k w)).
Proof. apply (same_page_cleaned this k w). Qed.

Lemma same_page_handleTimeout this k cmd w :
  same_page w (exec (handleTimeout this k cmd) w).
Proof.
  unfold exec, handleTimeout. monad_unfold. rewrite getCallbacks_run.
  destruct (js_lookup (registry w this) k) as [cb| |];
    try apply same_page_refl.
  rewrite call_resolve_run, cleanupCallback_run. cbn [snd].
  rewrite cleaned_resolved. apply same_page_settle.
Qed.

Lemma same_page_messageHandler this reply w :
  same_page w (exec (messageHandler this reply) w).
Proof.
  unfold exec, messageHandler. monad_unfold.
  destruct (truthy reply && is_object reply); [|apply same_page_refl].
  destruct (get reply "messageId") as [| | | | |k| |];
    try apply same_page_refl.
  rewrite getCallbacks_run.
  destruct (js_lookup (registry w this) k) as [cb| |].
  - rewrite cleanupCallback_run, call_resolve_run. apply same_page_settle.
  - rewrite cleanupCallback_run. apply same_page_cleaned.
  - apply same_page_refl.
Qed.

Section Listener.
Variable randomUUID : nat → string.

Lemma same_page__sendMessage this cmd payload w :
  same_page w (exec (_sendMessage randomUUID this cmd payload None) w).
Proof.
  unfold exec. destruct (parent w) eqn:Hparent.
  - rewrite (_sendMessage_parent _ _ _ _ _ Hparent). cbn [snd].
    set (w0 := posting _ (minted (promised w))).
    assert (H0 : same_page w w0) by by repeat split.
    set (w1 := set_registry this _ w0).
    assert (H1 : same_page w w1).
    { eapply same_page_trans; [exact H0|]. apply same_page_set_registry. }
    destruct (is_fire_and_forget cmd); [done|].
    set (w2 := armed _ _ _ _ w1).
    assert (H2 : same_page w w2) by apply H1.
    eapply same_page_trans; [exact H2|]. apply same_page_set_registry.
  - rewrite (_sendMessage_orphan _ _ _ _ _ Hparent). cbn [snd].
    apply (same_page_trans _ (minted (promised w))); [by repeat split|].
    apply same_page_settle.
Qed.

Lemma same_page_sendMessage this cmd payload w :
  same_page w (exec (sendMessage randomUUID this cmd payload) w).
Proof.
  unfold exec.
  destruct (outcome_sendMessage randomUUID this cmd payload w)
    as [n code messageId Hn|n e Hn|n sent Hn _].
  - by repeat split.
  - by repeat split.
  - apply (same_page_trans _ (set_uuidCount n w)); [by repeat split|].
    apply same_page__sendMessage.
Qed.

Lemma same_page_dispatchMessage data w :
  same_page w (dispatchMessage data w).
Proof.
  unfold dispatchMessage. generalize (listeners w). intros fns.
  revert w. induction fns as [|fn fns IH]; intros w; cbn.
  - apply same_page_refl.
  - eapply same_page_trans; [apply (same_page_messageHandler fn data)|].
    apply IH.
Qed.

Lemma same_page_fireTimer id w : same_page w (fireTimer id w).
Proof.
  unfold fireTimer. destruct (timers w !! id) as [t|];
    [|apply same_page_refl].
  eapply same_page_trans; [|apply same_page_handleTimeout].
  by repeat split.
Qed.
End Listener.

Lemma destroyed_page this w :
  wf w →
  instanceCount (destroyed this w) = instanceCount w - 1
  ∧ listenerFn (destroyed this w)
    = (if instanceCount w - 1 =? 0 then None else listenerFn w)
  ∧ listeners (destroyed this w)
    = match listenerFn w with
      | Some fn => if instanceCount w - 1 =? 0
                   then filter (λ l, l ≠ fn) (listeners w)
                   else listeners w
      | None => listeners w
      end
  ∧ length (instances (destroyed this w)) = length (instances w).
Proof.
  intros Hwf. unfold destroyed, exec.
  rewrite (destroy_run _ _ (wf_keys _ Hwf this)). cbn [snd].
  destruct (same_page_set_registry this []
              (torn_down (registry w this) (released w)))
    as (-> & -> & -> & -> & _).
  destruct (torn_down_frame (registry w this) (released w))
    as (_ & _ & _ & -> & -> & -> & -> & _).
  unfold released.
  destruct (listenerFn w); destruct (instanceCount w - 1 =? 0); done.
Qed.

Lemma counted_same_page w w' c : same_page w w' → counted w c → counted w' c.
Proof.
  intros (H1 & H2 & H3 & H4 & _) (J1 & J2 & J3 & J4 & J5 & J6).
  unfold counted. rewrite H1, H2, H3, H4. done.
Qed.

Lemma filter_out_NoDup (l : list nat) x :
  NoDup l → x ∈ l →
  S (length (filter (λ i, i ≠ x) l)) = length l.
Proof.
  induction l as [|y l IH]; intros Hnd Hin.
  - by apply elem_of_nil in Hin.
  - apply NoDup_cons in Hnd as [Hy Hnd].
    destruct (decide (y = x)) as [->|Hne].
    + rewrite filter_cons_False by (intros ?; done). cbn. f_equal.
      clear IH Hin Hnd. induction l as [|z l IH]; [done|].
      apply not_elem_of_cons in Hy as [Hz Hy].
      rewrite filter_cons_True by done. cbn. f_equal. by apply IH.
    + rewrite filter_cons_True by done. cbn. f_equal. apply IH; [done|].
      apply elem_of_cons in Hin as [->|]; done.
Qed.

Lemma counted_constructor config w c :
  counted w c → counted (exec (constructor config) w) (census_step c (New config)).
Proof.
  intros HJ. pose proof HJ as (J1 & J2 & J3 & J4 & J5 & J6).
  pose proof (constructor_effect config w) as H. cbn [census_step].
  destruct (is_null config).
  - by rewrite H.
  - destruct H as (inst & _ & _ & Hi & _ & _ & _ & _ & Hc & Hf & Hl).
    unfold counted. rewrite Hi, Hc, Hf, Hl, length_app, J1. cbn.
    split_and!.
    + lia.
    + rewrite length_app. cbn. lia.
    + apply NoDup_app. split_and!; [done| |apply NoDup_singleton].
      intros i Hi' Hx%list_elem_of_singleton. subst i. apply J4 in Hi'. lia.
    + intros i [Hi'|Hx%list_elem_of_singleton]%elem_of_app; [|lia].
      apply J4 in Hi'. lia.
    + destruct (listenerFn w) as [fn|]; cbn; [done|]. by rewrite J5.
    + split; [done|]. intros Hnil. by destruct (live c).
Qed.

Lemma counted_destroyed this w c :
  wf w → counted w c → this ∈ live c →
  counted (destroyed this w) (census_step c (Destroy this)).
Proof.
  intros Hwf (J1 & J2 & J3 & J4 & J5 & J6) Hlive.
  destruct (destroyed_page this w Hwf) as (Hc & Hf & Hl & Hi).
  pose proof (filter_out_NoDup _ _ J3 Hlive) as Hlen.
  unfold counted. rewrite Hc, Hf, Hl, Hi. cbn [census_step constructed live].
  destruct (listenerFn w) as [fn|] eqn:Hfn.
  2: { destruct J6 as [J6 _]. rewrite J6 in Hlive by done.
       by apply elem_of_nil in Hlive. }
  split_and!.
  - done.
  - lia.
  - by apply NoDup_filter.
  - intros i [_ Hi']%list_elem_of_filter. by apply J4.
  - destruct (Z.eqb_spec (instanceCount w - 1) 0); [|done].
    rewrite J5, filter_cons_False by (intros ?; done). done.
  - destruct (Z.eqb_spec (instanceCount w - 1) 0) as [Hz|Hz].
    + split; [intros _|done]. apply length_zero_iff_nil. lia.
    + split; [done|]. intros Hnil. rewrite Hnil in Hlen. cbn in Hlen. lia.
Qed.

Section Census.
Variable randomUUID : nat → string.
Hypothesis randomUUID_valid : ∀ n, valid_id (randomUUID n) = true.

Lemma counted_step w c e :
  wf w → counted w c →
  match e with Destroy this => this ∈ live c | _ => True end →
  counted (step randomUUID w e) (census_step c e).
Proof.
  intros Hwf HJ He.
  destruct e as [config|this cmd payload|this|data|id].
  - by apply counted_constructor.
  - cbn. case_bool_decide; [|done].
    eapply counted_same_page; [apply same_page_sendMessage | done].
  - cbn [step]. destruct HJ as (J1 & J2 & J3 & J4 & J5 & J6).
    rewrite bool_decide_eq_true_2 by (rewrite J1; by apply J4).
    by apply counted_destroyed.
  - eapply counted_same_page; [apply same_page_dispatchMessage | done].
  - eapply counted_same_page; [apply same_page_fireTimer | done].
Qed.

Lemma counted_run w c es :
  wf w → counted w c → disciplined_from c es = true →
  counted (run randomUUID w es) (census_from c es).
Proof.
  revert w c. induction es as [|e es IH]; intros w c Hwf HJ Hd; [done|].
  cbn in Hd. apply andb_true_iff in Hd as [He Hd].
  cbn. apply IH; [|apply counted_step|]; try done.
  - by apply evolves_step.
  - destruct e; try done. by apply bool_decide_eq_true in He.
Qed.

Lemma census_count c es :
  NoDup (live c) → (∀ i, i ∈ live c → (i < constructed c)%nat) →
  disciplined_from c es = true →
  (length (live (census_from c es)) + destructions es
   = length (live c) + constructions es)%nat.
Proof.
  unfold census_from.
  revert c. induction es as [|e es IH]; intros c Hnd Hlt Hd; cbn; [lia|].
  cbn in Hd. apply andb_true_iff in Hd as [He Hd].
  destruct e as [config|this cmd payload|this|data|id];
    cbn [census_step] in *; try (by apply IH).
  - destruct (is_null config); [by apply IH|].
    rewrite IH; cbn; try done.
    + rewrite length_app. cbn. lia.
    + apply NoDup_app. split_and!; [done| |apply NoDup_singleton].
      intros i Hi Hx%list_elem_of_singleton. subst i.
      apply Hlt in Hi. lia.
    + intros i [Hi|Hx%list_elem_of_singleton]%elem_of_app; [|lia].
      apply Hlt in Hi. lia.
  - apply bool_decide_eq_true in He.
    pose proof (filter_out_NoDup _ _ Hnd He) as Hlen.
    specialize (IH {| constructed := constructed c;
                      live := filter (λ i, i ≠ this) (live c) |}).
    cbn in IH.
    assert (IH' := IH (NoDup_filter _ _ Hnd)
                      ltac:(intros i [_ Hi]%list_elem_of_filter;
                            by apply Hlt) Hd).
    lia.
Qed.

(** C5, as amended: over every run of the page in which [destroy] is
    only called on live instances, the shared listener is installed if
    and only if at least one instance is live, that is, if and only if
    more constructor calls have succeeded than [destroy] calls were
    made; the counter is the number of live instances. *)
Theorem listener_installed_iff_live (has_parent : bool) (es : list Event) :
  disciplined es = true →
  let w := run randomUUID (initial has_parent) es in
  (installed w ↔ live (census es) ≠ [])
  ∧ (installed w ↔ (destructions es < constructions es)%nat)
  ∧ instanceCount w = Z.of_nat (length (live (census es)))
  ∧ listeners w = match listenerFn w with Some fn => [fn] | None => [] end.
Proof.
  intros Hd w.
  assert (H0 : counted (initial has_parent)
                 {| constructed := 0; live := [] |}).
  { unfold counted. cbn. split_and!; try done.
    - apply NoDup_nil_2.
    - intros i Hi. by apply elem_of_nil in Hi. }
  pose proof (counted_run _ _ es (wf_initial has_parent) H0 Hd)
    as (J1 & J2 & J3 & J4 & J5 & J6).
  fold (census es) in *. fold w in J1, J2, J5, J6.
  assert (Hcount := census_count {| constructed := 0; live := [] |} es).
  cbn in Hcount. fold (census es) in Hcount.
  specialize (Hcount (NoDup_nil_2)
                ltac:(intros i Hi; by apply elem_of_nil in Hi) Hd).
  assert (Hinst : installed w ↔ live (census es) ≠ []).
  { unfold installed. rewrite J5.
    destruct (listenerFn w) as [fn|] eqn:Hfn.
    - split; [intros _|done]. intros Hnil. apply J6 in Hnil. done.
    - split; [done|]. intros Hne. destruct Hne. by apply J6. }
  split_and!; try done.
  rewrite Hinst. split.
  - intros Hne. destruct (live (census es)); [done|]. cbn in Hcount. lia.
  - intros Hlt Hnil. rewrite Hnil in Hcount. cbn in Hcount. lia.
Qed.
End Census.

(** C5, counterexample: a second [destroy] on the same instance breaks the
    equivalence in both directions.  After construct, destroy, destroy,
    construct the listener is installed though no more constructor calls
    than [destroy] calls were made; after construct, construct, destroy,
    destroy of the first instance the listener is gone though the second
    instance was never destroyed. *)
Lemma listener_not_iff_live_when_destroyed_twice :
  let es1 := [New VUndef; Destroy 0; Destroy 0; New VUndef] in
  let es2 := [New VUndef; New VUndef; Destroy 0; Destroy 0] in
  listeners (run uuid (initial true) es1) = [1%nat]
  ∧ constructions es1 = 2%nat ∧ destructions es1 = 2%nat
  ∧ ¬ (installed (run uuid (initial true) es1)
       ↔ (destructions es1 < constructions es1)%nat)
  ∧ listeners (run uuid (initial true) es2) = []
  ∧ live (census es2) = [1%nat]
  ∧ ¬ (installed (run uuid (initial true) es2) ↔ live (census es2) ≠ []).
Proof.
  cbv zeta. split_and!; try by vm_compute.
  - intros [H _]. assert (2 < 2)%nat; [|lia]. apply H. by vm_compute.
  - intros [_ H]. apply H; by vm_compute.
Qed.

Lemma listener_installed_iff_live_witness :
  let es := [New VUndef; New VUndef; Destroy 0; Send 1 "getLanguage" VUndef] in
  let w := run uuid (initial true) es in
  (installed w ↔ live (census es) ≠ [])
  ∧ (installed w ↔ (destructions es < constructions es)%nat)
  ∧ instanceCount w = Z.of_nat (length (live (census es)))
  ∧ listeners w = match listenerFn w with Some fn => [fn] | None => [] end.
Proof.
  apply (listener_installed_iff_live uuid uuid_valid true
           [New VUndef; New VUndef; Destroy 0%nat;
            Send 1%nat "getLanguage" VUndef]).
  reflexivity.
Defined.

(** ** What the page adds *)

Lemma uncalled_timers_sub cb w id t :
  timers (uncalled cb w) !! id = Some t → timers w !! id = Some t.
Proof.
  unfold uncalled, exec, clearCallbackTimeout.
  destruct (timeoutId cb) as [id'|]; [|done].
  destruct (truthy (VNum id')); [|done]. cbn.
  intros H. apply lookup_delete_Some in H. tauto.
Qed.

Lemma cleaned_timers_sub this k w id t :
  timers (cleaned this k w) !! id = Some t → timers w !! id = Some t.
Proof.
  unfold cleaned, exec, cleanupCallback. monad_unfold.
  rewrite getCallbacks_run.
  destruct (String.eqb k ""); [done|].
  destruct (js_lookup (registry w this) k) as [cb| |]; try done.
  rewrite clearCallbackTimeout_run, setCallbacks_run. cbn [snd].
  change (timers (set_registry this ?cbs ?W)) with (timers W).
  apply uncalled_timers_sub.
Qed.

Section Growth.
Variable randomUUID : nat → string.

Abbreviation grows := (grows randomUUID).

Lemma grows_refl w : grows w w.
Proof. unfold grows. split_and!; eauto. Qed.

Lemma grows_trans w1 w2 w3 : grows w1 w2 → grows w2 w3 → grows w1 w3.
Proof.
  intros (Hu & Hp & Ht & Hr) (Hu' & Hp' & Ht' & Hr').
  unfold grows. split_and!; [lia | lia | |].
  - intros id t [H|(n & Hn & Hid)]%Ht'.
    + destruct (Ht _ _ H) as [?|(n & Hn & Hid)]; [by left|].
      right. exists n. split; [lia|done].
    + right. exists n. split; [lia|done].
  - intros i k cb [(cb1 & H1 & R1)|H]%Hr'.
    + destruct (Hr _ _ _ H1) as [(cb0 & H0 & R0)|H0].
      * left. exists cb0. split; [done|congruence].
      * right. lia.
    + right. lia.
Qed.

(** Steps that add neither a timer nor an entry. *)
Lemma grows_shrink w w' :
  (uuidCount w ≤ uuidCount w')%nat →
  (nextPromise w ≤ nextPromise w')%nat →
  (∀ id t, timers w' !! id = Some t → timers w !! id = Some t) →
  (∀ i k cb, assoc k (registry w' i) = Some cb →
             assoc k (registry w i) = Some cb) →
  grows w w'.
Proof.
  intros Hu Hp Ht Hr. unfold grows. split_and!; [done..| |].
  - intros id t H. left. by apply Ht.
  - intros i k cb H. left. exists cb. split; [by apply Hr|done].
Qed.

Lemma grows_cleaned this k w : grows w (cleaned this k w).
Proof.
  destruct (cleaned_frame this k w) as (_ & Hp & _ & _ & _ & _ & _ & Hu).
  apply grows_shrink.
  - by rewrite Hu.
  - by rewrite Hp.
  - apply cleaned_timers_sub.
  - apply cleaned_sub.
Qed.

Lemma grows_settle this k p value w :
  grows w (resolved p value (cleaned this k w)).
Proof. apply (grows_cleaned this k w). Qed.

Lemma grows_handleTimeout this k cmd w :
  grows w (exec (handleTimeout this k cmd) w).
Proof.
  unfold exec, handleTimeout. monad_unfold. rewrite getCallbacks_run.
  destruct (js_lookup (registry w this) k) as [cb| |];
    try apply grows_refl.
  rewrite call_resolve_run, cleanupCallback_run. cbn [snd].
  rewrite cleaned_resolved. apply grows_settle.
Qed.

Lemma grows_messageHandler this reply w :
  grows w (exec (messageHandler this reply) w).
Proof.
  unfold exec, messageHandler. monad_unfold.
  destruct (truthy reply && is_object reply); [|apply grows_refl].
  destruct (get reply "messageId") as [| | | | |k| |];
    try apply grows_refl.
  rewrite getCallbacks_run.
  destruct (js_lookup (registry w this) k) as [cb| |].
  - rewrite cleanupCallback_run, call_resolve_run. apply grows_settle.
  - rewrite cleanupCallback_run. apply grows_cleaned.
  - apply grows_refl.
Qed.

Lemma grows_destroyed this w : wf w → grows w (destroyed this w).
Proof.
  intros Hwf.
  destruct (destroyed_views this w (wf_keys _ Hwf this))
    as (_ & Hp & _ & Hr & _).
  apply grows_shrink.
  - unfold destroyed, exec.
    rewrite (destroy_run _ _ (wf_keys _ Hwf this)). cbn [snd].
    change (uuidCount (set_registry this [] ?W)) with (uuidCount W).
    destruct (torn_down_frame (registry w this) (released w))
      as (_ & _ & _ & _ & _ & _ & _ & ->).
    destruct (released_frame w) as (_ & _ & _ & _ & _ & ->). done.
  - by rewrite Hp.
  - unfold destroyed, exec.
    rewrite (destroy_run _ _ (wf_keys _ Hwf this)). cbn [snd].
    change (timers (set_registry this [] ?W)) with (timers W).
    intros id t H%torn_down_timers_sub.
    destruct (released_frame w) as (_ & _ & _ & Ht & _). by rewrite <- Ht.
  - intros i k cb. rewrite Hr. by case_bool_decide.
Qed.

Lemma grows_constructor config w : grows w (exec (constructor config) w).
Proof.
  pose proof (constructor_effect config w) as H.
  destruct (is_null config); [rewrite H; apply grows_refl|].
  destruct H as (inst & Hempty & _ & Hi & _ & Hp & _ & Ht & _).
  apply grows_shrink.
  - unfold exec, constructor, member, addEventListener. monad_unfold.
    destruct (is_null _ || is_undefined _); cbn; [done|].
    by destruct (listenerFn w).
  - by rewrite Hp.
  - by rewrite Ht.
  - intros i k cb. by rewrite !registry_reg, Hi, reg_snoc.
Qed.

Lemma grows_set_uuidCount n w :
  (uuidCount w ≤ n)%nat → grows w (set_uuidCount n w).
Proof. intros Hn. by apply grows_shrink. Qed.

Lemma grows_Promise_resolve value w :
  grows w (exec (Promise_resolve value) w).
Proof.
  apply grows_shrink;
    unfold exec, Promise_resolve, newPromise, call_resolve;
    monad_unfold; cbn; try done; lia.
Qed.

Lemma grows__sendMessage this cmd payload w :
  grows w (exec (_sendMessage randomUUID this cmd payload None) w).
Proof.
  unfold exec. destruct (parent w) eqn:Hparent.
  - rewrite (_sendMessage_parent _ _ _ _ _ Hparent). cbn [snd].
    set (tok := randomUUID (uuidCount w)).
    set (p := nextPromise w).
    set (w0 := posting _ (minted (promised w))).
    set (w1 := set_registry this _ w0).
    assert (Hr1 : ∀ i k cb, assoc k (registry w1 i) = Some cb →
              (k = tok ∧ resolve cb = p) ∨ assoc k (registry w i) = Some cb).
    { intros i k cb. subst w1. rewrite registry_set_registry.
      change (registry w0 i) with (registry w i).
      case_bool_decide as Hi; [|by right]. destruct Hi as [-> _].
      rewrite assoc_assign.
      destruct (String.eqb_spec k tok) as [->|]; [|by right].
      intros [= <-]. by left. }
    destruct (is_fire_and_forget cmd).
    + unfold grows. split_and!;
        try (subst w1 w0; clear Hr1; world_unfold; lia).
      * intros id t H. by left.
      * intros i k cb [[-> Hp]|H]%Hr1.
        -- right. rewrite Hp. done.
        -- left. by exists cb.
    + set (w2 := armed _ _ _ _ w1).
      unfold grows. split_and!;
        try (subst w2 w1 w0; clear Hr1; world_unfold; lia).
      * intros id t.
        change (timers (set_registry this ?cbs ?W)) with (timers W).
        subst w2. unfold armed, exec, setTimeout. cbn.
        intros [[<- <-]|[_ H]]%lookup_insert_Some.
        -- right. exists (uuidCount w). split; [|done].
           subst w1 w0. clear Hr1. world_unfold. lia.
        -- by left.
      * intros i k cb. rewrite registry_set_registry.
        change (registry w2 ?j) with (registry w1 j).
        case_bool_decide as Hi.
        -- destruct Hi as [-> _]. rewrite assoc_assign_timeoutId.
           destruct (String.eqb_spec k tok) as [->|].
           ++ destruct (assoc tok (registry w1 this)) as [cb1|] eqn:H1;
                [|done].
              intros [= <-]. cbn [setTimeoutId resolve].
              destruct (Hr1 _ _ _ H1) as [[_ Hp]|H].
              ** right. rewrite Hp. done.
              ** left. by exists cb1.
           ++ intros [[-> Hp]|H]%Hr1; [done|]. left. by exists cb.
        -- intros [[-> Hp]|H]%Hr1.
           ++ right. rewrite Hp. done.
           ++ left. by exists cb.
  - rewrite (_sendMessage_orphan _ _ _ _ _ Hparent). cbn [snd].
    apply (grows_trans _ (minted (promised w))).
    + apply grows_shrink; try done; world_unfold; lia.
    + apply grows_settle.
Qed.

Lemma grows_sendMessage this cmd payload w :
  grows w (exec (sendMessage randomUUID this cmd payload) w).
Proof.
  unfold exec.
  destruct (outcome_sendMessage randomUUID this cmd payload w)
    as [n code messageId Hn|n e Hn|n sent Hn _].
  - apply (grows_trans _ (set_uuidCount n w)).
    + by apply grows_set_uuidCount.
    + apply grows_Promise_resolve.
  - by apply grows_set_uuidCount.
  - apply (grows_trans _ (set_uuidCount n w)).
    + by apply grows_set_uuidCount.
    + apply grows__sendMessage.
Qed.

Lemma grows_dispatchMessage data w : grows w (dispatchMessage data w).
Proof.
  unfold dispatchMessage. generalize (listeners w). intros fns.
  revert w. induction fns as [|fn fns IH]; intros w; cbn.
  - apply grows_refl.
  - eapply grows_trans; [apply (grows_messageHandler fn data)|]. apply IH.
Qed.

Lemma grows_fireTimer id w : grows w (fireTimer id w).
Proof.
  unfold fireTimer. destruct (timers w !! id) as [t|];
    [|apply grows_refl].
  eapply grows_trans; [|apply grows_handleTimeout].
  apply grows_shrink; try done. cbn.
  intros id' t' H. apply lookup_delete_Some in H. tauto.
Qed.

Lemma grows_step w e : wf w → grows w (step randomUUID w e).
Proof.
  intros Hwf. destruct e as [config|this cmd payload|this|data|id]; cbn.
  - apply grows_constructor.
  - case_bool_decide; [apply grows_sendMessage | apply grows_refl].
  - case_bool_decide; [by apply grows_destroyed | apply grows_refl].
  - apply grows_dispatchMessage.
  - apply grows_fireTimer.
Qed.
End Growth.

(** ** Configuration is kept *)

Lemma keeps_refl w : keeps w w.
Proof. by repeat split. Qed.

Lemma keeps_trans w1 w2 w3 : keeps w1 w2 → keeps w2 w3 → keeps w1 w3.
Proof.
  intros (H1 & H2 & H3) (H1' & H2' & H3'). unfold keeps. split_and!.
  - congruence.
  - lia.
  - intros i Hi. rewrite H3' by lia. by apply H3.
Qed.

Lemma keeps_same_page w w' : same_page w w' → keeps w w'.
Proof.
  intros (_ & _ & _ & H4 & H5 & H6). unfold keeps. split_and!; [done|lia|].
  intros i _. apply H6.
Qed.

Lemma constructor_built config w :
  is_null config = false →
  parent (exec (constructor config) w) = parent w
  ∧ ∃ inst, defaultTimeout inst = configuredTimeout config
            ∧ instances (exec (constructor config) w)
              = (instances w ++ [inst])%list.
Proof.
  intros Hnull. split.
  - unfold exec, constructor, member, addEventListener. monad_unfold.
    destruct (is_null _ || is_undefined _); cbn; [done|].
    by destruct (listenerFn w).
  - pose proof (constructor_effect config w) as H. rewrite Hnull in H.
    destruct H as (inst & _ & Hd & Hi & _). by exists inst.
Qed.

Lemma keeps_constructor config w : keeps w (exec (constructor config) w).
Proof.
  destruct (is_null config) eqn:Hnull.
  - pose proof (constructor_effect config w) as H. rewrite Hnull in H.
    rewrite H. apply keeps_refl.
  - destruct (constructor_built config w Hnull) as (Hp & inst & _ & Hi).
    unfold keeps. rewrite Hi, length_app. split_and!; [done|lia|].
    intros i Hlt. by rewrite lookup_total_app_l.
Qed.

Lemma torn_down_parent cbs w : parent (torn_down cbs w) = parent w.
Proof.
  revert w. induction cbs as [|[k cb] cbs IH]; intros w; cbn [torn_down];
    [done|].
  rewrite IH. by destruct (same_page_uncalled cb
    (resolved (resolve cb) (destroyedResponse k) w)) as (_ & _ & _ & _ & -> & _).
Qed.

Lemma keeps_destroyed this w : wf w → keeps w (destroyed this w).
Proof.
  intros Hwf. unfold destroyed, exec.
  rewrite (destroy_run _ _ (wf_keys _ Hwf this)). cbn [snd].
  apply (keeps_trans _ (torn_down (registry w this) (released w)));
    [|apply keeps_same_page, same_page_set_registry].
  destruct (torn_down_frame (registry w this) (released w))
    as (_ & _ & _ & Hi & _).
  destruct (released_frame w) as (_ & _ & _ & _ & Hi' & _).
  unfold keeps. rewrite torn_down_parent, Hi, Hi'. split_and!; try done.
  unfold released. destruct (listenerFn w); [|done].
  by destruct (instanceCount w - 1 =? 0).
Qed.

Section Kept.
Variable randomUUID : nat → string.
Hypothesis randomUUID_valid : ∀ n, valid_id (randomUUID n) = true.

Lemma keeps_step w e : wf w → keeps w (step randomUUID w e).
Proof.
  intros Hwf. destruct e as [config|this cmd payload|this|data|id]; cbn.
  - apply keeps_constructor.
  - case_bool_decide; [|apply keeps_refl].
    apply keeps_same_page, same_page_sendMessage.
  - case_bool_decide; [by apply keeps_destroyed | apply keeps_refl].
  - apply keeps_same_page, same_page_dispatchMessage.
  - apply keeps_same_page, same_page_fireTimer.
Qed.

Lemma keeps_run w es : wf w → keeps w (run randomUUID w es).
Proof.
  revert w. induction es as [|e es IH]; intros w Hwf; cbn.
  - apply keeps_refl.
  - eapply keeps_trans; [by apply keeps_step|].
    apply IH. by apply evolves_step.
Qed.

Lemma grows_run w es : wf w → grows randomUUID w (run randomUUID w es).
Proof.
  revert w. induction es as [|e es IH]; intros w Hwf; cbn.
  - apply grows_refl.
  - eapply grows_trans; [by apply grows_step|].
    apply IH. by apply evolves_step.
Qed.
End Kept.

(** ** Timers *)

Section Timers.
Variable randomUUID : nat → string.
Hypothesis randomUUID_valid : ∀ n, valid_id (randomUUID n) = true.
Hypothesis randomUUID_unique : ∀ m n, randomUUID m = randomUUID n → m = n.

Lemma is_fire_and_forget_spec cmd :
  is_fire_and_forget cmd = true ↔ cmd = "openURL" ∨ cmd = "scanQRCode".
Proof.
  unfold is_fire_and_forget. rewrite orb_true_iff.
  by rewrite !String.eqb_eq.
Qed.

(** What a dispatch to a reachable parent registers and arms. *)
Lemma _sendMessage_registered this cmd payload w :
  parent w = true → (this < length (instances w))%nat →
  let p := nextPromise w in
  let tok := randomUUID (uuidCount w) in
  let w' := exec (_sendMessage randomUUID this cmd payload None) w in
  assoc tok (registry w' this)
  = Some (pendingCall p (if is_fire_and_forget cmd then None
                         else Some (nextTimer w)))
  ∧ timers w'
    = (if is_fire_and_forget cmd then timers w
       else <[nextTimer w :=
                timeoutTimer this tok cmd
                  (defaultTimeout (instances w !!! this))]> (timers w))
  ∧ (∀ i k cb, assoc k (registry w' i) = Some cb →
       (i = this ∧ k = tok ∧ resolve cb = p)
       ∨ assoc k (registry w i) = Some cb)
  ∧ nextPromise w' = S p
  ∧ uuidCount w' = S (uuidCount w)
  ∧ posted w' = (posted w ++ [outgoing cmd tok payload])%list.
Proof.
  intros Hparent Hthis p tok w'. subst w'. unfold exec.
  rewrite (_sendMessage_parent _ _ _ _ _ Hparent). cbn [snd].
  fold p tok.
  set (w0 := posting _ (minted (promised w))).
  set (w1 := set_registry this _ w0).
  assert (Hr1 : ∀ i, registry w1 i
            = if bool_decide (i = this)
              then assign tok (pendingCall p None) (registry w this)
              else registry w i).
  { intros i. subst w1. rewrite registry_set_registry.
    change (registry w0 i) with (registry w i).
    change (length (instances w0)) with (length (instances w)).
    destruct (decide (i = this)) as [->|Hne].
    - by rewrite !bool_decide_eq_true_2 by done.
    - rewrite !bool_decide_eq_false_2; [done..|]. by intros [? _]. }
  destruct (is_fire_and_forget cmd).
  - split_and!; try done.
    + rewrite Hr1, bool_decide_eq_true_2 by done.
      by rewrite assoc_assign, String.eqb_refl.
    + intros i k cb. rewrite Hr1. case_bool_decide as Hi; [|by right].
      subst i. rewrite assoc_assign.
      destruct (String.eqb_spec k tok) as [->|]; [|by right].
      intros [= <-]. by left.
  - set (w2 := armed _ _ _ _ w1).
    assert (Hr2 : ∀ i, registry (set_registry this
                (assign_timeoutId tok (nextTimer w) (registry w1 this)) w2) i
              = if bool_decide (i = this)
                then assign_timeoutId tok (nextTimer w) (registry w1 this)
                else registry w i).
    { intros i.
      assert (Hlen : length (instances w2) = length (instances w)).
      { subst w2 w1 w0. clear Hr1. world_unfold. apply length_alter. }
      rewrite registry_set_registry, Hlen.
      destruct (decide (i = this)) as [->|Hne].
      - by rewrite !bool_decide_eq_true_2 by done.
      - rewrite bool_decide_eq_false_2 by (by intros [? _]).
        change (registry w2 i) with (registry w1 i).
        by rewrite Hr1, !bool_decide_eq_false_2 by done. }
    split_and!; try done.
    + rewrite Hr2, bool_decide_eq_true_2 by done.
      rewrite assoc_assign_timeoutId, String.eqb_refl.
      rewrite Hr1, bool_decide_eq_true_2 by done.
      by rewrite assoc_assign, String.eqb_refl.
    + intros i k cb. rewrite Hr2. case_bool_decide as Hi; [|by right].
      subst i. rewrite assoc_assign_timeoutId.
      rewrite Hr1, bool_decide_eq_true_2 by done.
      rewrite !assoc_assign, String.eqb_refl.
      destruct (String.eqb_spec k tok) as [->|]; [|by right].
      intros [= <-]. by left.
Qed.

(** Every armed timer carries an identifier that was generated. *)
Lemma timers_minted has_parent es id t :
  let w := run randomUUID (initial has_parent) es in
  timers w !! id = Some t →
  ∃ n, (n < uuidCount w)%nat ∧ timer_messageId t = randomUUID n.
Proof.
  intros w Ht. subst w.
  destruct (grows_run randomUUID randomUUID_valid (initial has_parent) es
              (wf_initial has_parent)) as (_ & _ & Htimers & _).
  destruct (Htimers _ _ Ht) as [H|(n & Hn & Hid)]; [done|].
  exists n. split; [lia|done].
Qed.

(** The expiry of a timer leaves alone every promise that none of the
    entries reachable from the armed timers waits on. *)
Lemma fireTimer_calls p id w :
  (∀ id t cb, timers w !! id = Some t →
     assoc (timer_messageId t) (registry w (timer_this t)) = Some cb →
     resolve cb ≠ p) →
  calls p (fireTimer id w) = calls p w.
Proof.
  intros Hfree. unfold fireTimer.
  destruct (timers w !! id) as [t|] eqn:Ht; [|done].
  set (w0 := set_timers _ _ w).
  unfold exec, handleTimeout. monad_unfold. rewrite getCallbacks_run.
  change (registry w0 ?i) with (registry w i).
  destruct (assoc (timer_messageId t) (registry w (timer_this t)))
    as [cb|] eqn:Hcb.
  - rewrite (js_lookup_own _ _ _ Hcb).
    rewrite call_resolve_run, cleanupCallback_run. cbn [snd].
    rewrite cleaned_resolved, calls_resolved.
    rewrite bool_decide_eq_false_2 by by eapply Hfree.
    unfold calls.
    destruct (cleaned_frame (timer_this t) (timer_messageId t) w0)
      as (-> & _).
    cbn. lia.
  - unfold js_lookup. rewrite Hcb. by destruct (inherited _).
Qed.

(** C7, as amended: when a message is dispatched to a reachable parent,
    a pending call is registered under the fresh identifier; for every
    command other than openURL and scanQRCode a timer is armed whose
    delay is the timeout configured at construction, which is the
    override if that is truthy and 30000 otherwise; for openURL and
    scanQRCode no timer is armed, and whatever the page does afterwards
    no timer expiry ever settles that call. *)
Theorem timer_armed_unless_fire_and_forget (es1 es2 : list Event)
    (config : JsVal) (cmd : string) (payload : JsVal) :
  is_null config = false →
  let w1 := run randomUUID (initial true) es1 in
  let this := length (instances w1) in
  let w := run randomUUID w1 (New config :: es2) in
  let p := nextPromise w in
  let tok := randomUUID (uuidCount w) in
  let w' := exec (_sendMessage randomUUID this cmd payload None) w in
  (is_fire_and_forget cmd = true ↔ cmd = "openURL" ∨ cmd = "scanQRCode")
  ∧ if is_fire_and_forget cmd
    then assoc tok (registry w' this) = Some (pendingCall p None)
         ∧ timers w' = timers w
         ∧ ∀ es' id, calls p (fireTimer id (run randomUUID w' es'))
                     = calls p (run randomUUID w' es')
    else assoc tok (registry w' this)
         = Some (pendingCall p (Some (nextTimer w)))
         ∧ timers w'
           = <[nextTimer w :=
                 timeoutTimer this tok cmd (configuredTimeout config)]>
               (timers w).
Proof.
  intros Hnull w1 this w p tok w'.
  split; [apply is_fire_and_forget_spec|].
  assert (Hwf1 : wf w1) by by apply wf_run.
  set (wc := exec (constructor config) w1).
  assert (Hwfc : wf wc) by by apply evolves_constructor.
  assert (Hw : w = run randomUUID wc es2) by reflexivity.
  assert (Hwf : wf w) by (rewrite Hw; by apply evolves_run).
  destruct (constructor_built config w1 Hnull) as (Hpc & inst & Hd & Hi).
  fold wc in Hpc, Hi.
  destruct (keeps_run randomUUID randomUUID_valid (initial true) es1
              (wf_initial true)) as (Hp1 & _).
  fold w1 in Hp1.
  destruct (keeps_run randomUUID randomUUID_valid wc es2 Hwfc)
    as (Hp2 & Hlen & Hkept).
  rewrite <- Hw in Hp2, Hlen, Hkept.
  rewrite Hi, length_app in Hlen, Hkept. cbn [length] in Hlen, Hkept.
  fold this in Hlen, Hkept.
  assert (Hparent : parent w = true) by by rewrite Hp2, Hpc, Hp1.
  assert (Hthis : (this < length (instances w))%nat)
    by (unfold this in *; lia).
  assert (Hdelay : defaultTimeout (instances w !!! this)
                   = configuredTimeout config).
  { rewrite Hkept by (unfold this; lia). unfold this.
    rewrite lookup_total_app_r by lia. by rewrite Nat.sub_diag. }
  destruct (_sendMessage_registered this cmd payload w Hparent Hthis)
    as (Hreg & Htimers & Hentries & Hnext & Hcount & _).
  fold p tok w' in Hreg, Htimers, Hentries, Hnext, Hcount.
  destruct (is_fire_and_forget cmd).
  - split_and!; [done..|]. intros es' id.
    assert (Hwf' : wf w') by by apply wf__sendMessage.
    destruct (grows_run randomUUID randomUUID_valid w' es' Hwf')
      as (_ & _ & Hgt & Hgr).
    assert (Hminted : ∀ id t, timers w !! id = Some t →
              ∃ n, (n < uuidCount w)%nat ∧ timer_messageId t = randomUUID n).
    { destruct (grows_trans randomUUID _ _ _
                  (grows_run randomUUID randomUUID_valid (initial true)
                     es1 (wf_initial true))
                  (grows_run randomUUID randomUUID_valid w1
                     (New config :: es2) Hwf1)) as (_ & _ & Hgt0 & _).
      fold w1 w in Hgt0. intros id0 t0 Ht0.
      destruct (Hgt0 _ _ Ht0) as [H|(n & Hn & Hid)]; [done|].
      exists n. split; [lia|done]. }
    apply fireTimer_calls. intros id0 t cb Ht Hcb Heq.
    destruct (Hgr _ _ _ Hcb) as [(cb1 & Hcb1 & Hres)|Hge]; [|lia].
    destruct (Hentries _ _ _ Hcb1) as [(_ & Hk & _)|Hold].
    + destruct (Hgt _ _ Ht) as [Hin|(n & Hn & Hid)].
      * rewrite Htimers in Hin.
        destruct (Hminted _ _ Hin) as (n & Hn & Hid).
        rewrite Hk in Hid. apply randomUUID_unique in Hid. lia.
      * rewrite Hk in Hid. apply randomUUID_unique in Hid. lia.
    + destruct (wf_entry _ Hwf _ _ _ Hold) as (_ & Hlt & _).
      unfold p in Heq. lia.
  - by rewrite <- Hdelay.
Qed.
End Timers.

Lemma uuid_unique m n : uuid m = uuid n → m = n.
Proof.
  unfold uuid. intros H. apply (inj (String.app _)) in H.
  by apply (inj pretty) in H.
Qed.

Lemma timer_armed_unless_fire_and_forget_witness :
  let w := run uuid (initial true) [New (VObj [("timeout", VNum 5000)])] in
  let w' := exec (_sendMessage uuid 0 "getLanguage"
                    (VObj [("data", VObj [])]) None) w in
  assoc (uuid 0) (registry w' 0) = Some (pendingCall 0 (Some 1))
  ∧ timers w' = <[1 := timeoutTimer 0 (uuid 0) "getLanguage" (VNum 5000)]> ∅.
Proof.
  destruct (timer_armed_unless_fire_and_forget uuid uuid_valid uuid_unique
              [] [] (VObj [("timeout", VNum 5000)]) "getLanguage"
              (VObj [("data", VObj [])]) eq_refl) as [_ H].
  exact H.
Defined.

(** * Further properties of the client *)

(** ** Responses and validation *)

(** X1: whatever code, message or data it is given, [handleError] returns
    an object with the code (30001 when none is given) and the identifier,
    with the data when that is truthy, and never with a [message] or a
    [cmd] property. *)
Theorem handleError_shape (cmd : string) (messageId : JsVal)
    (options : ErrorOptions) :
  let response := handleError cmd messageId options in
  get response "code"
  = VNum (default ErrorCode.InvalidPayload (opt_code options))
  ∧ get response "messageId" = messageId
  ∧ get response "data"
    = (if truthy (opt_data options) then opt_data options else VUndef)
  ∧ get response "message" = VUndef
  ∧ get response "cmd" = VUndef.
Proof.
  unfold handleError. destruct (truthy (opt_data options)); by cbn.
Qed.

(** X2: [validateSigInfo] accepts exactly a truthy certificate whose
    [content] and [signature] are strings that are not blank; a falsy one
    is reported as missing (30002) and any other as invalid (30003). *)
Theorem validateSigInfo_cases (sigInfo : JsVal) (cmd : string)
    (messageId : JsVal) :
  (validateSigInfo sigInfo cmd messageId = SigValid
   ↔ ∃ content signature,
       get sigInfo "content" = VStr content
       ∧ get sigInfo "signature" = VStr signature
       ∧ blank content = false ∧ blank signature = false)
  ∧ (truthy sigInfo = false →
     validateSigInfo sigInfo cmd messageId
     = SigInvalid ErrorCode.MissingCertificate
         "Missing certificate information")
  ∧ (truthy sigInfo = true →
     validateSigInfo sigInfo cmd messageId = SigValid
     ∨ validateSigInfo sigInfo cmd messageId
       = SigInvalid ErrorCode.InvalidCertificate "Invalid certificate format").
Proof.
  unfold validateSigInfo. split_and!.
  - destruct (truthy sigInfo) eqn:Htruthy; cbn.
    + destruct (get sigInfo "content") as [| | | | |c| |] eqn:Hc;
        try (split; [done | by intros (? & ? & ? & _)]).
      destruct (get sigInfo "signature") as [| | | | |s| |] eqn:Hs;
        try (split; [done | by intros (? & ? & _ & ? & _)]).
      destruct (blank c) eqn:Hbc; cbn.
      * split; [done|]. intros (? & ? & [= <-] & _ & ? & _). congruence.
      * destruct (blank s) eqn:Hbs.
        -- split; [done|]. intros (? & ? & _ & [= <-] & _ & ?). congruence.
        -- split; [|done]. intros _. by exists c, s.
    + split; [done|]. intros (c & s & Hc & _).
      destruct sigInfo; cbn in *; congruence.
  - by intros ->.
  - intros ->. cbn.
    destruct (get sigInfo "content"); try by right.
    destruct (get sigInfo "signature"); try by right.
    destruct (blank s || blank s0); [by right | by left].
Qed.

(** ** The message on the wire *)

Lemma assoc_spread k base ps :
  NoDup (keys ps) →
  assoc k (spread base (VObj ps))
  = match assoc k ps with Some v => Some v | None => assoc k base end.
Proof.
  unfold spread. cbn [own_props]. revert base.
  induction ps as [|[k0 v0] ps IH]; intros base Hnd; [done|].
  unfold keys in Hnd. rewrite fmap_cons in Hnd.
  apply NoDup_cons in Hnd as [Hnotin Hnd]. cbn [fold_left fst snd assoc].
  rewrite (IH _ Hnd), assoc_assign.
  destruct (String.eqb_spec k k0) as [->|Hne]; [|done].
  by rewrite (proj2 (assoc_None k0 ps) Hnotin).
Qed.

(** X3: in the message [_sendMessage] posts, a protocol field holds the
    payload's own property of that name whenever the payload has one, and
    the dispatched command name, respectively the generated identifier,
    only otherwise. *)
Theorem outgoing_protocol_fields (cmd messageId : string)
    (props : list (string * JsVal)) :
  NoDup (keys props) →
  get (outgoing cmd messageId (VObj props)) "cmd"
  = default (VStr cmd) (assoc "cmd" props)
  ∧ get (outgoing cmd messageId (VObj props)) "messageId"
    = default (VStr messageId) (assoc "messageId" props).
Proof.
  intros Hnd. unfold outgoing, get. rewrite !assoc_spread by done.
  split.
  - by destruct (assoc "cmd" props).
  - by destruct (assoc "messageId" props).
Qed.

Lemma outgoing_protocol_fields_witness :
  get (outgoing "custom" (uuid 0)
         (VObj [("messageId", VStr "mine"); ("x", VNum 1)])) "cmd"
  = VStr "custom"
  ∧ get (outgoing "custom" (uuid 0)
           (VObj [("messageId", VStr "mine"); ("x", VNum 1)])) "messageId"
    = VStr "mine".
Proof.
  apply (outgoing_protocol_fields "custom" (uuid 0)
           [("messageId", VStr "mine"); ("x", VNum 1)]).
  apply (bool_decide_unpack _). by vm_compute.
Defined.

(** ** Dispatch never fails *)

Section Facade.
Variable randomUUID : nat → string.

(** X4: [sendMessage] never throws: for every command name and every
    payload, of the table or not, it returns a promise, and that promise
    is a new one. *)
Theorem sendMessage_never_throws (this : nat) (cmd : string)
    (payload : JsVal) (w : World) :
  ∃ w', sendMessage randomUUID this cmd payload w = (Ok (nextPromise w), w').
Proof.
  pose proof (outcome_sendMessage randomUUID this cmd payload w) as H.
  destruct (sendMessage_returns randomUUID this cmd payload w)
    as (p & w' & Hr).
  rewrite Hr in H |- *. exists w'. do 2 f_equal.
  inversion H as [n code mid Hn Heq|n e Hn Heq|n sent Hn _ Heq].
  - unfold Promise_resolve, newPromise in Heq. monad_unfold.
    cbn in Heq. congruence.
  - destruct (_sendMessage_returns randomUUID this cmd sent
                (set_uuidCount n w)) as [w'' Hw''].
    rewrite Hw'' in Heq. cbn in Heq. congruence.
Qed.

(** X5: a signed command called through [sendMessage] with a null payload
    faults while its arguments are read; the fault is caught and answered
    at once with the method-not-found kind 30004, under a generated
    identifier, and nothing reaches the window. *)
Theorem signed_command_null_payload (this : nat) (cmd : string) (w : World) :
  cmd = "registerService" ∨ cmd = "sendServiceMessage"
  ∨ cmd = "checkServiceStatus" →
  sendMessage randomUUID this cmd VNull w
  = Promise_resolve
      (errorResponse ErrorCode.methodNotFound
         (VStr (randomUUID (uuidCount w)))) (minted w).
Proof. intros [->|[->| ->]]; reflexivity. Qed.
End Facade.

Lemma signed_command_null_payload_witness :
  settled (exec (sendMessage uuid 0 "registerService" VNull) (initial true))
  = [(0%nat, errorResponse 30004 (VStr (uuid 0)))].
Proof.
  unfold exec.
  rewrite (signed_command_null_payload uuid 0 "registerService" (initial true)).
  - reflexivity.
  - by left.
Defined.

(** ** Inbound messages *)

(** X6: a message without a string [messageId], and a message whose
    identifier names neither a pending call of the instance nor a member
    every object inherits, is ignored: the handler returns and the world
    is what it was. *)
Theorem messageHandler_ignores (this : nat) (data : JsVal) (w : World) :
  (∀ k, get data "messageId" = VStr k →
        assoc k (registry w this) = None ∧ inherited k = false) →
  messageHandler this data w = (Ok tt, w).
Proof.
  intros Hk. unfold messageHandler. monad_unfold.
  destruct (truthy data && is_object data); [|done].
  destruct (get data "messageId") as [| | | | |k| |] eqn:Hid; try done.
  destruct (Hk k eq_refl) as [Hnone Hninh].
  by rewrite getCallbacks_run, (js_lookup_missing _ _ Hnone Hninh).
Qed.

Lemma messageHandler_ignores_witness :
  messageHandler 0 (VObj [("messageId", VStr "unknown")])
    (run uuid (initial true) [New VUndef; Send 0 "getLanguage" VUndef])
  = (Ok tt, run uuid (initial true) [New VUndef; Send 0 "getLanguage" VUndef]).
Proof.
  apply messageHandler_ignores. intros k [= <-]. by vm_compute.
Defined.

Section Inherited.
Variable randomUUID : nat → string.
Hypothesis randomUUID_valid : ∀ n, valid_id (randomUUID n) = true.

(** X7: in every world the page reaches, a message whose [messageId] is
    the name of a member that objects inherit ("toString", "constructor",
    "__proto__", ...) makes the handler throw, the registry lookup
    yielding that member instead of a pending call; the world is left as
    it was. *)
Theorem messageHandler_throws_on_inherited_name (has_parent : bool)
    (es : list Event) (this : nat) (data : JsVal) (k : string) :
  get data "messageId" = VStr k → inherited k = true →
  let w := run randomUUID (initial has_parent) es in
  messageHandler this data w
  = (Throw "callback.resolve is not a function", w).
Proof.
  intros Hid Hinh w.
  assert (Hwf : wf w) by by apply wf_run.
  assert (Hnone : assoc k (registry w this) = None).
  { destruct (assoc k (registry w this)) as [cb|] eqn:Hcb; [|done].
    destruct (wf_entry _ Hwf _ _ _ Hcb) as (Hvalid & _).
    apply valid_id_spec in Hvalid as [_ Hvalid]. congruence. }
  unfold messageHandler. monad_unfold.
  assert (Hobj : truthy data && is_object data = true) by by destruct data.
  rewrite Hobj, Hid, getCallbacks_run. unfold js_lookup.
  rewrite Hnone, Hinh, cleanupCallback_run. by rewrite cleaned_absent.
Qed.
End Inherited.

Lemma messageHandler_throws_on_inherited_name_witness :
  messageHandler 0 (VObj [("messageId", VStr "toString")])
    (run uuid (initial true) [New VUndef])
  = (Throw "callback.resolve is not a function",
     run uuid (initial true) [New VUndef]).
Proof.
  apply (messageHandler_throws_on_inherited_name uuid uuid_valid true
           [New VUndef] 0 (VObj [("messageId", VStr "toString")]) "toString");
    reflexivity.
Defined.

(** ** Pending calls over the life of a page *)

Lemma cleaned_registry this k cb w i :
  k ≠ EmptyString → assoc k (registry w this) = Some cb →
  registry (cleaned this k w) i
  = if bool_decide (i = this) then remove k (registry w this)
    else registry w i.
Proof.
  intros Hk Hcb. rewrite (cleaned_own _ _ _ _ Hk Hcb).
  rewrite registry_set_registry.
  destruct (uncalled_frame cb w) as (_ & _ & _ & Hi & _).
  rewrite Hi. rewrite (registry_reg (uncalled cb w)), Hi, <- registry_reg.
  pose proof (registered_instance _ _ _ _ Hcb).
  destruct (decide (i = this)) as [->|Hne].
  - by rewrite !bool_decide_eq_true_2 by done.
  - rewrite !bool_decide_eq_false_2; [done..|]. by intros [? _].
Qed.

Lemma cleaned_timers this k cb w :
  k ≠ EmptyString → assoc k (registry w this) = Some cb →
  timers (cleaned this k w)
  = match timeoutId cb with
    | Some id => if truthy (VNum id) then delete id (timers w) else timers w
    | None => timers w
    end.
Proof.
  intros Hk Hcb. rewrite (cleaned_own _ _ _ _ Hk Hcb).
  change (timers (set_registry this ?cbs ?W)) with (timers W).
  unfold uncalled, exec, clearCallbackTimeout.
  destruct (timeoutId cb) as [id|]; [|done]. by destruct (truthy (VNum id)).
Qed.

Section Life.
Variable randomUUID : nat → string.
Hypothesis randomUUID_valid : ∀ n, valid_id (randomUUID n) = true.

(** X8: over every run of the page, the resolve function of any promise
    is called at most once. *)
Theorem every_promise_resolved_at_most_once (has_parent : bool)
    (es : list Event) (p : nat) :
  (calls p (run randomUUID (initial has_parent) es) ≤ 1)%nat.
Proof.
  pose proof (wf_run randomUUID randomUUID_valid has_parent es) as Hwf.
  destruct (decide (p ∈ fst <$> settled
                     (run randomUUID (initial has_parent) es))) as [Hin|Hnot].
  - by rewrite calls_once.
  - rewrite calls_absent by done. lia.
Qed.

(** X9: a reply that matches a pending call settles that call with the
    received structure as it is, and touches nothing else: every other
    entry, of this and of every other instance, stays registered, and
    every timer but the call's own stays armed. *)
Theorem reply_settles_only_its_call (has_parent : bool) (es : list Event)
    (this : nat) (k : string) (cb : Callback) (reply : JsVal) :
  let w := run randomUUID (initial has_parent) es in
  assoc k (registry w this) = Some cb →
  get reply "messageId" = VStr k →
  let w' := exec (messageHandler this reply) w in
  settled w' = (settled w ++ [(resolve cb, reply)])%list
  ∧ (∀ i k', i ≠ this ∨ k' ≠ k →
             assoc k' (registry w' i) = assoc k' (registry w i))
  ∧ (∀ id t, timers w !! id = Some t → timeoutId cb ≠ Some id →
             timers w' !! id = Some t).
Proof.
  intros w Hcb Hk w'. subst w'. unfold exec.
  assert (Hwf : wf w) by by apply wf_run.
  destruct (wf_entry _ Hwf _ _ _ Hcb) as (Hvalid & _).
  destruct (valid_id_spec _ Hvalid) as [Hne _].
  rewrite (messageHandler_own _ _ _ _ _ Hk Hcb). cbn [snd].
  split_and!.
  - change (settled (resolved ?p ?v ?W)) with (settled W ++ [(p, v)])%list.
    by destruct (cleaned_frame this k w) as (-> & _).
  - intros i k' Hother.
    change (registry (resolved ?p ?v ?W) i) with (registry W i).
    rewrite (cleaned_registry _ _ _ _ _ Hne Hcb).
    case_bool_decide as Hi; [|done]. subst i.
    rewrite assoc_remove. destruct (String.eqb_spec k' k); [|done].
    by destruct Hother.
  - intros id t Ht Hid.
    change (timers (resolved ?p ?v ?W)) with (timers W).
    rewrite (cleaned_timers _ _ _ _ Hne Hcb).
    destruct (timeoutId cb) as [id'|]; [|done].
    destruct (truthy (VNum id')); [|done].
    rewrite lookup_delete_ne; [done|]. congruence.
Qed.

(** X10: when the timer of a pending call expires, the call is settled
    with the timeout response, code 30011 and its identifier, its entry
    leaves the registry and the timer leaves the timer table. *)
Theorem timer_expiry_settles_with_timeout (has_parent : bool)
    (es : list Event) (id : Z) (t : Timer) (cb : Callback) :
  let w := run randomUUID (initial has_parent) es in
  timers w !! id = Some t →
  assoc (timer_messageId t) (registry w (timer_this t)) = Some cb →
  let w' := fireTimer id w in
  settled w'
  = (settled w ++ [(resolve cb,
                    errorResponse ErrorCode.TimeoutError
                      (VStr (timer_messageId t)))])%list
  ∧ assoc (timer_messageId t) (registry w' (timer_this t)) = None
  ∧ timers w' !! id = None.
Proof.
  intros w Ht Hcb w'. subst w'. unfold fireTimer. rewrite Ht.
  assert (Hwf : wf w) by by apply wf_run.
  destruct (wf_entry _ Hwf _ _ _ Hcb) as (Hvalid & _).
  destruct (valid_id_spec _ Hvalid) as [Hne _].
  set (w0 := set_timers _ _ w).
  assert (Hcb0 : assoc (timer_messageId t) (registry w0 (timer_this t))
                 = Some cb) by exact Hcb.
  unfold exec. rewrite (handleTimeout_own _ _ _ _ _ Hcb0). cbn [snd].
  split_and!.
  - change (settled (resolved ?p ?v ?W)) with (settled W ++ [(p, v)])%list.
    by destruct (cleaned_frame (timer_this t) (timer_messageId t) w0)
      as (-> & _).
  - change (registry (resolved ?p ?v ?W) ?i) with (registry W i).
    by destruct (cleaned_removed _ _ _ _ Hne Hcb0) as [-> _].
  - change (timers (resolved ?p ?v ?W)) with (timers W).
    destruct (timers (cleaned _ _ w0) !! id) as [t'|] eqn:E; [|done].
    apply cleaned_timers_sub in E. subst w0. cbn in E.
    by rewrite lookup_delete_eq in E.
Qed.

(** X11: [destroy] settles every pending call of the instance, in the
    order they were registered, with code 30011 and the call's
    identifier; afterwards the registry of the instance is empty, each of
    its timers is cancelled, no timer has been added, and the registries
    of the other instances are what they were. *)
Theorem destroy_settles_every_pending_call (has_parent : bool)
    (es : list Event) (this : nat) :
  let w := run randomUUID (initial has_parent) es in
  let w' := exec (destroy this) w in
  settled w' = (settled w ++ teardownResponses (registry w this))%list
  ∧ registry w' this = []
  ∧ (∀ i, i ≠ this → registry w' i = registry w i)
  ∧ (∀ k cb id, assoc k (registry w this) = Some cb →
                timeoutId cb = Some id → timers w' !! id = None)
  ∧ (∀ id t, timers w' !! id = Some t → timers w !! id = Some t).
Proof.
  intros w w'. subst w'. fold (destroyed this w).
  assert (Hwf : wf w) by by apply wf_run.
  destruct (destroyed_views this w (wf_keys _ Hwf this))
    as (Hs & _ & _ & Hr & Ht).
  split_and!.
  - exact Hs.
  - by rewrite Hr, bool_decide_eq_true_2.
  - intros i Hne. by rewrite Hr, bool_decide_eq_false_2.
  - intros k cb id Hcb Hid. apply (Ht k cb); [by apply assoc_Some_elem|done|].
    destruct (wf_entry _ Hwf _ _ _ Hcb) as (_ & _ & _ & Hpos).
    specialize (Hpos _ Hid). lia.
  - destruct (grows_destroyed randomUUID this w Hwf) as (_ & _ & Hgt & _).
    intros id t H. destruct (Hgt _ _ H) as [?|(n & Hn & _)]; [done|].
    exfalso. revert Hn.
    destruct (grows_destroyed randomUUID this w Hwf) as (Hu & _).
    unfold destroyed, exec.
    rewrite (destroy_run _ _ (wf_keys _ Hwf this)). cbn [snd].
    change (uuidCount (set_registry this [] ?W)) with (uuidCount W).
    destruct (torn_down_frame (registry w this) (released w))
      as (_ & _ & _ & _ & _ & _ & _ & ->).
    destruct (released_frame w) as (_ & _ & _ & _ & _ & ->). lia.
Qed.
End Life.

(** ** The one listener of the page *)

Lemma paired_same_page w w' : same_page w w' → paired w → paired w'.
Proof. intros (_ & Hf & Hl & _). unfold paired. by rewrite Hf, Hl. Qed.

Lemma paired_constructor config w :
  paired w → paired (exec (constructor config) w).
Proof.
  intros Hp. pose proof (constructor_effect config w) as H.
  destruct (is_null config); [by rewrite H|].
  destruct H as (inst & _ & _ & _ & _ & _ & _ & _ & _ & Hf & Hl).
  unfold paired in *. rewrite Hf, Hl.
  destruct (listenerFn w); cbn; [done|]. by rewrite Hp.
Qed.

Lemma paired_destroyed this w : wf w → paired w → paired (destroyed this w).
Proof.
  intros Hwf Hp. destruct (destroyed_page this w Hwf) as (_ & Hf & Hl & _).
  unfold paired in *. rewrite Hf, Hl.
  destruct (listenerFn w) as [fn|]; [|by destruct (_ =? 0)].
  destruct (_ =? 0); [|done].
  rewrite Hp, filter_cons_False by (intros ?; done). done.
Qed.

Lemma messageHandler_other this data w i :
  i ≠ this → registry (exec (messageHandler this data) w) i = registry w i.
Proof.
  intros Hne. unfold exec, messageHandler. monad_unfold.
  destruct (truthy data && is_object data); [|done].
  destruct (get data "messageId") as [| | | | |k| |]; try done.
  rewrite getCallbacks_run.
  destruct (js_lookup (registry w this) k) as [cb| |]; [| |done].
  - rewrite cleanupCallback_run, call_resolve_run. cbn [snd].
    change (registry (resolved ?p ?v ?W) i) with (registry W i).
    by apply cleaned_other.
  - rewrite cleanupCallback_run. cbn [snd]. by apply cleaned_other.
Qed.

Section Paired.
Variable randomUUID : nat → string.
Hypothesis randomUUID_valid : ∀ n, valid_id (randomUUID n) = true.

Lemma paired_step w e : wf w → paired w → paired (step randomUUID w e).
Proof.
  intros Hwf Hp. destruct e as [config|this cmd payload|this|data|id].
  - by apply paired_constructor.
  - cbn. case_bool_decide; [|done].
    eapply paired_same_page; [apply same_page_sendMessage | done].
  - cbn [step]. case_bool_decide; [|done]. by apply paired_destroyed.
  - eapply paired_same_page; [apply same_page_dispatchMessage | done].
  - eapply paired_same_page; [apply same_page_fireTimer | done].
Qed.

Lemma paired_run w es : wf w → paired w → paired (run randomUUID w es).
Proof.
  revert w. induction es as [|e es IH]; intros w Hwf Hp; [done|].
  cbn. apply IH; [|by apply paired_step].
  by destruct (evolves_step randomUUID randomUUID_valid w e Hwf).
Qed.

(** X12: whatever has been constructed and destroyed, the window holds at
    most one handler, the one of the instance in [listenerFn]: a message
    event is handled by that instance alone, or by nobody when there is
    none, and the pending calls of every other instance are left as they
    are. *)
Theorem message_reaches_listener_instance_only (has_parent : bool)
    (es : list Event) (data : JsVal) :
  let w := run randomUUID (initial has_parent) es in
  dispatchMessage data w
  = match listenerFn w with
    | Some fn => exec (messageHandler fn data) w
    | None => w
    end
  ∧ ∀ i, listenerFn w ≠ Some i →
         registry (dispatchMessage data w) i = registry w i.
Proof.
  intros w.
  assert (Hp : paired w).
  { apply paired_run; [apply wf_initial|done]. }
  assert (Hd : dispatchMessage data w
               = match listenerFn w with
                 | Some fn => exec (messageHandler fn data) w
                 | None => w
                 end).
  { unfold dispatchMessage. rewrite Hp. by destruct (listenerFn w). }
  split; [exact Hd|]. intros i Hi. rewrite Hd.
  destruct (listenerFn w) as [fn|]; [|done].
  apply messageHandler_other. congruence.
Qed.
End Paired.

(** ** A page without a parent window *)

Lemma messageHandler_idle this data w :
  registry w this = [] → exec (messageHandler this data) w = w.
Proof.
  intros Hr. unfold exec, messageHandler. monad_unfold.
  destruct (truthy data && is_object data); [|done].
  destruct (get data "messageId") as [| | | | |k| |]; try done.
  rewrite getCallbacks_run, Hr. unfold js_lookup. cbn [assoc].
  destruct (inherited k); [|done].
  rewrite cleanupCallback_run. cbn [snd].
  apply cleaned_absent. by rewrite Hr.
Qed.

Lemma idle_constructor config w :
  idle w → idle (exec (constructor config) w).
Proof.
  intros (Hr & Ht & Hp).
  unfold exec, constructor, member, addEventListener. monad_unfold.
  destruct config; cbn; try done;
    (assert (Hreg : ∀ inst i, messageCallbacks inst = [] →
                reg (instances w ++ [inst]) i = [])
       by (intros inst i Hi; rewrite reg_snoc;
           repeat case_bool_decide; try done; apply Hr);
     destruct (listenerFn w); cbn; split_and!; try done;
     intros i; apply Hreg; done).
Qed.

Lemma idle_destroyed this w : idle w → destroyed this w = set_registry this [] (released w).
Proof.
  intros (Hr & _). unfold destroyed, exec.
  rewrite destroy_run by (rewrite Hr; apply NoDup_nil_2).
  by rewrite Hr.
Qed.

Section Orphan.
Variable randomUUID : nat → string.
Hypothesis randomUUID_valid : ∀ n, valid_id (randomUUID n) = true.

Lemma orphan__sendMessage this cmd payload w :
  parent w = false → idle w →
  _sendMessage randomUUID this cmd payload None w
  = (Ok (nextPromise w),
     resolved (nextPromise w)
       (unreachableResponse (randomUUID (uuidCount w)))
       (minted (promised w))).
Proof.
  intros Hparent (Hr & _).
  rewrite (_sendMessage_orphan _ _ _ _ _ Hparent).
  rewrite cleaned_absent; [done|].
  change (registry (minted (promised w)) this) with (registry w this).
  by rewrite Hr.
Qed.

Lemma orphan_step w e :
  parent w = false → idle w →
  parent (step randomUUID w e) = false ∧ idle (step randomUUID w e).
Proof.
  intros Hparent Hidle. pose proof Hidle as (Hr & Ht & Hp).
  destruct e as [config|this cmd payload|this|data|id].
  - cbn [step]. split; [|by apply idle_constructor].
    destruct (keeps_constructor config w) as (-> & _). done.
  - cbn. case_bool_decide; [|done]. unfold exec.
    destruct (outcome_sendMessage randomUUID this cmd payload w)
      as [n code messageId Hn|n e Hn|n sent Hn _]; [done..|].
    rewrite orphan__sendMessage; done.
  - cbn [step]. case_bool_decide; [|done].
    fold (destroyed this w). rewrite (idle_destroyed _ _ Hidle).
    split.
    + change (parent (set_registry this [] ?W)) with (parent W).
      unfold released. destruct (listenerFn w); [destruct (_ =? 0)|]; done.
    + split_and!.
      * intros i. rewrite registry_set_registry.
        case_bool_decide; [done|].
        change (registry (released w) i) with (reg (instances (released w)) i).
        destruct (released_frame w) as (_ & _ & _ & _ & -> & _). apply Hr.
      * change (timers (set_registry this [] ?W)) with (timers W).
        by destruct (released_frame w) as (_ & _ & _ & -> & _).
      * change (posted (set_registry this [] ?W)) with (posted W).
        unfold released. destruct (listenerFn w); [destruct (_ =? 0)|]; done.
  - cbn [step]. unfold dispatchMessage.
    assert (H : ∀ fns, fold_left (λ w fn, exec (messageHandler fn data) w)
                         fns w = w).
    { induction fns as [|fn fns IH]; [done|]. cbn [fold_left].
      by rewrite messageHandler_idle. }
    by rewrite H.
  - cbn [step]. unfold fireTimer. by rewrite Ht, lookup_empty.
Qed.

(** X13: on a page that has no parent window nothing is ever pending:
    after any events no call is registered, no timer is armed and no
    message has been posted, and [_sendMessage] answers at once with code
    30001 and the identifier it generated. *)
Theorem without_parent_nothing_pending (es : list Event)
    (this : nat) (cmd : string) (payload : JsVal) :
  let w := run randomUUID (initial false) es in
  idle w
  ∧ _sendMessage randomUUID this cmd payload None w
    = (Ok (nextPromise w),
       resolved (nextPromise w)
         (unreachableResponse (randomUUID (uuidCount w)))
         (minted (promised w))).
Proof.
  intros w.
  assert (H : parent w = false ∧ idle w).
  { subst w. generalize (initial false), (eq_refl : parent (initial false) = false),
      (conj (λ _, eq_refl) (conj eq_refl eq_refl) : idle (initial false)).
    induction es as [|e es' IH]; intros w0 Hp Hi; [done|].
    cbn. destruct (orphan_step w0 e Hp Hi). by apply IH. }
  destruct H as [Hp Hi]. split; [done|]. by apply orphan__sendMessage.
Qed.
End Orphan.

(** ** What a dispatch leaves behind *)

Lemma outgoing_envelope cmd messageId data sign :
  outgoing cmd messageId (envelope data sign)
  = wireMessage cmd messageId data sign.
Proof. by destruct sign. Qed.

Section Dispatched.
Variable randomUUID : nat → string.
Hypothesis randomUUID_valid : ∀ n, valid_id (randomUUID n) = true.

Lemma _sendMessage_settled this cmd payload w :
  parent w = true →
  settled (exec (_sendMessage randomUUID this cmd payload None) w)
  = settled w.
Proof.
  intros Hparent. unfold exec.
  rewrite (_sendMessage_parent _ _ _ _ _ Hparent). cbn [snd].
  by destruct (is_fire_and_forget cmd).
Qed.


Lemma outcome_effect (P : JsVal → Prop) this cmd w r :
  parent w = true → (this < length (instances w))%nat →
  Outcome randomUUID P this cmd w r → returns r →
  let p := nextPromise w in
  (∃ code messageId,
     settled r.2 = (settled w ++ [(p, errorResponse code messageId)])%list
     ∧ posted r.2 = posted w
     ∧ timers r.2 = timers w
     ∧ ∀ i, registry r.2 i = registry w i)
  ∨ (∃ n sent,
       (uuidCount w ≤ n)%nat ∧ P sent
       ∧ posted r.2 = (posted w ++ [outgoing cmd (randomUUID n) sent])%list
       ∧ settled r.2 = settled w
       ∧ assoc (randomUUID n) (registry r.2 this)
         = Some (pendingCall p (if is_fire_and_forget cmd then None
                                else Some (nextTimer w)))).
Proof.
  intros Hparent Hthis H (p' & w' & Hr) p.
  destruct H as [n code messageId Hn|n e Hn|n sent Hn HP]; [| done |].
  - left. exists code, messageId. by split_and!.
  - right. exists n, sent.
    pose proof (_sendMessage_registered randomUUID this cmd sent
                  (set_uuidCount n w) Hparent Hthis)
      as (Ha & _ & _ & _ & _ & Hp).
    split_and!; try done.
    by apply (_sendMessage_settled this cmd sent (set_uuidCount n w)).
Qed.

End Dispatched.


(** ** The size of an image *)

Lemma strip_spaces_length s :
  (String.length (strip_spaces s) ≤ String.length s)%nat.
Proof.
  induction s as [|c s IH]; cbn; [done|].
  destruct (is_js_space c); cbn; lia.
Qed.

Lemma split_segment_length sep s seg :
  seg ∈ split sep s → (String.length seg ≤ String.length s)%nat.
Proof.
  revert seg. induction s as [|c s IH]; intros seg; cbn.
  - intros ->%list_elem_of_singleton. done.
  - destruct (Ascii.eqb c sep).
    + intros [->|H]%elem_of_cons; cbn; [lia|]. apply IH in H. lia.
    + destruct (split sep s) as [|seg0 segs] eqn:E.
      * intros ->%list_elem_of_singleton. cbn. lia.
      * intros [->|H]%elem_of_cons; cbn.
        -- assert (String.length seg0 ≤ String.length s)%nat; [|lia].
           apply IH. by left.
        -- assert (String.length seg ≤ String.length s)%nat; [|lia].
           apply IH. by right.
Qed.

Lemma getBase64ImageSize_bound (s : string) :
  4 * bytes (getBase64ImageSize s) ≤ 3 * Z.of_nat (String.length s).
Proof.
  unfold getBase64ImageSize. cbn [bytes].
  rewrite Qfloor_three_quarters.
  set (b := match split "," s !! 1%nat with
            | Some seg => if String.eqb seg "" then s else seg
            | None => s
            end).
  assert (Hb : (String.length b ≤ String.length s)%nat).
  { subst b. destruct (split "," s !! 1%nat) as [seg|] eqn:E; [|done].
    destruct (String.eqb seg ""); [done|].
    eapply split_segment_length, list_elem_of_lookup_2, E. }
  pose proof (strip_spaces_length b).
  set (x := 3 * Z.of_nat (String.length (strip_spaces b))
            - 4 * Z.of_nat (String.length
                              (match_trailing_eq (strip_spaces b)))).
  pose proof (Z.mul_div_le x 4). lia.
Qed.

(** X16: the byte count [getBase64ImageSize] computes never exceeds
    three quarters of the length of its input, whatever the input holds:
    prefix, commas, white space or padding. *)
Theorem getBase64ImageSize_at_most_three_quarters (s : string) :
  bytes (getBase64ImageSize s) ≤ 3 * Z.of_nat (String.length s) / 4.
Proof.
  pose proof (getBase64ImageSize_bound s).
  apply Z.div_le_lower_bound; lia.
Qed.

Section ImageSize.
Variable randomUUID : nat → string.

(** X17: [saveImage] never turns an image down for its size when the
    string it is given, prefix included, has at most 1398102 characters:
    such an image with the [data:image/] prefix is sent on, under
    [data]. *)
Theorem saveImage_accepts_short_image (this : nat) (payload : JsVal)
    (image : string) (w : World) :
  get payload "image" = VStr image →
  startsWith image "data:image/" = true →
  Z.of_nat (String.length image) ≤ 1398102 →
  ∃ messageId w0,
    messageId_of randomUUID payload w = (Ok messageId, w0)
    ∧ saveImage randomUUID this payload w
      = _sendMessage randomUUID this "saveImage"
          (VObj [("data", payload)]) None w0.
Proof.
  intros Himage Hprefix Hlen.
  assert (Hobj : truthy payload = true) by by destruct payload.
  destruct (messageId_of randomUUID payload w) as [[messageId|e] w0] eqn:Hid.
  2: { rewrite messageId_of_run in Hid.
       destruct (truthy (get payload "messageId")); done. }
  exists messageId, w0. split; [done|].
  unfold saveImage. monad_unfold. rewrite Hid, Himage.
  rewrite Hobj, (data_image_not_blank _ Hprefix), Hprefix.
  cbn [negb orb]. unfold maxSizeInBytes.
  pose proof (getBase64ImageSize_bound image) as Hb.
  destruct (Z.ltb_spec (1 * 1024 * 1024)
              (bytes (getBase64ImageSize image))); [lia|done].
Qed.
End ImageSize.

Lemma saveImage_accepts_short_image_witness :
  ∃ messageId w0,
    messageId_of uuid
      (VObj [("image", VStr "data:image/png;base64,aGVsbG8=")])
      (initial true) = (Ok messageId, w0)
    ∧ saveImage uuid 0
        (VObj [("image", VStr "data:image/png;base64,aGVsbG8=")])
        (initial true)
      = _sendMessage uuid 0 "saveImage"
          (VObj [("data",
                  VObj [("image", VStr "data:image/png;base64,aGVsbG8=")])])
          None w0.
Proof.
  apply (saveImage_accepts_short_image uuid 0
           (VObj [("image", VStr "data:image/png;base64,aGVsbG8=")])
           "data:image/png;base64,aGVsbG8=" (initial true));
    [reflexivity | reflexivity | by vm_compute].
Defined.

(** ** What the host receives *)

Lemma not_text_false v : not_text v = false → text v.
Proof. destruct v; try done. intros H. by eexists. Qed.

Lemma validateSigInfo_valid sigInfo cmd messageId :
  validateSigInfo sigInfo cmd messageId = SigValid → certificate sigInfo.
Proof.
  unfold validateSigInfo, certificate, text.
  destruct (truthy sigInfo); [|done]. cbn [negb].
  destruct (get sigInfo "content") as [| | | | |c| |]; try done.
  destruct (get sigInfo "signature") as [| | | | |s| |]; try done.
  destruct (blank c) eqn:Hc; [done|]. destruct (blank s) eqn:Hs; [done|].
  intros _. split; by eexists.
Qed.

Section Validated.
Variable randomUUID : nat → string.

Abbreviation Outcome := (Outcome randomUUID).

Lemma validated_plain this cmd w :
  Accepted cmd (VObj []) None →
  Outcome (validated cmd) this cmd w
    (_sendMessage randomUUID this cmd (VObj [("data", VObj [])]) None w).
Proof. intros H. apply outcome_forward. by exists (VObj []), None. Qed.

Lemma validated_data this cmd data w :
  Accepted cmd data None →
  Outcome (validated cmd) this cmd w
    (_sendMessage randomUUID this cmd (VObj [("data", data)]) None w).
Proof. intros H. apply outcome_forward. by exists data, None. Qed.

Lemma validated_send_signed this cmd messageId data sigInfo w :
  (certificate sigInfo → Accepted cmd data (Some sigInfo)) →
  Outcome (validated cmd) this cmd w
    (send_signed randomUUID this cmd messageId data sigInfo w).
Proof.
  intros H. unfold send_signed.
  destruct (validateSigInfo sigInfo cmd messageId) eqn:E.
  - apply outcome_forward. exists data, (Some sigInfo). split; [done|].
    by eapply H, validateSigInfo_valid.
  - apply outcome_reject_with.
Qed.

Ltac validated_handler H :=
  intros; apply outcome_messageId; intros;
  match goal with
  | |- context [if ?b then _ else _] =>
      destruct b eqn:H; [apply outcome_invalid|]
  end.

Lemma validated_connectCocoPay this payload w :
  Outcome (validated "connectCocoPay") this "connectCocoPay" w
    (connectCocoPay randomUUID this payload w).
Proof.
  unfold connectCocoPay. validated_handler H. apply validated_data.
  apply orb_false_iff in H as [[H1 H2]%orb_false_iff H3].
  apply negb_false_iff in H1, H2.
  apply accept_connectCocoPay; [done..|].
  destruct (is_undefined _); [done|].
  by destruct (isArray (get payload "walletSupports")).
Qed.

Lemma validated_openURL this payload w :
  Outcome (validated "openURL") this "openURL" w
    (openURL randomUUID this payload w).
Proof.
  unfold openURL. validated_handler H. apply validated_data.
  apply orb_false_iff in H as [[H1 H2]%orb_false_iff H3].
  apply negb_false_iff in H2. unfold valid_url in H2.
  destruct (get payload "url") as [| | | | |u| |] eqn:Hu; try done.
  apply andb_true_iff in H2 as [[Hs Hl]%andb_true_iff _].
  apply (accept_openURL _ u); try done.
  - by apply Nat.leb_le.
  - destruct (is_undefined _); [done|].
    by destruct (is_boolean (get payload "useSystemOpen")).
Qed.


Lemma validated_copyToClipboard this payload w :
  Outcome (validated "copyToClipboard") this "copyToClipboard" w
    (copyToClipboard randomUUID this payload w).
Proof.
  unfold copyToClipboard. validated_handler H. apply validated_data.
  apply orb_false_iff in H as [_ H].
  by apply accept_copyToClipboard, not_text_false.
Qed.

Lemma validated_generateSignature this payload w :
  Outcome (validated "generateSignature") this "generateSignature" w
    (generateSignature randomUUID this payload w).
Proof.
  unfold generateSignature. validated_handler H. apply validated_data.
  apply orb_false_iff in H as [_ H].
  by apply accept_generateSignature, not_text_false.
Qed.

Lemma validated_verifySignature this payload w :
  Outcome (validated "verifySignature") this "verifySignature" w
    (verifySignature randomUUID this payload w).
Proof.
  unfold verifySignature. validated_handler H. apply validated_data.
  apply orb_false_iff in H as [[_ H1]%orb_false_iff H2].
  by apply accept_verifySignature; apply not_text_false.
Qed.

Lemma validated_encrypt this payload w :
  Outcome (validated "encrypt") this "encrypt" w
    (encrypt randomUUID this payload w).
Proof.
  unfold encrypt. validated_handler H. apply validated_data.
  apply orb_false_iff in H as [_ H].
  by apply accept_encrypt, not_text_false.
Qed.

Lemma validated_decrypt this payload w :
  Outcome (validated "decrypt") this "decrypt" w
    (decrypt randomUUID this payload w).
Proof.
  unfold decrypt. validated_handler H. apply validated_data.
  apply orb_false_iff in H as [_ H].
  by apply accept_decrypt, not_text_false.
Qed.

Lemma validated_saveImage this payload w :
  Outcome (validated "saveImage") this "saveImage" w
    (saveImage randomUUID this payload w).
Proof.
  unfold saveImage. apply outcome_messageId. intros messageId w'.
  destruct (get payload "image") as [| | | | |image| |] eqn:Hi;
    try apply outcome_invalid.
  destruct (_ || _) eqn:H; [apply outcome_invalid|].
  apply orb_false_iff in H as [_ H%negb_false_iff].
  monad_unfold.
  destruct (Z.ltb_spec maxSizeInBytes (bytes (getBase64ImageSize image))).
  - apply outcome_reject_with.
  - by apply validated_data, (accept_saveImage _ image).
Qed.

Lemma validated_getAccount this payload w :
  Outcome (validated "getAccount") this "getAccount" w
    (getAccount randomUUID this payload w).
Proof.
  unfold getAccount. apply outcome_messageId. intros messageId w'.
  unfold has_in. monad_unfold.
  destruct (truthy payload).
  - destruct payload as [| |b|z| |s|xs|ps]; cbv beta iota;
      try apply outcome_throw.
    + apply validated_data, accept_getAccount_array.
    + destruct (_ && _) eqn:H; [apply outcome_invalid|].
      apply validated_data, accept_getAccount.
      apply andb_false_iff in H as [H|H].
      * left. apply orb_false_iff in H as [H _].
        apply bool_decide_eq_false in H.
        destruct (assoc "type" ps); [|done]. by destruct H.
      * right. unfold get in H.
        destruct (assoc "type" ps) as [[| | | | |t| |]|]; try done.
        apply negb_false_iff in H. by apply String.eqb_eq in H as ->.
  - cbv beta iota. apply validated_data, accept_getAccount. by left.
Qed.

Lemma validated_setExtendedData this payload w :
  Outcome (validated "setExtendedData") this "setExtendedData" w
    (setExtendedData randomUUID this payload w).
Proof.
  unfold setExtendedData. apply outcome_messageId. intros messageId w'.
  unfold has_in. monad_unfold.
  destruct (truthy payload); cbv beta iota; [|apply outcome_invalid].
  destruct payload as [| |b|z| |s|xs|ps]; cbv beta iota;
    try apply outcome_throw.
  - apply outcome_invalid.
  - destruct (_ || _) eqn:H; [apply outcome_invalid|].
    apply validated_data, accept_setExtendedData.
    apply orb_false_iff in H as [[[_ H1]%orb_false_iff H2]%orb_false_iff H3].
    apply andb_false_iff in H3 as [H3|H3]; apply negb_false_iff in H3.
    + by right.
    + by left.
Qed.

Lemma validated_registerService this payload sigInfo w :
  Outcome (validated "registerService") this "registerService" w
    (registerService randomUUID this payload sigInfo w).
Proof.
  unfold registerService. validated_handler H.
  apply validated_send_signed. intros Hc.
  apply orb_false_iff in H as [_ H].
  by apply accept_registerService; [apply not_text_false|].
Qed.

Lemma validated_checkServiceStatus this sigInfo w :
  Outcome (validated "checkServiceStatus") this "checkServiceStatus" w
    (checkServiceStatus randomUUID this sigInfo w).
Proof.
  unfold checkServiceStatus. apply outcome_messageId. intros.
  apply validated_send_signed. apply accept_checkServiceStatus.
Qed.

Lemma validated_sendServiceMessage this payload sigInfo w :
  Outcome (validated "sendServiceMessage") this "sendServiceMessage" w
    (sendServiceMessage randomUUID this payload sigInfo w).
Proof.
  unfold sendServiceMessage. validated_handler H.
  apply validated_send_signed. intros Hc.
  apply orb_false_iff in H as [[[_ H1]%orb_false_iff H2]%orb_false_iff H3].
  apply negb_false_iff in H1, H3. unfold valid_service_type in H3.
  destruct (get payload "type") as [| | | | |t| |] eqn:Ht; try done.
  apply andb_true_iff in H3 as [_ ->%String.eqb_eq].
  by apply accept_sendServiceMessage.
Qed.

Ltac validated_command :=
  intros [= <-]; cbn [type handler];
  apply dispatch_caught; intros;
  repeat (apply outcome_member; intros);
  first [ apply validated_connectCocoPay
        | apply validated_plain; constructor
        | apply validated_openURL
        | apply validated_copyToClipboard
        | apply validated_saveImage | apply validated_getAccount
        | apply validated_setExtendedData
        | apply validated_generateSignature | apply validated_verifySignature
        | apply validated_encrypt | apply validated_decrypt
        | apply validated_registerService | apply validated_checkServiceStatus
        | apply validated_sendServiceMessage ].

Lemma sendMessage_validated this cmd payload c w :
  js_lookup (commandMap randomUUID this) cmd = Own c →
  Outcome (validated cmd) this cmd w
    (sendMessage randomUUID this cmd payload w)
  ∧ returns (sendMessage randomUUID this cmd payload w).
Proof.
  unfold sendMessage. fold (given payload). intros Hc. rewrite Hc.
  revert Hc. unfold js_lookup, commandMap. cbn [assoc].
  repeat match goal with
    | |- context [String.eqb cmd ?s] =>
        destruct (String.eqb_spec cmd s) as [->|?]
    end.
  all: try validated_command.
  by destruct (inherited cmd).
Qed.
End Validated.

Lemma accepted_sign cmd data sign :
  Accepted cmd data sign → (is_Some sign ↔ cmd ∈ signedCommands).
Proof.
  intros H. destruct H; split;
    first [ by intros [? [=]]
          | by (intros _; eexists)
          | by (intros _; apply (bool_decide_unpack _); vm_compute)
          | intros Hin; apply (bool_decide_pack _) in Hin;
            by vm_compute in Hin ].
Qed.

Section HostInput.
Variable randomUUID : nat → string.
Hypothesis randomUUID_valid : ∀ n, valid_id (randomUUID n) = true.

(** X15: for a command of the table the protocol fields are safe.
    Whenever [sendMessage] posts a message for it, the message is made
    of the command name, the identifier under which the call is
    registered and the input under [data], with the certificate under
    [sign] exactly for the three signed commands, and of nothing else,
    whatever properties the caller's payload has. *)
Theorem table_command_wire_message (this : nat) (cmd : string)
    (payload : JsVal) (c : CommandConfig) (w : World) :
  js_lookup (commandMap randomUUID this) cmd = Own c →
  parent w = true → (this < length (instances w))%nat →
  let w' := exec (sendMessage randomUUID this cmd payload) w in
  posted w' = posted w
  ∨ ∃ n data sign,
      posted w'
      = (posted w ++ [wireMessage cmd (randomUUID n) data sign])%list
      ∧ (is_Some sign ↔ cmd ∈ signedCommands)
      ∧ assoc (randomUUID n) (registry w' this)
        = Some (pendingCall (nextPromise w)
                  (if is_fire_and_forget cmd then None
                   else Some (nextTimer w))).
Proof using randomUUID_valid.
  intros Hc Hparent Hthis w'.
  destruct (sendMessage_validated randomUUID this cmd payload c w Hc)
    as [Ho Hr].
  destruct (outcome_effect randomUUID _ this cmd w _ Hparent Hthis Ho Hr)
    as [(code & mid & _ & Hp & _)
       |(n & sent & _ & (data & sign & -> & Hacc) & Hp & _ & Ha)].
  - by left.
  - right. exists n, data, sign. split_and!.
    + by rewrite <- outgoing_envelope.
    + exact (accepted_sign _ _ _ Hacc).
    + exact Ha.
Qed.

(** X18: validation is sound for every command of the table.  Whenever
    [sendMessage] posts a message for such a command, the message is the
    command name, a generated identifier and input that passed the
    command's checks: non-blank strings where text is required, an
    https URL of at most 200 characters for [openURL], a [data:image/]
    string of at most 1048576 computed bytes for [saveImage], an empty
    object for the commands without input, and for the three signed
    commands a certificate whose [content] and [signature] are non-blank
    strings. *)
Theorem host_receives_validated_input (this : nat) (cmd : string)
    (payload : JsVal) (c : CommandConfig) (w : World) :
  js_lookup (commandMap randomUUID this) cmd = Own c →
  parent w = true → (this < length (instances w))%nat →
  let w' := exec (sendMessage randomUUID this cmd payload) w in
  posted w' = posted w
  ∨ ∃ n data sign,
      posted w'
      = (posted w ++ [wireMessage cmd (randomUUID n) data sign])%list
      ∧ Accepted cmd data sign.
Proof.
  intros Hc Hparent Hthis w'.
  destruct (sendMessage_validated randomUUID this cmd payload c w Hc)
    as [Ho Hr].
  destruct (outcome_effect randomUUID _ this cmd w _ Hparent Hthis Ho Hr)
    as [(code & mid & _ & Hp & _)
       |(n & sent & _ & (data & sign & -> & Ha) & Hp & _)].
  - by left.
  - right. exists n, data, sign. by rewrite <- outgoing_envelope.
Qed.
End HostInput.


Lemma table_command_wire_message_witness :
  posted (exec (sendMessage uuid 0 "openURL"
                  (VObj [("url", VStr "https://relayx.io");
                         ("cmd", VStr "mine")]))
            (exec (constructor VUndef) (initial true)))
  = [wireMessage "openURL" (uuid 2)
       (VObj [("url", VStr "https://relayx.io"); ("cmd", VStr "mine")])
       None]
  ∧ ∃ n data sign,
      posted (exec (sendMessage uuid 0 "checkServiceStatus"
                      (VObj [("sign", VObj [("content", VStr "c");
                                            ("signature", VStr "s")])]))
                (exec (constructor VUndef) (initial true)))
      = [wireMessage "checkServiceStatus" (uuid n) data sign]
      ∧ is_Some sign.
Proof.
  split.
  - destruct (table_command_wire_message uuid uuid_valid 0 "openURL"
                (VObj [("url", VStr "https://relayx.io");
                       ("cmd", VStr "mine")])
                _ (exec (constructor VUndef) (initial true))
                eq_refl eq_refl ltac:(vm_compute; lia))
      as [Hp|(n & data & sign & Hp & _)]; by vm_compute.
  - destruct (table_command_wire_message uuid uuid_valid 0
                "checkServiceStatus"
                (VObj [("sign", VObj [("content", VStr "c");
                                      ("signature", VStr "s")])])
                _ (exec (constructor VUndef) (initial true))
                eq_refl eq_refl ltac:(vm_compute; lia))
      as [Hp|(n & data & sign & Hp & Hs & _)].
    + by vm_compute in Hp.
    + exists n, data, sign. split; [exact Hp|].
      apply Hs, (bool_decide_unpack _). by vm_compute.
Defined.

Lemma host_receives_validated_input_witness :
  posted (exec (sendMessage uuid 0 "copyToClipboard"
                  (VObj [("text", VStr "   ")]))
            (exec (constructor VUndef) (initial true)))
  = []
  ∧ ∃ n data sign,
      posted (exec (sendMessage uuid 0 "registerService"
                      (VObj [("data", VObj [("serviceKey", VStr "k")]);
                             ("sign", VObj [("content", VStr "c");
                                            ("signature", VStr "s")])]))
                (exec (constructor VUndef) (initial true)))
      = [wireMessage "registerService" (uuid n) data sign]
      ∧ Accepted "registerService" data sign.
Proof.
  split; [by vm_compute|].
  destruct (host_receives_validated_input uuid 0 "registerService"
              (VObj [("data", VObj [("serviceKey", VStr "k")]);
                     ("sign", VObj [("content", VStr "c");
                                    ("signature", VStr "s")])])
              _ (exec (constructor VUndef) (initial true))
              eq_refl eq_refl ltac:(vm_compute; lia))
    as [Hp|(n & data & sign & Hp & Ha)].
  - by vm_compute in Hp.
  - by exists n, data, sign.
Defined.

(** ** Commands without checks *)

Section Unchecked.
Variable randomUUID : nat → string.
Hypothesis randomUUID_valid : ∀ n, valid_id (randomUUID n) = true.

Lemma _sendMessage_sent this cmd payload n w :
  parent w = true → (this < length (instances w))%nat →
  let w' := exec (_sendMessage randomUUID this cmd payload None)
              (set_uuidCount n w) in
  posted w' = (posted w ++ [outgoing cmd (randomUUID n) payload])%list
  ∧ assoc (randomUUID n) (registry w' this)
    = Some (pendingCall (nextPromise w)
              (if is_fire_and_forget cmd then None
               else Some (nextTimer w)))
  ∧ timers w'
    = (if is_fire_and_forget cmd then timers w
       else <[nextTimer w :=
                timeoutTimer this (randomUUID n) cmd
                  (defaultTimeout (instances w !!! this))]> (timers w)).
Proof.
  intros Hparent Hthis w'.
  pose proof (_sendMessage_registered randomUUID this cmd payload
                (set_uuidCount n w) Hparent Hthis)
    as (Ha & Ht & _ & _ & _ & Hp).
  by split_and!.
Qed.

(** X19: a command name that is not in the table is never refused and
    never checked: [sendMessage] posts the payload as it was given under
    the name as it was given, registers the call and arms its timer with
    the timeout of the instance. *)
Theorem unknown_command_passed_through (this : nat) (cmd : string)
    (payload : JsVal) (w : World) :
  (∀ c, js_lookup (commandMap randomUUID this) cmd ≠ Own c) →
  parent w = true → (this < length (instances w))%nat →
  let w' := exec (sendMessage randomUUID this cmd payload) w in
  ∃ n, (uuidCount w ≤ n ≤ S (uuidCount w))%nat
       ∧ posted w'
         = (posted w ++ [outgoing cmd (randomUUID n) (given payload)])%list
       ∧ assoc (randomUUID n) (registry w' this)
         = Some (pendingCall (nextPromise w) (Some (nextTimer w)))
       ∧ timers w'
         = <[nextTimer w :=
               timeoutTimer this (randomUUID n) cmd
                 (defaultTimeout (instances w !!! this))]> (timers w).
Proof using randomUUID_valid.
  intros Hc Hparent Hthis w'.
  assert (Hff : is_fire_and_forget cmd = false).
  { destruct (is_fire_and_forget cmd) eqn:E; [|done].
    apply is_fire_and_forget_spec in E as [->| ->]; by edestruct Hc. }
  assert (Hw' : ∃ n, (uuidCount w ≤ n ≤ S (uuidCount w))%nat
                     ∧ w' = exec (_sendMessage randomUUID this cmd
                                    (given payload) None)
                              (set_uuidCount n w)).
  { subst w'. unfold exec, sendMessage. fold (given payload).
    destruct (js_lookup (commandMap randomUUID this) cmd) as [c| |].
    - by destruct (Hc c).
    - monad_unfold. rewrite messageId_of_run.
      destruct (truthy (get (given payload) "messageId")).
      + exists (uuidCount w). rewrite set_uuidCount_here. split; [lia|done].
      + exists (S (uuidCount w)). split; [lia|done].
    - exists (uuidCount w). rewrite set_uuidCount_here. split; [lia|done]. }
  destruct Hw' as (n & Hn & ->). exists n. split; [done|].
  pose proof (_sendMessage_sent this cmd (given payload) n w Hparent Hthis)
    as H.
  by rewrite Hff in H.
Qed.

(** X20: the four commands without input ignore what they are given:
    whatever the payload, null included, [sendMessage] posts the command
    name, a generated identifier and an empty [data], and registers the
    call. *)
Theorem command_without_input_ignores_payload (this : nat) (cmd : string)
    (payload : JsVal) (w : World) :
  cmd ∈ ["getSafeAreaInsets"; "getLanguage"; "scanQRCode";
         "getExtendedData"] →
  parent w = true → (this < length (instances w))%nat →
  let w' := exec (sendMessage randomUUID this cmd payload) w in
  ∃ n, (uuidCount w ≤ n ≤ S (uuidCount w))%nat
       ∧ posted w'
         = (posted w ++ [wireMessage cmd (randomUUID n) (VObj []) None])%list
       ∧ assoc (randomUUID n) (registry w' this)
         = Some (pendingCall (nextPromise w)
                   (if is_fire_and_forget cmd then None
                    else Some (nextTimer w))).
Proof using randomUUID_valid.
  intros Hcmd Hparent Hthis w'.
  assert (Hw' : ∃ n, (uuidCount w ≤ n ≤ S (uuidCount w))%nat
                     ∧ w' = exec (_sendMessage randomUUID this cmd
                                    (envelope (VObj []) None) None)
                              (set_uuidCount n w)).
  { subst w'. unfold exec.
    assert (Hs : sendMessage randomUUID this cmd payload w
                 = (messageId_of randomUUID (given payload)
                      ≫= λ messageId,
                        try_catch
                          (_sendMessage randomUUID this cmd
                             (envelope (VObj []) None) None)
                          (caught cmd messageId)) w).
    { set_unfold in Hcmd. by destruct Hcmd as [->|[->|[->|[->|[]]]]]. }
    rewrite Hs. monad_unfold. rewrite messageId_of_run.
    destruct (truthy (get (given payload) "messageId")).
    - exists (uuidCount w). rewrite set_uuidCount_here. split; [lia|].
      destruct (_sendMessage_returns randomUUID this cmd
                  (envelope (VObj []) None) w) as [w1 Hw1].
      unfold try_catch. by rewrite Hw1.
    - exists (S (uuidCount w)). split; [lia|].
      destruct (_sendMessage_returns randomUUID this cmd
                  (envelope (VObj []) None)
                  (set_uuidCount (S (uuidCount w)) w)) as [w1 Hw1].
      unfold try_catch. by rewrite Hw1. }
  destruct Hw' as (n & Hn & ->). exists n. split; [done|].
  pose proof (_sendMessage_sent this cmd (envelope (VObj []) None) n w
                Hparent Hthis) as (Hp & Ha & _).
  by rewrite outgoing_envelope in Hp.
Qed.
End Unchecked.

Lemma unknown_command_passed_through_witness :
  ∃ n,
    posted (exec (sendMessage uuid 0 "custom" (VObj [("x", VNum 1)]))
              (exec (constructor VUndef) (initial true)))
    = [outgoing "custom" (uuid n) (VObj [("x", VNum 1)])].
Proof.
  destruct (unknown_command_passed_through uuid uuid_valid 0 "custom"
              (VObj [("x", VNum 1)])
              (exec (constructor VUndef) (initial true)))
    as (n & _ & Hp & _).
  - intros c. by vm_compute.
  - reflexivity.
  - vm_compute. lia.
  - by exists n.
Defined.

Lemma command_without_input_ignores_payload_witness :
  ∃ n,
    posted (exec (sendMessage uuid 0 "getLanguage" VNull)
              (exec (constructor VUndef) (initial true)))
    = [wireMessage "getLanguage" (uuid n) (VObj []) None].
Proof.
  destruct (command_without_input_ignores_payload uuid uuid_valid 0
              "getLanguage" VNull
              (exec (constructor VUndef) (initial true)))
    as (n & _ & Hp & _).
  - apply (bool_decide_unpack _). by vm_compute.
  - reflexivity.
  - vm_compute. lia.
  - by exists n.
Defined.

(** ** The properties at work on a small page *)

Lemma every_promise_resolved_at_most_once_witness :
  (calls 0 (run uuid (initial true)
              [New VUndef; Send 0 "getLanguage" VUndef; Destroy 0;
               Fire 1; Message (VObj [("messageId", VStr (uuid 1))])])
   ≤ 1)%nat.
Proof. apply (every_promise_resolved_at_most_once uuid uuid_valid). Defined.

Lemma reply_settles_only_its_call_witness :
  settled (exec (messageHandler 0
                   (VObj [("messageId", VStr (uuid 1)); ("code", VNum 200)]))
             (run uuid (initial true)
                [New VUndef; Send 0 "getLanguage" VUndef]))
  = [(0%nat, VObj [("messageId", VStr (uuid 1)); ("code", VNum 200)])].
Proof.
  destruct (reply_settles_only_its_call uuid uuid_valid true
              [New VUndef; Send 0 "getLanguage" VUndef] 0 (uuid 1)
              (pendingCall 0 (Some 1))
              (VObj [("messageId", VStr (uuid 1)); ("code", VNum 200)])
              ltac:(by vm_compute) ltac:(by vm_compute))
    as (H & _).
  exact H.
Defined.

Lemma timer_expiry_settles_with_timeout_witness :
  settled (fireTimer 1
             (run uuid (initial true)
                [New VUndef; Send 0 "getLanguage" VUndef]))
  = [(0%nat, errorResponse 30011 (VStr (uuid 1)))].
Proof.
  destruct (timer_expiry_settles_with_timeout uuid uuid_valid true
              [New VUndef; Send 0 "getLanguage" VUndef] 1
              (timeoutTimer 0 (uuid 1) "getLanguage" (VNum 30000))
              (pendingCall 0 (Some 1))
              ltac:(by vm_compute) ltac:(by vm_compute))
    as (H & _).
  exact H.
Defined.

Lemma destroy_settles_every_pending_call_witness :
  settled (exec (destroy 0)
             (run uuid (initial true)
                [New VUndef; Send 0 "getLanguage" VUndef;
                 Send 0 "openURL" (VObj [("url", VStr "https://relayx.io")])]))
  = [(0%nat, destroyedResponse (uuid 1));
     (1%nat, destroyedResponse (uuid 4))].
Proof.
  destruct (destroy_settles_every_pending_call uuid uuid_valid true
              [New VUndef; Send 0 "getLanguage" VUndef;
               Send 0 "openURL" (VObj [("url", VStr "https://relayx.io")])]
              0)
    as (H & _).
  exact H.
Defined.

Lemma message_reaches_listener_instance_only_witness :
  registry
    (dispatchMessage (VObj [("messageId", VStr (uuid 1))])
       (run uuid (initial true)
          [New VUndef; New VUndef; Send 1 "getLanguage" VUndef])) 1
  = [(uuid 1, pendingCall 0 (Some 1))].
Proof.
  destruct (message_reaches_listener_instance_only uuid uuid_valid true
              [New VUndef; New VUndef; Send 1 "getLanguage" VUndef]
              (VObj [("messageId", VStr (uuid 1))]))
    as (_ & H).
  rewrite (H 1%nat) by by vm_compute. by vm_compute.
Defined.

(** ** Valid input goes through *)

Lemma https_not_blank u : startsWith u "https://" = true → blank u = false.
Proof.
  destruct u as [|c u]; [done|]. cbn [startsWith].
  destruct (Ascii.eqb_spec "h"%char c) as [<-|]; [|discriminate].
  intros _. by apply not_blank.
Qed.

Lemma get_truthy payload k v : get payload k = v → v ≠ VUndef →
  truthy payload = true ∧ is_undefined payload = false.
Proof. by destruct payload. Qed.

Lemma text_defined v : text v → v ≠ VUndef.
Proof. by intros (s & -> & _). Qed.

Lemma text_not_text v : text v → not_text v = false.
Proof. by intros (s & -> & H). Qed.

Lemma text_is_string v : text v → is_string v = true.
Proof. by intros (s & -> & H). Qed.

Lemma certificate_valid sign cmd messageId :
  certificate sign → validateSigInfo sign cmd messageId = SigValid.
Proof.
  intros [(c & Hc & Hbc) (s & Hs & Hbs)]. unfold validateSigInfo.
  destruct (get_truthy sign "content" _ Hc) as [-> _]; [done|].
  cbn [negb]. by rewrite Hc, Hs, Hbc, Hbs.
Qed.

Section Accepting.
Variable randomUUID : nat → string.

Abbreviation forwards := (forwards randomUUID).

Lemma forwards_here this cmd payload w :
  forwards this cmd payload w
    (_sendMessage randomUUID this cmd payload None w).
Proof. exists (uuidCount w). by rewrite set_uuidCount_here. Qed.

Lemma forwards_rebase this cmd payload w m r :
  (uuidCount w ≤ m)%nat →
  forwards this cmd payload (set_uuidCount m w) r →
  forwards this cmd payload w r.
Proof.
  intros Hm (n & Hn & ->). exists n. split; [cbn in Hn; lia|done].
Qed.

Lemma forwards_messageId this cmd sent payload (k : JsVal → M nat) w :
  (∀ messageId w', forwards this cmd sent w' (k messageId w')) →
  forwards this cmd sent w ((messageId_of randomUUID payload ≫= k) w).
Proof.
  intros Hk. monad_unfold. rewrite messageId_of_run.
  destruct (truthy (get payload "messageId")); [apply Hk|].
  apply (forwards_rebase _ _ _ _ (S (uuidCount w))); [lia | apply Hk].
Qed.

Lemma forwards_try_catch this cmd sent (m : M nat) h w :
  forwards this cmd sent w (m w) →
  forwards this cmd sent w (try_catch m h w).
Proof.
  intros (n & Hn & Hr). exists n. split; [done|].
  unfold try_catch. rewrite Hr.
  by destruct (_sendMessage_returns randomUUID this cmd sent
                 (set_uuidCount n w)) as [w' ->].
Qed.

Lemma forwards_signed this cmd messageId data sign w :
  certificate sign →
  forwards this cmd (envelope data (Some sign)) w
    (send_signed randomUUID this cmd messageId data sign w).
Proof.
  intros Hc. unfold send_signed.
  rewrite (certificate_valid _ _ _ Hc). apply forwards_here.
Qed.

Ltac passes :=
  match goal with
  | |- forwards _ _ _ _ ((if ?b then _ else _) _) =>
      replace b with false; [first [apply forwards_here
                                   | by apply forwards_signed] | symmetry]
  end.

Lemma accepts_connectCocoPay this payload w :
  Accepted "connectCocoPay" payload None →
  forwards this "connectCocoPay" (envelope payload None) w
    (connectCocoPay randomUUID this payload w).
Proof.
  intros H. inversion H as [? H1 H2 H3| | | | | | | | | | | | | | | | |].
  subst. unfold connectCocoPay. apply forwards_messageId. intros. passes.
  rewrite H1, H2. cbn [negb orb].
  destruct (is_undefined _); [done|].
  by destruct (isArray (get payload "walletSupports")).
Qed.

Lemma accepts_openURL this payload w :
  Accepted "openURL" payload None →
  forwards this "openURL" (envelope payload None) w
    (openURL randomUUID this payload w).
Proof.
  intros H. inversion H as [| | |? u H1 H2 H3 H4| | | | | | | | | | | | | |].
  subst. unfold openURL. apply forwards_messageId. intros. passes.
  destruct (get_truthy payload "url" _ H1) as [-> _]; [done|].
  rewrite H1. unfold valid_url.
  rewrite H2, (https_not_blank _ H2), (proj2 (Nat.leb_le _ _) H3).
  cbn [negb orb andb].
  destruct (is_undefined _); [done|].
  by destruct (is_boolean (get payload "useSystemOpen")).
Qed.

Ltac accepts_text_field Ht :=
  apply forwards_messageId; intros; passes;
  destruct (get_truthy _ _ _ eq_refl (text_defined _ Ht)) as [-> _];
  by rewrite (text_not_text _ Ht).

Lemma accepts_copyToClipboard this payload w :
  Accepted "copyToClipboard" payload None →
  forwards this "copyToClipboard" (envelope payload None) w
    (copyToClipboard randomUUID this payload w).
Proof.
  intros H. inversion H as [| | | | |? Ht| | | | | | | | | | | |].
  subst. unfold copyToClipboard. accepts_text_field Ht.
Qed.

Lemma accepts_generateSignature this payload w :
  Accepted "generateSignature" payload None →
  forwards this "generateSignature" (envelope payload None) w
    (generateSignature randomUUID this payload w).
Proof.
  intros H. inversion H as [| | | | | | | | | | |? Ht| | | | | |].
  subst. unfold generateSignature. accepts_text_field Ht.
Qed.

Lemma accepts_verifySignature this payload w :
  Accepted "verifySignature" payload None →
  forwards this "verifySignature" (envelope payload None) w
    (verifySignature randomUUID this payload w).
Proof.
  intros H. inversion H as [| | | | | | | | | | | |? Hm Hs| | | | |].
  subst. unfold verifySignature. apply forwards_messageId. intros. passes.
  destruct (get_truthy _ _ _ eq_refl (text_defined _ Hm)) as [-> _].
  by rewrite (text_not_text _ Hm), (text_not_text _ Hs),
       (text_is_string _ Hm), (text_is_string _ Hs).
Qed.

Lemma accepts_encrypt this payload w :
  Accepted "encrypt" payload None →
  forwards this "encrypt" (envelope payload None) w
    (encrypt randomUUID this payload w).
Proof.
  intros H. inversion H as [| | | | | | | | | | | | |? Ht| | | |].
  subst. unfold encrypt. accepts_text_field Ht.
Qed.

Lemma accepts_decrypt this payload w :
  Accepted "decrypt" payload None →
  forwards this "decrypt" (envelope payload None) w
    (decrypt randomUUID this payload w).
Proof.
  intros H. inversion H as [| | | | | | | | | | | | | |? Ht| | |].
  subst. unfold decrypt. accepts_text_field Ht.
Qed.

Lemma accepts_saveImage this payload w :
  Accepted "saveImage" payload None →
  forwards this "saveImage" (envelope payload None) w
    (saveImage randomUUID this payload w).
Proof.
  intros H. inversion H as [| | | | | |? image H1 H2 H3| | | | | | | | | | |].
  subst. unfold saveImage. apply forwards_messageId. intros. rewrite H1.
  destruct (get_truthy payload "image" _ H1) as [-> _]; [done|].
  rewrite (data_image_not_blank _ H2), H2. cbn [negb orb].
  monad_unfold. unfold maxSizeInBytes.
  destruct (Z.ltb_spec (1 * 1024 * 1024)
              (bytes (getBase64ImageSize image))); [lia|].
  apply forwards_here.
Qed.

Lemma accepts_getAccount this payload w :
  Accepted "getAccount" payload None →
  forwards this "getAccount" (envelope payload None) w
    (getAccount randomUUID this payload w).
Proof.
  intros H.
  inversion H as [| | | | | | |ps Hp|xs| | | | | | | | |]; subst;
    unfold getAccount; apply forwards_messageId; intros;
    unfold has_in; monad_unfold; cbv beta iota.
  - cbn [truthy]. cbv beta iota. unfold get.
    destruct Hp as [-> | ->]; cbn; apply forwards_here.
  - cbn [truthy]. cbv beta iota. apply forwards_here.
Qed.

Lemma accepts_setExtendedData this payload w :
  Accepted "setExtendedData" payload None →
  forwards this "setExtendedData" (envelope payload None) w
    (setExtendedData randomUUID this payload w).
Proof.
  intros H. inversion H as [| | | | | | | | |? He| | | | | | | |]. subst.
  unfold setExtendedData. apply forwards_messageId. intros.
  assert (Hd : get payload "extend" ≠ VUndef).
  { destruct He as [He|(He & _)]; by destruct (get payload "extend"). }
  destruct payload as [| | | | | | |ps]; try done.
  unfold has_in. monad_unfold. cbn [truthy negb]. cbv beta iota.
  assert (Hs : is_Some (assoc "extend" ps)).
  { unfold get in Hd. by destruct (assoc "extend" ps). }
  rewrite (bool_decide_eq_true_2 _ Hs). cbn [orb negb].
  passes.
  destruct He as [He|(He & Hn & Ha)].
  - rewrite He. by destruct (get (VObj ps) "extend").
  - by rewrite He, Hn, Ha.
Qed.

Lemma accepts_registerService this data sign w :
  Accepted "registerService" data (Some sign) →
  forwards this "registerService" (envelope data (Some sign)) w
    (registerService randomUUID this data sign w).
Proof.
  intros H. inversion H as [| | | | | | | | | | | | | | |? ? Ht Hc| |].
  subst. unfold registerService. apply forwards_messageId. intros. passes.
  destruct (get_truthy _ _ _ eq_refl (text_defined _ Ht)) as [-> _].
  by rewrite (text_not_text _ Ht).
Qed.

Lemma accepts_checkServiceStatus this sign w :
  Accepted "checkServiceStatus" (VObj []) (Some sign) →
  forwards this "checkServiceStatus" (envelope (VObj []) (Some sign)) w
    (checkServiceStatus randomUUID this sign w).
Proof.
  intros H. inversion H as [| | | | | | | | | | | | | | | |? Hc|].
  subst. unfold checkServiceStatus. apply forwards_messageId. intros.
  by apply forwards_signed.
Qed.

Lemma accepts_sendServiceMessage this data sign w :
  Accepted "sendServiceMessage" data (Some sign) →
  forwards this "sendServiceMessage" (envelope data (Some sign)) w
    (sendServiceMessage randomUUID this data sign w).
Proof.
  intros H. inversion H as [| | | | | | | | | | | | | | | | |? ? H1 H2 H3 Hc].
  subst. unfold sendServiceMessage. apply forwards_messageId. intros.
  passes.
  destruct (get_truthy data "type" _ H3) as [-> _]; [done|].
  by rewrite H1, H2, H3.
Qed.
End Accepting.

Lemma accepted_request_defined cmd data sign :
  Accepted cmd data sign → is_undefined (request data sign) = false.
Proof.
  intros H. destruct H; try reflexivity; destruct data; try reflexivity;
    exfalso; cbn in *;
    repeat match goal with
      | Ht : text _ |- _ => destruct Ht as (? & ? & ?)
      | Ho : _ ∨ _ |- _ => destruct Ho as [?|(? & _)]
      end;
    discriminate.
Qed.

Lemma member_object props k :
  member (VObj props) k = mret (get (VObj props) k).
Proof. reflexivity. Qed.

Section Complete.
Variable randomUUID : nat → string.
Hypothesis randomUUID_valid : ∀ n, valid_id (randomUUID n) = true.

Lemma sendMessage_accepts this cmd data sign w :
  Accepted cmd data sign →
  forwards randomUUID this cmd (envelope data sign) w
    (sendMessage randomUUID this cmd (request data sign) w).
Proof.
  intros H. pose proof (accepted_request_defined _ _ _ H) as Hdef.
  unfold sendMessage. rewrite Hdef.
  inversion H; subst;
    unfold js_lookup, commandMap;
    cbn [assoc String.eqb Ascii.eqb Bool.eqb andb type handler request];
    apply forwards_messageId; intros; apply forwards_try_catch;
    rewrite ?member_object; monad_unfold;
    cbn [get assoc String.eqb Ascii.eqb Bool.eqb andb default from_option
         id];
    repeat match goal with
      | |- context [arg ?n ?l] =>
          let v := eval cbv in (arg n l) in change (arg n l) with v
      end.
  all: lazymatch goal with
       | |- _ (connectCocoPay _ _ _ _) => by apply accepts_connectCocoPay
       | |- _ (getSafeAreaInsets _ _ _) =>
           unfold getSafeAreaInsets; apply forwards_here
       | |- _ (getLanguage _ _ _) => unfold getLanguage; apply forwards_here
       | |- _ (openURL _ _ _ _) => by apply accepts_openURL
       | |- _ (scanQRCode _ _ _) => unfold scanQRCode; apply forwards_here
       | |- _ (copyToClipboard _ _ _ _) => by apply accepts_copyToClipboard
       | |- _ (saveImage _ _ _ _) => by apply accepts_saveImage
       | |- _ (getAccount _ _ _ _) => by apply accepts_getAccount
       | |- _ (setExtendedData _ _ _ _) => by apply accepts_setExtendedData
       | |- _ (getExtendedData _ _ _) =>
           unfold getExtendedData; apply forwards_here
       | |- _ (generateSignature _ _ _ _) =>
           by apply accepts_generateSignature
       | |- _ (verifySignature _ _ _ _) => by apply accepts_verifySignature
       | |- _ (encrypt _ _ _ _) => by apply accepts_encrypt
       | |- _ (decrypt _ _ _ _) => by apply accepts_decrypt
       | |- _ (registerService _ _ _ _ _) =>
           by apply accepts_registerService
       | |- _ (checkServiceStatus _ _ _ _) =>
           by apply accepts_checkServiceStatus
       | |- _ (sendServiceMessage _ _ _ _ _) =>
           by apply accepts_sendServiceMessage
       end.
Qed.

(** X21: validation is complete for every command of the table: input
    that passes the command's checks always goes through, and goes
    through unchanged.  On a page with a parent window [sendMessage]
    then posts the command name, a generated identifier, the input
    under [data] and the certificate under [sign], settles nothing, and
    registers the call under that identifier. *)
Theorem accepted_input_is_posted (this : nat) (cmd : string)
    (data : JsVal) (sign : option JsVal) (w : World) :
  Accepted cmd data sign →
  parent w = true → (this < length (instances w))%nat →
  let w' := exec (sendMessage randomUUID this cmd (request data sign)) w in
  ∃ n, (uuidCount w ≤ n)%nat
       ∧ posted w'
         = (posted w ++ [wireMessage cmd (randomUUID n) data sign])%list
       ∧ settled w' = settled w
       ∧ assoc (randomUUID n) (registry w' this)
         = Some (pendingCall (nextPromise w)
                   (if is_fire_and_forget cmd then None
                    else Some (nextTimer w))).
Proof using randomUUID_valid.
  intros H Hparent Hthis w'.
  destruct (sendMessage_accepts this cmd data sign w H) as (n & Hn & Hr).
  exists n. split; [done|]. subst w'. unfold exec. rewrite Hr.
  pose proof (_sendMessage_sent randomUUID this cmd (envelope data sign)
                n w Hparent Hthis) as (Hp & Ha & _).
  split_and!.
  - by rewrite <- outgoing_envelope.
  - apply (_sendMessage_settled randomUUID this cmd (envelope data sign)
             (set_uuidCount n w) Hparent).
  - done.
Qed.
End Complete.

Lemma accepted_input_is_posted_witness :
  ∃ n,
    posted (exec (sendMessage uuid 0 "openURL"
                    (VObj [("url", VStr "https://relayx.io")]))
              (exec (constructor VUndef) (initial true)))
    = [wireMessage "openURL" (uuid n)
         (VObj [("url", VStr "https://relayx.io")]) None].
Proof.
  destruct (accepted_input_is_posted uuid uuid_valid 0 "openURL"
              (VObj [("url", VStr "https://relayx.io")]) None
              (exec (constructor VUndef) (initial true)))
    as (n & _ & Hp & _).
  - apply (accept_openURL _ "https://relayx.io");
      [reflexivity | reflexivity | vm_compute; lia | reflexivity].
  - reflexivity.
  - vm_compute. lia.
  - by exists n.
Defined.

(** ** Request and reply *)

Section RoundTrip.
Variable randomUUID : nat → string.
Hypothesis randomUUID_valid : ∀ n, valid_id (randomUUID n) = true.

(** X22: the round trip the library is there for.  On a page with a
    parent window, a call with accepted input made on the instance whose
    handler the window holds posts its message, and when an inbound
    message then carries the identifier of that message, the promise the
    call returned is settled with the inbound message as it is. *)
Theorem request_reply_round_trip (es : list Event) (this : nat)
    (cmd : string) (data : JsVal) (sign : option JsVal) :
  let w := run randomUUID (initial true) es in
  listenerFn w = Some this → (this < length (instances w))%nat →
  Accepted cmd data sign →
  ∃ n,
    posted (step randomUUID w (Send this cmd (request data sign)))
    = (posted w ++ [wireMessage cmd (randomUUID n) data sign])%list
    ∧ ∀ reply,
        get reply "messageId" = VStr (randomUUID n) →
        settled (run randomUUID w
                   [Send this cmd (request data sign); Message reply])
        = (settled w ++ [(nextPromise w, reply)])%list.
Proof.
  intros w Hfn Hthis Hacc.
  assert (Hwf : wf w) by by apply wf_run.
  assert (Hpaired : paired w).
  { apply paired_run; [done | apply wf_initial | done]. }
  assert (Hparent : parent w = true).
  { destruct (keeps_run randomUUID randomUUID_valid (initial true) es
                (wf_initial true)) as (Hk & _).
    exact Hk. }
  cbn [run fold_left step]. rewrite bool_decide_eq_true_2 by done.
  destruct (sendMessage_accepts randomUUID this cmd data sign w Hacc)
    as (n & Hn & Hr).
  pose proof (_sendMessage_sent randomUUID this cmd (envelope data sign)
                n w Hparent Hthis) as (Hp & Ha & _).
  pose proof (_sendMessage_settled randomUUID this cmd (envelope data sign)
                (set_uuidCount n w) Hparent) as Hs.
  destruct (same_page_sendMessage randomUUID this cmd (request data sign) w)
    as (_ & _ & Hl & _).
  unfold exec in *. rewrite Hr in *.
  set (w1 := (_sendMessage randomUUID this cmd (envelope data sign) None
                (set_uuidCount n w)).2) in *.
  exists n. split; [by rewrite <- outgoing_envelope|].
  intros reply Hreply. unfold dispatchMessage.
  rewrite Hl, Hpaired, Hfn. cbn [fold_left]. unfold exec.
  rewrite (messageHandler_own _ _ _ _ _ Hreply Ha). cbn [snd].
  change (settled (resolved ?p ?v ?W)) with (settled W ++ [(p, v)])%list.
  destruct (cleaned_frame this (randomUUID n) w1) as (-> & _).
  by rewrite Hs.
Qed.

(** X23: a call that gets no reply is settled by its timer.  On a page
    with a parent window, a call with accepted input for a command other
    than [openURL] and [scanQRCode], made on any constructed instance, is
    settled with code 30011 and the identifier of the posted message
    when the timer armed for it expires. *)
Theorem request_without_reply_times_out (es : list Event) (this : nat)
    (cmd : string) (data : JsVal) (sign : option JsVal) :
  let w := run randomUUID (initial true) es in
  (this < length (instances w))%nat →
  Accepted cmd data sign → is_fire_and_forget cmd = false →
  ∃ n,
    posted (step randomUUID w (Send this cmd (request data sign)))
    = (posted w ++ [wireMessage cmd (randomUUID n) data sign])%list
    ∧ settled (run randomUUID w
                 [Send this cmd (request data sign); Fire (nextTimer w)])
      = (settled w
         ++ [(nextPromise w,
              errorResponse ErrorCode.TimeoutError
                (VStr (randomUUID n)))])%list.
Proof.
  intros w Hthis Hacc Hff.
  assert (Hparent : parent w = true).
  { destruct (keeps_run randomUUID randomUUID_valid (initial true) es
                (wf_initial true)) as (Hk & _).
    exact Hk. }
  cbn [run fold_left step]. rewrite bool_decide_eq_true_2 by done.
  destruct (sendMessage_accepts randomUUID this cmd data sign w Hacc)
    as (n & Hn & Hr).
  pose proof (_sendMessage_sent randomUUID this cmd (envelope data sign)
                n w Hparent Hthis) as (Hp & Ha & Ht).
  pose proof (_sendMessage_settled randomUUID this cmd (envelope data sign)
                (set_uuidCount n w) Hparent) as Hs.
  unfold exec in *. rewrite Hr in *. rewrite Hff in Ha, Ht.
  set (w1 := (_sendMessage randomUUID this cmd (envelope data sign) None
                (set_uuidCount n w)).2) in *.
  exists n. split; [by rewrite <- outgoing_envelope|].
  unfold fireTimer. rewrite Ht, lookup_insert_eq.
  cbn [timer_this timer_messageId timer_cmd timeoutTimer].
  set (w0 := set_timers _ _ w1).
  assert (Ha0 : assoc (randomUUID n) (registry w0 this)
                = Some (pendingCall (nextPromise w) (Some (nextTimer w))))
    by exact Ha.
  unfold exec. rewrite (handleTimeout_own _ _ _ _ _ Ha0). cbn [snd].
  change (settled (resolved ?p ?v ?W)) with (settled W ++ [(p, v)])%list.
  destruct (cleaned_frame this (randomUUID n) w0) as (-> & _).
  change (settled w0) with (settled w1). by rewrite Hs.
Qed.
End RoundTrip.

Lemma request_reply_round_trip_witness :
  ∃ n,
    posted (step uuid (run uuid (initial true) [New VUndef])
              (Send 0 "copyToClipboard" (VObj [("text", VStr "hello")])))
    = (posted (run uuid (initial true) [New VUndef])
       ++ [wireMessage "copyToClipboard" (uuid n)
             (VObj [("text", VStr "hello")]) None])%list
    ∧ ∀ reply,
        get reply "messageId" = VStr (uuid n) →
        settled (run uuid (run uuid (initial true) [New VUndef])
                   [Send 0 "copyToClipboard" (VObj [("text", VStr "hello")]);
                    Message reply])
        = (settled (run uuid (initial true) [New VUndef])
           ++ [(nextPromise (run uuid (initial true) [New VUndef]),
                reply)])%list.
Proof.
  apply (request_reply_round_trip uuid uuid_valid [New VUndef] 0
           "copyToClipboard" (VObj [("text", VStr "hello")]) None).
  - reflexivity.
  - vm_compute. lia.
  - apply accept_copyToClipboard. by exists "hello".
Defined.

Lemma request_without_reply_times_out_witness :
  ∃ n,
    posted (step uuid (run uuid (initial true) [New VUndef; New VUndef])
              (Send 1 "copyToClipboard" (VObj [("text", VStr "hello")])))
    = (posted (run uuid (initial true) [New VUndef; New VUndef])
       ++ [wireMessage "copyToClipboard" (uuid n)
             (VObj [("text", VStr "hello")]) None])%list
    ∧ settled
        (run uuid (run uuid (initial true) [New VUndef; New VUndef])
           [Send 1 "copyToClipboard" (VObj [("text", VStr "hello")]);
            Fire (nextTimer
                    (run uuid (initial true) [New VUndef; New VUndef]))])
      = (settled (run uuid (initial true) [New VUndef; New VUndef])
         ++ [(nextPromise (run uuid (initial true) [New VUndef; New VUndef]),
              errorResponse 30011 (VStr (uuid n)))])%list.
Proof.
  apply (request_without_reply_times_out uuid uuid_valid
           [New VUndef; New VUndef] 1
           "copyToClipboard" (VObj [("text", VStr "hello")]) None).
  - vm_compute. lia.
  - apply accept_copyToClipboard. by exists "hello".
  - reflexivity.
Defined.
